(** * upbit-auto: execution model, bar aggregator, REST client and live loop

    A shallow embedding of the core of the [ua] package
    (engine/common.py, engine/backtest.py, engine/paper.py,
    data/aggregator.py, data/upbit.py, broker/upbit.py,
    live/portfolio_ws.py, live/ws_loop.py, strategy/indicators.py,
    strategy/examples/sma_cross.py), the properties of it that the
    specification states, and further properties that the code itself shows.

    Conventions of the embedding.
    - Python floats are idealised as exact rationals ([Q]): rounding, NaN and
      infinities are not modelled.  Comparisons of the source ([==], [<=],
      [>]) become [Qeq_bool], [Qle_bool] and [Qltb].
    - A [datetime] is a UTC instant, an integer count of microseconds since
      the epoch; a naive datetime is read as UTC, as the source does.
    - Calls that can raise return [option] (or a sum); code that mutates
      objects threads the state explicitly. *)

From Stdlib Require Import ZArith QArith Qminmax Qround Qabs List Sorted String Bool.
From Stdlib Require Import Lia Lqa.
Import ListNotations.
Local Open Scope Z_scope.
Local Open Scope Q_scope.

(** ** Python numerics *)

Module Py.

(** [a < b] on floats. *)
Definition Qltb (a b : Q) : bool := negb (Qle_bool b a).

(** The builtin [max(a, b)]: the first argument unless the second is
    strictly greater. *)
Definition max (a b : Q) : Q := if Qltb a b then b else a.

(** The builtin [min(a, b)]: the first argument unless the second is
    strictly smaller. *)
Definition min (a b : Q) : Q := if Qltb b a then b else a.

(** [int(x)] on a float: truncation toward zero. *)
Definition int (x : Q) : Z := Z.quot (Qnum x) (Zpos (Qden x)).

(** [x or d] / [not x] on an optional float: [None] and [0.0] are falsy. *)
Definition truthy (x : option Q) : bool :=
  match x with
  | None => false
  | Some v => negb (Qeq_bool v 0)
  end.

(** [s.iat[-1]] with a default for the empty series. *)
Definition last_or {A : Type} (l : list A) (d : A) : A := List.last l d.

End Py.

(** ** data/aggregator.py *)

Module Aggregator.

Definition datetime := Z.

Definition MINUTE_US : Z := 60000000%Z.

(** [floor_minute]: [ts.replace(second=0, microsecond=0)]. *)
Definition floor_minute (ts : datetime) : datetime := (ts - ts mod MINUTE_US)%Z.

Record CandleBucket := mkBucket {
  start : datetime;
  open : Q;
  high : Q;
  low : Q;
  close : Q;
  volume : Q
}.

(** The one-row DataFrame a finalized bucket is returned as. *)
Record Bar := mkBar {
  timestamp : datetime;
  Open : Q;
  High : Q;
  Low : Q;
  Close : Q;
  Volume : Q
}.

Definition row_of (b : CandleBucket) : Bar :=
  mkBar (start b) (open b) (high b) (low b) (close b) (volume b).

(** [CandleAggregator]: its only attribute is [self.bucket]. *)
Definition CandleAggregator := option CandleBucket.

Definition init : CandleAggregator := None.

Definition seed (key : datetime) (price vol : Q) : CandleBucket :=
  mkBucket key price price price price vol.

(** The in-place mutation of the last branch of [update]. *)
Definition merged (b : CandleBucket) (price vol : Q) : CandleBucket :=
  mkBucket (start b) (open b) (Py.max (high b) price) (Py.min (low b) price)
           price (volume b + vol).

(** [CandleAggregator.update]: the new aggregator and the returned row. *)
Definition update (self : CandleAggregator) (ts : datetime) (price vol : Q)
  : CandleAggregator * option Bar :=
  let key := floor_minute ts in
  match self with
  | None => (Some (seed key price vol), None)
  | Some b =>
      if (start b <? key)%Z
      then (Some (seed key price vol), Some (row_of b))
      else (Some (merged b price vol), None)
  end.

(** [CandleAggregator.finalize]. *)
Definition finalize (self : CandleAggregator) : CandleAggregator * option Bar :=
  match self with
  | None => (None, None)
  | Some b => (None, Some (row_of b))
  end.

(** Feeding a sequence of ticks, collecting the rows [update] returns. *)
Fixpoint feed (self : CandleAggregator) (ticks : list (datetime * Q * Q))
  : CandleAggregator * list Bar :=
  match ticks with
  | [] => (self, [])
  | (ts, price, vol) :: rest =>
      let '(self', row) := update self ts price vol in
      let '(final, rows) := feed self' rest in
      (final, match row with Some r => r :: rows | None => rows end)
  end.

(** Wall-clock time of day [h:m:s] on the epoch day, in microseconds. *)
Definition at_hms (h m s : Z) : datetime := (((h * 60 + m) * 60 + s) * 1000000)%Z.

End Aggregator.

(** ** engine/common.py *)

Module Engine.

Inductive side := Buy | Sell.

(** The calls made on the optional logger [log]. *)
Inductive log_event :=
| risk_violation_event (drawdown threshold : Q)
                       (run_id market : option string) (bar : Z)
| order_submitted (sd : side) (price qty fee : Q)
                  (run_id market : option string) (bar : Z)
| order_filled (sd : side) (price qty fee : Q)
               (run_id market : option string) (bar : Z)
| position_opened (qty entry_price : Q)
                  (run_id market : option string) (bar : Z)
| position_closed (exit_price pnl_pct : Q)
                  (run_id market : option string) (bar : Z).

(** The arguments [cash], [fee], [slippage], [max_fraction], [cooldown_bars]
    and [stop_drawdown]. *)
Record Params := mkParams {
  cash : Q;
  fee : Q;
  slippage : Q;
  max_fraction : Q;
  cooldown_bars : Z;
  stop_drawdown : option Q
}.

(** The arguments [log] (is it not [None]), [run_id] and [market]. *)
Record LogCtx := mkLogCtx {
  log : bool;
  run_id : option string;
  market : option string
}.

(** The local variables of [simulate_long_only], with what was logged. *)
Record Loop := mkLoop {
  equity_curve : list Q;
  position : Q;
  entry_price : Q;
  trades : list Q;
  wins : Z;
  cash_bal : Q;
  last_trade_bar : Z;
  stopped_reason : option string;
  emitted : list log_event
}.

Definition init (p : Params) : Loop :=
  mkLoop [] 0 0 [] 0%Z (cash p) (- 10 ^ 9)%Z None [].

Definition emit (lc : LogCtx) (evs : list log_event) (s : Loop) : Loop :=
  if log lc
  then mkLoop (equity_curve s) (position s) (entry_price s) (trades s) (wins s)
              (cash_bal s) (last_trade_bar s) (stopped_reason s)
              (emitted s ++ evs)
  else s.

(** [equity_curve.append(cash_bal + position * price)]. *)
Definition mark (price : Q) (s : Loop) : Loop :=
  mkLoop (equity_curve s ++ [cash_bal s + position s * price])
         (position s) (entry_price s) (trades s) (wins s)
         (cash_bal s) (last_trade_bar s) (stopped_reason s) (emitted s).

(** [(eq - cash) / cash]. *)
Definition drawdown (p : Params) (eq : Q) : Q := (eq - cash p) / cash p.

(** The guard of the drawdown stop, on the curve just extended. *)
Definition breach (p : Params) (s : Loop) : bool :=
  match stop_drawdown p with
  | None => false
  | Some sd =>
      (0 <? Z.of_nat (List.length (equity_curve s)))%Z
      && (Py.Qltb 0 (cash p)
          && Qle_bool (drawdown p (Py.last_or (equity_curve s) 0)) (- sd))
  end.

Definition stop (p : Params) (lc : LogCtx) (i : Z) (s : Loop) : Loop :=
  let eq := Py.last_or (equity_curve s) 0 in
  let sd := match stop_drawdown p with Some sd => sd | None => 0 end in
  let s := emit lc [risk_violation_event (drawdown p eq) (- sd)
                                         (run_id lc) (market lc) i] s in
  mkLoop (equity_curve s) (position s) (entry_price s) (trades s) (wins s)
         (cash_bal s) (last_trade_bar s) (Some "risk_violation"%string)
         (emitted s).

Definition cooled (p : Params) (i : Z) (s : Loop) : bool :=
  (cooldown_bars p <=? i - last_trade_bar s)%Z.

(** The [if sig == 1 and position == 0.0 and ...] branch. *)
Definition buy (p : Params) (lc : LogCtx) (i : Z) (price : Q) (s : Loop) : Loop :=
  let buy_price := price * (1 + slippage p) in
  if Qle_bool buy_price 0 then s
  else
    let budget := cash_bal s * max_fraction p in
    let qty := budget / buy_price in
    let notional := qty * buy_price in
    let fee_amt := notional * fee p in
    if Py.Qltb 0 qty
    then emit lc [order_submitted Buy buy_price qty fee_amt (run_id lc) (market lc) i;
                  order_filled Buy buy_price qty fee_amt (run_id lc) (market lc) i;
                  position_opened qty buy_price (run_id lc) (market lc) i]
              (mkLoop (equity_curve s) qty buy_price (trades s) (wins s)
                      (cash_bal s - notional - fee_amt) i (stopped_reason s)
                      (emitted s))
    else s.

(** [(sell_price - entry_price) / entry_price * 100.0 - (fee * 100.0 + fee * 100.0)]. *)
Definition trade_ret (p : Params) (sell_price entry : Q) : Q :=
  (sell_price - entry) / entry * 100 - (fee p * 100 + fee p * 100).

(** The state change shared by the [elif sig == -1 ...] branch and the
    forced close after the loop. *)
Definition close_position (p : Params) (price : Q) (s : Loop) : Loop :=
  let sell_price := price * (1 - slippage p) in
  let notional := position s * sell_price in
  let fee_amt := notional * fee p in
  let proceeds := notional - fee_amt in
  let tr := trade_ret p sell_price (entry_price s) in
  mkLoop (equity_curve s) 0 0 (trades s ++ [tr])
         (if Py.Qltb 0 tr then (wins s + 1)%Z else wins s)
         (cash_bal s + proceeds) (last_trade_bar s) (stopped_reason s)
         (emitted s).

(** The [elif sig == -1 and position > 0.0 and ...] branch. *)
Definition sell (p : Params) (lc : LogCtx) (i : Z) (price : Q) (s : Loop) : Loop :=
  let sell_price := price * (1 - slippage p) in
  let notional := position s * sell_price in
  let fee_amt := notional * fee p in
  let tr := trade_ret p sell_price (entry_price s) in
  let qty := if Qeq_bool sell_price 0 then 0 else notional / sell_price in
  let c := close_position p price s in
  emit lc [order_submitted Sell sell_price qty fee_amt (run_id lc) (market lc) i;
           order_filled Sell sell_price qty fee_amt (run_id lc) (market lc) i;
           position_closed sell_price tr (run_id lc) (market lc) i]
       (mkLoop (equity_curve c) (position c) (entry_price c) (trades c) (wins c)
               (cash_bal c) i (stopped_reason c) (emitted c)).

(** One iteration of [for i, price in enumerate(close)]; the flag says
    whether the iteration ended in [break]. *)
Definition bar_step (p : Params) (lc : LogCtx) (i : Z) (price : Q) (sig : Z)
    (s : Loop) : Loop * bool :=
  let s := mark price s in
  if breach p s then (stop p lc i s, true)
  else if (sig =? 1)%Z && Qeq_bool (position s) 0 && cooled p i s
  then (buy p lc i price s, false)
  else if (sig =? -1)%Z && Py.Qltb 0 (position s) && cooled p i s
  then (sell p lc i price s, false)
  else (s, false).

(** The whole [for] loop from bar [i] on. *)
Fixpoint loop (p : Params) (lc : LogCtx) (i : Z) (bars : list (Q * Z))
    (s : Loop) : Loop :=
  match bars with
  | [] => s
  | (price, sig) :: rest =>
      let '(s', brk) := bar_step p lc i price sig s in
      if brk then s' else loop p lc (i + 1) rest s'
  end.

(** [# close any open position at last price]. *)
Definition force_close (p : Params) (closes : list Q) (s : Loop) : Loop :=
  if Py.Qltb 0 (position s) && (0 <? Z.of_nat (List.length closes))%Z
  then
    let c := close_position p (Py.last_or closes 0) s in
    mkLoop (equity_curve c ++ [cash_bal c]) (position c) (entry_price c)
           (trades c) (wins c) (cash_bal c) (last_trade_bar c)
           (stopped_reason c) (emitted c)
  else s.

(** *** Metrics *)

Definition Qsum (l : list Q) : Q := fold_left Qplus l 0.

Definition Qlen (l : list Q) : Q := inject_Z (Z.of_nat (List.length l)).

(** [np.mean] / [Series.mean]. *)
Definition mean (l : list Q) : Q := Qsum l / Qlen l.

(** [Series.cummax]. *)
Fixpoint cummax_from (peak : Q) (l : list Q) : list Q :=
  match l with
  | [] => []
  | x :: rest => let m := Py.max peak x in m :: cummax_from m rest
  end.

Definition cummax (l : list Q) : list Q :=
  match l with
  | [] => []
  | x :: rest => x :: cummax_from x rest
  end.

(** [Series.min] of a non-empty series. *)
Definition series_min (l : list Q) : Q :=
  match l with
  | [] => 0
  | x :: rest => fold_left Py.min rest x
  end.

(** [_max_drawdown]. *)
Definition _max_drawdown (equity : list Q) : Q :=
  let peak := cummax equity in
  let dd := map (fun ep => (fst ep - snd ep) / snd ep) (combine equity peak) in
  match dd with
  | [] => 0
  | _ => series_min dd * 100
  end.

(** [equity.pct_change().dropna()]. *)
Fixpoint pct_change (l : list Q) : list Q :=
  match l with
  | a :: (b :: _) as rest => (b / a - 1) :: pct_change rest
  | _ => []
  end.

Record Metrics := mkMetrics {
  Equity_Final : Q;
  Return_pct : Q;
  Max_Drawdown_pct : Q;
  Win_Rate_pct : Q;
  num_Trades : Z;
  Avg_Trade_pct : Q;
  Sharpe_Ratio : Q;
  StoppedReason : string
}.

Record SimResult := mkSimResult {
  metrics : Metrics;
  result_curve : list Q
}.

Section Simulate.

(** The square root of [np.sqrt] and of [Series.std], which has no exact
    counterpart on rationals, is taken as given. *)
Variable sqrt : Q -> Q.

(** [Series.std] (sample standard deviation, [ddof=1]). *)
Definition std (l : list Q) : Q :=
  let m := mean l in
  sqrt (Qsum (map (fun x => (x - m) * (x - m)) l) / (Qlen l - 1)).

Definition sharpe_of (equity : list Q) : Q :=
  if (1 <? Z.of_nat (List.length equity))%Z
  then let r := pct_change equity in
       sqrt 252 * mean r / (std r + 1 / inject_Z (10 ^ 12))
  else 0.

(** The tail of [simulate_long_only], from [equity = pd.Series(equity_curve)] on. *)
Definition summarize (p : Params) (s : Loop) : SimResult :=
  let equity := equity_curve s in
  let equity_final :=
    if (0 <? Z.of_nat (List.length equity))%Z
    then Py.last_or equity 0 else cash p in
  let ret_pct :=
    if Py.Qltb 0 (cash p) then (equity_final - cash p) / cash p * 100 else 0 in
  let num_trades := Z.of_nat (List.length (trades s)) in
  let win_rate :=
    if (0 <? num_trades)%Z
    then inject_Z (wins s) / inject_Z num_trades * 100 else 0 in
  let avg_trade :=
    match trades s with [] => 0 | _ => mean (trades s) end in
  mkSimResult
    (mkMetrics equity_final ret_pct (_max_drawdown equity) win_rate num_trades
               avg_trade (sharpe_of equity)
               (match stopped_reason s with
                | Some r => r
                | None => "completed"%string
                end))
    equity.

(** [pd.Series(list(signals), index=close.index).fillna(0).astype(int)]:
    a length mismatch raises. *)
Definition align_signals (closes : list Q) (signals : list (option Z))
  : option (list Z) :=
  if Nat.eqb (List.length signals) (List.length closes)
  then Some (map (fun o => match o with Some v => v | None => 0%Z end) signals)
  else None.

(** The state at the end of the function body's loop and forced close. *)
Definition run (closes : list Q) (sigs : list Z) (p : Params) (lc : LogCtx)
  : Loop :=
  force_close p closes (loop p lc 0 (combine closes sigs) (init p)).

(** [simulate_long_only]: the result, and what the logger received. *)
Definition simulate_long_only (closes : list Q) (signals : list (option Z))
    (p : Params) (lc : LogCtx) : option (SimResult * list log_event) :=
  match align_signals closes signals with
  | None => None
  | Some sigs =>
      let s := run closes sigs p lc in
      Some (summarize p s, emitted s)
  end.

End Simulate.

End Engine.

(** ** broker/errors.py, broker/upbit.py *)

Module Broker.

(** The exception classes of broker/errors.py. *)
Inductive UpbitError :=
| AuthenticationError
| PermissionError
| RateLimitError
| InvalidRequestError
| NotFoundError
| ExchangeError.

(** The message an exception carries: the fixed text of the exhausted retry
    loop, or the one [_raise_http_error] takes from the response. *)
Inductive message :=
| exceeded_retry_limit
| from_response (status : Z).

(** What one [client.request(...); r.raise_for_status()] does: it returns the
    response, raises [httpx.HTTPStatusError] (with the status code and the
    [Retry-After] header read as a float, when it is there and reads as
    one), or raises [httpx.RequestError].  The response an
    [HTTPStatusError] carries is taken to be truthy, so that
    [e.response.status_code if e.response else None] is its status code. *)
Inductive attempt (R : Type) :=
| Success (r : R)
| HTTPStatusError (status : Z) (retry_after : option Q)
| RequestError.

Arguments Success {R} r.
Arguments HTTPStatusError {R} status retry_after.
Arguments RequestError {R}.

Inductive outcome (R : Type) :=
| Returned (r : R)
| Raised (e : UpbitError) (m : message).

Arguments Returned {R} r.
Arguments Raised {R} e m.

(** [status in (429, 500, 502, 503, 504)]. *)
Definition retry_status (status : Z) : bool :=
  existsb (Z.eqb status) [429; 500; 502; 503; 504]%Z.

(** [UpbitBroker._raise_http_error]: the class raised for a status. *)
Definition _raise_http_error (status : Z) : UpbitError :=
  if (status =? 401)%Z then AuthenticationError
  else if (status =? 403)%Z then PermissionError
  else if (status =? 404)%Z then NotFoundError
  else if (status =? 429)%Z then RateLimitError
  else if negb (status =? 0)%Z && ((400 <=? status)%Z && (status <? 500)%Z)
       then InvalidRequestError
  else ExchangeError.

Section Request.

Variable R : Type.

(** The server and the network: what the attempt numbered [k] meets. *)
Variable env : nat -> attempt R.

(** [random.random()] at the attempt numbered [k]. *)
Variable jitter : nat -> Q.

(** The body of [for attempt in range(max_retries)] from the attempt
    numbered [k] on, with [left] attempts left, the current [backoff] and
    the arguments of the calls to [time.sleep] so far. *)
Fixpoint attempts_from (left k : nat) (backoff : Q) (slept : list Q)
  : outcome R * list Q :=
  match left with
  | O => (Raised RateLimitError exceeded_retry_limit, slept)
  | S left' =>
      match env k with
      | Success r => (Returned r, slept)
      | HTTPStatusError status raf =>
          if retry_status status
          then
            let ra := match raf with Some v => v | None => 0 end in
            let wait := Py.max backoff ra in
            let wait := wait * (1 + (2 # 10) * jitter k) in
            attempts_from left' (S k) (Py.min (backoff * 2) 8) (slept ++ [wait])
          else (Raised (_raise_http_error status) (from_response status), slept)
      | RequestError =>
          attempts_from left' (S k) (Py.min (backoff * 2) 8) (slept ++ [backoff])
      end
  end.

(** [UpbitBroker._request]: what it returns or raises, and its sleeps. *)
Definition _request (max_retries : nat) : outcome R * list Q :=
  attempts_from max_retries 0 (1 # 2) [].

End Request.

(** The default of the argument [max_retries], which no caller overrides. *)
Definition MAX_RETRIES : nat := 5.

(** *** The retry policy in the specification's words

    These three definitions are not taken from the source: they state the
    policy the retry loop is compared with. *)

(** An attempt that the policy retries: a retryable status or a transport
    failure. *)
Definition retryable {R : Type} (a : attempt R) : bool :=
  match a with
  | Success _ => false
  | HTTPStatusError status _ => retry_status status
  | RequestError => true
  end.

(** The backoff before the retry that follows attempt [k]: it starts at half
    a second, doubles per attempt and is capped at eight seconds. *)
Definition backoff_at (k : nat) : Q :=
  Nat.iter k (fun b => Qmin (b * 2) 8) (1 # 2).

(** The wait after a failed attempt: for a status error the larger of the
    backoff and the Retry-After value, stretched by up to 20% of jitter; for
    a transport failure the backoff itself. *)
Definition wait_of {R : Type} (backoff : Q) (a : attempt R) (u : Q) : Q :=
  match a with
  | Success _ => 0
  | HTTPStatusError _ (Some ra) => Qmax backoff ra * (1 + (2 # 10) * u)
  | HTTPStatusError _ None => Qmax backoff 0 * (1 + (2 # 10) * u)
  | RequestError => backoff
  end.

(** [UpbitBroker.quantize_price]. *)
Definition quantize_price (price : Q) (price_unit : option Q) : Q :=
  match price_unit with
  | None => price
  | Some u =>
      if negb (Py.truthy price_unit) || Qle_bool u 0 then price
      else inject_Z (Py.int (price / u)) * u
  end.

(** [OrderRequest]. *)
Record OrderRequest := mkOrder {
  side : string;
  market : string;
  size : option Q;
  price : option Q;
  order_type : string;
  identifier : option string
}.

End Broker.

(** ** broker/upbit.py: credentials and the order endpoint *)

Module Orders.

Import Broker.

(** [UpbitBroker.__init__]: the two keys. *)
Record UpbitBroker := mkBroker {
  _ak : option string;
  _sk : option string
}.

(** What [place_order] raises before any request is made: the
    [RuntimeError] of [_require_keys], or one of its four [ValueError]s. *)
Inductive refusal :=
| RuntimeError_keys
| ValueError_limit
| ValueError_price
| ValueError_market
| ValueError_ord_type.

(** The truth value of an optional string: [None] and [""] are falsy. *)
Definition str_truthy (s : option string) : bool :=
  match s with
  | Some v => negb (String.eqb v "")
  | None => false
  end.

(** [UpbitBroker._require_keys]: whether it raises. *)
Definition _require_keys (b : UpbitBroker) : bool :=
  negb (str_truthy (_ak b)) || negb (str_truthy (_sk b)).

(** [str.lower], on the bytes of the string: the ASCII capitals are
    lowered, the other bytes are kept (no other character lowers to a word
    in ASCII letters). *)
Definition lower_char (a : Ascii.ascii) : Ascii.ascii :=
  let n := Ascii.nat_of_ascii a in
  if ((65 <=? n) && (n <=? 90))%nat then Ascii.ascii_of_nat (n + 32) else a.

Fixpoint lower (s : string) : string :=
  match s with
  | EmptyString => EmptyString
  | String a rest => String (lower_char a) (lower rest)
  end.

Section PlaceOrder.

(** The text [f"{x}"] of a float. *)
Variable fmt : Q -> string.

(** [str(uuid.uuid4())]. *)
Variable uuid4 : string.

(** The fields [place_order] builds from the request, up to the
    identifier. *)
Definition order_fields (req : OrderRequest) : refusal + list (string * string) :=
  let sd :=
    if existsb (String.eqb (lower (side req))) ["buy"; "bid"]%string
    then "bid"%string else "ask"%string in
  let params :=
    [("market", market req); ("side", sd); ("ord_type", order_type req)]%string in
  if String.eqb (order_type req) "limit" then
    match size req, price req with
    | Some sz, Some pr =>
        inr (params ++ [("volume", fmt sz); ("price", fmt pr)]%string)
    | _, _ => inl ValueError_limit
    end
  else if String.eqb (order_type req) "price" then
    match price req with
    | Some pr => inr (params ++ [("price", fmt pr)]%string)
    | None => inl ValueError_price
    end
  else if String.eqb (order_type req) "market" then
    match size req with
    | Some sz => inr (params ++ [("volume", fmt sz)]%string)
    | None => inl ValueError_market
    end
  else inl ValueError_ord_type.

(** [UpbitBroker.place_order] up to its call of [_request]: the exception
    raised before it, or the fields posted (signed and sent as the form)
    and the request object with its identifier set. *)
Definition place_order (b : UpbitBroker) (req : OrderRequest)
  : refusal + (list (string * string) * OrderRequest) :=
  if _require_keys b then inl RuntimeError_keys
  else
    match order_fields req with
    | inl e => inl e
    | inr params =>
        let ident :=
          match identifier req with
          | Some i => if String.eqb i "" then uuid4 else i
          | None => uuid4
          end in
        inr (params ++ [("identifier"%string, ident)],
             mkOrder (side req) (market req) (size req) (price req)
                     (order_type req) (Some ident))
    end.

End PlaceOrder.

(** [params.get(key)] on the posted fields. *)
Fixpoint lookup (key : string) (params : list (string * string)) : option string :=
  match params with
  | [] => None
  | (k, v) :: rest => if String.eqb k key then Some v else lookup key rest
  end.

End Orders.

(** ** live/portfolio_ws.py, live/ws_loop.py *)

Module Live.

Import Aggregator.

Set Warnings "-register-all".

(** A decoded JSON value. *)
Inductive json :=
| JNull
| JBool (b : bool)
| JInt (z : Z)
| JFloat (q : Q)
| JStr (s : string)
| JArr (items : list json)
| JObj (fields : list (string * json)).

(** [d.get(key)] on the fields of a JSON object. *)
Fixpoint dict_get (key : string) (fields : list (string * json)) : option json :=
  match fields with
  | [] => None
  | (k, v) :: rest => if String.eqb k key then Some v else dict_get key rest
  end.

(** What the live loops call and do not define: the exchange behind the
    broker (a state of its own, changed by each call; [None] for a call
    that raises), the strategy, the ATR indicator, the trading-hours
    window test, and the parsers of the runtime. *)
Record Collaborators := mkCollaborators {
  World : Type;
  (** [broker.place_order(req)]: the uuid of the response. *)
  place_order : World -> Broker.OrderRequest -> World * option (option string);
  (** [broker.get_accounts()]: currency and balance of each account. *)
  get_accounts : World -> World * option (list (string * Q));
  (** [broker.get_order(uuid)]: the [state] of the order. *)
  get_order : World -> string -> World * option string;
  (** [strat.signals(df)]. *)
  signals : list Bar -> list Z;
  (** The last value of [_atr(High, Low, Close, period)]; [None] when it is
      NaN or when computing it raises. *)
  atr_last : list Bar -> Z -> option Q;
  (** [_in_windows(ts, hours_windows, tz_display)]. *)
  in_windows : datetime -> bool;
  (** [json.loads] of a frame (decoded as UTF-8 when it is bytes). *)
  json_loads : string -> option json;
  (** [float(s)] and [int(s)] on a string, [str(v)] on a non-string. *)
  float_of_str : string -> option Q;
  int_of_str : string -> option Z;
  repr : json -> string
}.

(** The bounds of [datetime.fromtimestamp(_, tz=utc)], in milliseconds:
    years 1 to 9999. *)
Definition MIN_MS : Z := (-62135596800000)%Z.
Definition MAX_MS : Z := 253402300799999%Z.

(** [datetime.fromtimestamp(ts_ms / 1000, tz=timezone.utc)]. *)
Definition fromtimestamp_ms (ts_ms : Z) : option datetime :=
  if (MIN_MS <=? ts_ms)%Z && (ts_ms <=? MAX_MS)%Z
  then Some (ts_ms * 1000)%Z
  else None.

Section Parsing.

Variable c : Collaborators.

(** [float(v)]. *)
Definition py_float (v : json) : option Q :=
  match v with
  | JInt z => Some (inject_Z z)
  | JFloat q => Some q
  | JBool b => Some (if b then 1 else 0)
  | JStr s => float_of_str c s
  | JNull | JArr _ | JObj _ => None
  end.

(** [int(v)]. *)
Definition py_int (v : json) : option Z :=
  match v with
  | JInt z => Some z
  | JFloat q => Some (Py.int q)
  | JBool b => Some (if b then 1 else 0)%Z
  | JStr s => int_of_str c s
  | JNull | JArr _ | JObj _ => None
  end.

(** [str(v)]. *)
Definition py_str (v : json) : string :=
  match v with
  | JStr s => s
  | JNull => "None"%string
  | _ => repr c v
  end.

Definition get_or (key : string) (fields : list (string * json)) (d : json) : json :=
  match dict_get key fields with
  | Some v => v
  | None => d
  end.

(** The three conversions both parsers share: price, volume, timestamp. *)
Definition parse_fields (fields : list (string * json)) : option (datetime * Q * Q) :=
  match py_float (get_or "trade_price" fields JNull) with
  | None => None
  | Some price =>
      match py_float (get_or "trade_volume" fields (JFloat 0)) with
      | None => None
      | Some vol =>
          match py_int (get_or "timestamp" fields
                               (get_or "trade_timestamp" fields JNull)) with
          | None => None
          | Some ts_ms =>
              match fromtimestamp_ms ts_ms with
              | None => None
              | Some ts => Some (ts, price, vol)
              end
          end
      end
  end.

(** [_parse_trade] of portfolio_ws.py: any exception gives [None]. *)
Definition _parse_trade (msg : json) : option (string * datetime * Q * Q) :=
  match msg with
  | JObj fields =>
      let market := py_str (get_or "code" fields JNull) in
      match parse_fields fields with
      | Some (ts, price, vol) => Some (market, ts, price, vol)
      | None => None
      end
  | _ => None
  end.

(** [_parse_trade] of ws_loop.py. *)
Definition _parse_trade1 (msg : json) : option (datetime * Q * Q) :=
  match msg with
  | JObj fields => parse_fields fields
  | _ => None
  end.

End Parsing.

(** [MarketState]. *)
Record MarketState := mkMarket {
  market : string;
  currency : string;
  agg : CandleAggregator;
  df : list Bar;
  bars : Z;
  last_trade_bar : Z;
  last_signal : Z;
  coin_qty : Q;
  entry_price : Q;
  trail_stop : option Q;
  partial_done : bool;
  price_unit : option Q;
  min_total : option Q
}.

(** The keyword arguments of [run_portfolio_ws] the loop reads. *)
Record Config := mkConfig {
  max_fraction : Q;
  max_daily_loss : Q;
  cooldown_bars : Z;
  atr_trailing_mult : Q;
  atr_period : Z;
  partial_tp_pct : Q;
  partial_tp_ratio : Q
}.

(** How one pass of the receive loop ends: [continue] (or the end of the
    body), an exception that reaches the reconnecting handler, or
    [return {"stopped": "risk", "equity": equity}]. *)
Inductive control :=
| Continue
| Reconnect
| Return (equity : Q).

(** What the socket delivers: a failed or successful (re)connection, a
    receive timeout (with whether the ping then succeeds), or a frame. *)
Inductive ws_event :=
| ConnectFailed
| Connected
| RecvTimeout (ping_ok : bool)
| Recv (raw : string).

(** [st.agg = ...]. *)
Definition set_agg (st : MarketState) (a : CandleAggregator) : MarketState :=
  mkMarket (market st) (currency st) a (df st) (bars st) (last_trade_bar st)
           (last_signal st) (coin_qty st) (entry_price st) (trail_stop st)
           (partial_done st) (price_unit st) (min_total st).

(** The last [n] rows: [df.iloc[-n:]]. *)
Definition tail_rows (n : nat) (l : list Bar) : list Bar :=
  skipn (List.length l - n) l.

(** Appending the finalized row, capped at 2000 rows; [st.bars += 1]. *)
Definition with_bar (st : MarketState) (row : Bar) : MarketState :=
  let d := df st ++ [row] in
  let d := if (2000 <? Z.of_nat (List.length d))%Z then tail_rows 2000 d else d in
  mkMarket (market st) (currency st) (agg st) d (bars st + 1) (last_trade_bar st)
           (last_signal st) (coin_qty st) (entry_price st) (trail_stop st)
           (partial_done st) (price_unit st) (min_total st).

Definition set_last_signal (st : MarketState) (s_val : Z) : MarketState :=
  mkMarket (market st) (currency st) (agg st) (df st) (bars st) (last_trade_bar st)
           (if (s_val =? last_signal st)%Z then last_signal st else s_val)
           (coin_qty st) (entry_price st) (trail_stop st)
           (partial_done st) (price_unit st) (min_total st).

Definition set_trail_stop (st : MarketState) (t : option Q) : MarketState :=
  mkMarket (market st) (currency st) (agg st) (df st) (bars st) (last_trade_bar st)
           (last_signal st) (coin_qty st) (entry_price st) t
           (partial_done st) (price_unit st) (min_total st).

(** The assignments after a filled exit or entry. *)
Definition traded (st : MarketState) (qty entry : Q) : MarketState :=
  mkMarket (market st) (currency st) (agg st) (df st) (bars st) (bars st)
           (last_signal st) qty entry None false (price_unit st) (min_total st).

(** The assignments after a partial take-profit. *)
Definition partially_sold (st : MarketState) (qty : Q) : MarketState :=
  mkMarket (market st) (currency st) (agg st) (df st) (bars st) (last_trade_bar st)
           (last_signal st) qty (entry_price st) (trail_stop st) true
           (price_unit st) (min_total st).

(** [x or 0.0]. *)
Definition or_zero (x : option Q) : Q :=
  match x with
  | Some v => if Qeq_bool v 0 then 0 else v
  | None => 0
  end.

(** [next((float(a.get("balance", 0)) for a in accts
          if a.get("currency") == cur), default)]. *)
Fixpoint balance_of (cur : string) (accts : list (string * Q)) (d : Q) : Q :=
  match accts with
  | [] => d
  | (k, b) :: rest => if String.eqb k cur then b else balance_of cur rest d
  end.

(** [states.get(mkt)]. *)
Definition get_state (mkt : string) (l : list MarketState) : option MarketState :=
  find (fun s => String.eqb (market s) mkt) l.

(** The entry of [states] for [st]'s market, after [st] was mutated (the
    object [states.get] returned is the one in the dict). *)
Fixpoint put_state (st : MarketState) (l : list MarketState) : list MarketState :=
  match l with
  | [] => []
  | s :: rest =>
      if String.eqb (market s) (market st) then st :: rest
      else s :: put_state st rest
  end.

Definition sell_order (mkt : string) (size : Q) : Broker.OrderRequest :=
  Broker.mkOrder "sell" mkt (Some size) None "market" None.

Definition buy_order (mkt : string) (funds : Q) : Broker.OrderRequest :=
  Broker.mkOrder "buy" mkt None (Some funds) "price" None.

Section Coordinator.

Variable c : Collaborators.

(** The variables of [run_portfolio_ws] that outlive one message, with the
    exchange and the orders handed to [broker.place_order] so far. *)
Record Portfolio := mkPortfolio {
  world : World c;
  krw_bal : Q;
  start_equity : Q;
  states : list MarketState;
  orders : list Broker.OrderRequest;
  backoff : Q
}.

Definition set_states (pf : Portfolio) (l : list MarketState) : Portfolio :=
  mkPortfolio (world pf) (krw_bal pf) (start_equity pf) l (orders pf) (backoff pf).

Definition set_backoff (pf : Portfolio) (b : Q) : Portfolio :=
  mkPortfolio (world pf) (krw_bal pf) (start_equity pf) (states pf) (orders pf) b.

(** [resp = broker.place_order(req); accts = broker.get_accounts()] inside a
    [try]: the accounts when neither call raises. *)
Definition submit (pf : Portfolio) (req : Broker.OrderRequest)
  : Portfolio * option (list (string * Q)) :=
  let '(w1, resp) := place_order c (world pf) req in
  let sent := orders pf ++ [req] in
  match resp with
  | None =>
      (mkPortfolio w1 (krw_bal pf) (start_equity pf) (states pf) sent (backoff pf),
       None)
  | Some _ =>
      let '(w2, accts) := get_accounts c w1 in
      (mkPortfolio w2 (krw_bal pf) (start_equity pf) (states pf) sent (backoff pf),
       accts)
  end.

(** [krw_bal = next(... "KRW" ..., krw_bal)]. *)
Definition refresh_krw (pf : Portfolio) (accts : list (string * Q)) : Portfolio :=
  mkPortfolio (world pf) (balance_of "KRW" accts (krw_bal pf)) (start_equity pf)
              (states pf) (orders pf) (backoff pf).

(** [# ATR trailing stop (optional)]. *)
Definition update_trail (cfg : Config) (st : MarketState) : MarketState :=
  if Py.Qltb 0 (coin_qty st) && Py.Qltb 0 (atr_trailing_mult cfg)
  then match atr_last c (df st) (atr_period cfg) with
       | Some last_atr =>
           let new_trail :=
             Py.last_or (map Close (df st)) 0 - atr_trailing_mult cfg * last_atr in
           set_trail_stop st (Some (Py.max (or_zero (trail_stop st)) new_trail))
       | None => st
       end
  else st.

(** The flag [do_exit]. *)
Definition do_exit (st : MarketState) (s_val : Z) (close_px : Q) : bool :=
  Py.Qltb 0 (coin_qty st)
  && ((match trail_stop st with
       | Some t => Qle_bool close_px t
       | None => false
       end)
      || (s_val =? -1)%Z).

(** The body of [if do_exit:]. *)
Definition exit_position (pf : Portfolio) (st : MarketState)
  : Portfolio * MarketState :=
  match submit pf (sell_order (market st) (coin_qty st)) with
  | (pf', Some accts) =>
      (refresh_krw pf' accts, traded st (balance_of (currency st) accts 0) 0)
  | (pf', None) => (pf', st)
  end.

(** [# Partial TP (optional)]. *)
Definition partial_tp (cfg : Config) (pf : Portfolio) (st : MarketState)
    (s_val : Z) (close_px : Q) : Portfolio * MarketState :=
  if Py.Qltb 0 (coin_qty st) && Py.Qltb 0 (partial_tp_pct cfg) && (0 <=? s_val)%Z
  then
    let target :=
      if Py.Qltb 0 (entry_price st)
      then Some (entry_price st * (1 + partial_tp_pct cfg)) else None in
    if Py.truthy target && Qle_bool (or_zero target) close_px
       && negb (partial_done st)
    then
      let size := coin_qty st * partial_tp_ratio cfg in
      match submit pf (sell_order (market st) size) with
      | (pf', Some accts) =>
          (refresh_krw pf' accts,
           partially_sold st (balance_of (currency st) accts (coin_qty st - size)))
      | (pf', None) => (pf', st)
      end
    else (pf, st)
  else (pf, st).

(** [# Entries]. *)
Definition entry (cfg : Config) (pf : Portfolio) (st : MarketState)
    (s_val : Z) (within : bool) (close_px : Q) : Portfolio * MarketState :=
  if (s_val =? 1)%Z && Qeq_bool (coin_qty st) 0 && within
     && (cooldown_bars cfg <=? bars st - last_trade_bar st)%Z
  then
    let budget := krw_bal pf * max_fraction cfg in
    if Py.truthy (min_total st) && Py.Qltb budget (or_zero (min_total st))
    then (pf, st)
    else
      let budget :=
        if Py.truthy (price_unit st)
        then Broker.quantize_price budget (price_unit st) else budget in
      match submit pf (buy_order (market st) budget) with
      | (pf', Some accts) =>
          (refresh_krw pf' accts,
           traded st (balance_of (currency st) accts (coin_qty st)) close_px)
      | (pf', None) => (pf', st)
      end
  else (pf, st).

(** The body of [if row is not None:], on the locals and on the object
    [st]. *)
Definition decide (cfg : Config) (pf : Portfolio) (st : MarketState)
    (row : Bar) (price : Q) : Portfolio * MarketState :=
  let st := with_bar st row in
  let within := in_windows c (timestamp row) in
  let s_val := Py.last_or (signals c (df st)) 0%Z in
  let st := set_last_signal st s_val in
  let st := update_trail cfg st in
  let close_px := Py.last_or (map Close (df st)) price in
  if do_exit st s_val close_px
  then exit_position pf st
  else
    let '(pf, st) := partial_tp cfg pf st s_val close_px in
    entry cfg pf st s_val within close_px.

(** The same, with [st] seen through [states]. *)
Definition on_bar (cfg : Config) (pf : Portfolio) (st : MarketState)
    (row : Bar) (price : Q) : Portfolio :=
  let '(pf, st) := decide cfg pf st row price in
  set_states pf (put_state st (states pf)).

(** The approximate portfolio equity of a tick. *)
Definition approx_equity (pf : Portfolio) (mkt : string) (price : Q) : Q :=
  krw_bal pf
  + fold_left Qplus
      (map (fun s => coin_qty s
                     * (if String.eqb (market s) mkt then price
                        else Py.last_or (map Close (df s)) 0))
           (states pf))
      0.

(** The guard of the max-daily-loss stop. *)
Definition daily_loss_breach (cfg : Config) (pf : Portfolio) (equity : Q) : bool :=
  Py.Qltb 0 (start_equity pf) && Py.Qltb 0 (max_daily_loss cfg)
  && Qle_bool ((equity - start_equity pf) / start_equity pf) (- max_daily_loss cfg).

(** The loop body from [mkt, ts, price, vol = parsed] on. *)
Definition on_trade (cfg : Config) (pf : Portfolio)
    (t : string * datetime * Q * Q) : Portfolio * control :=
  let '(mkt, ts, price, vol) := t in
  match get_state mkt (states pf) with
  | None => (pf, Continue)
  | Some st =>
      let '(a, row) := update (agg st) ts price vol in
      let st := set_agg st a in
      let pf := set_states pf (put_state st (states pf)) in
      let equity := approx_equity pf mkt price in
      if daily_loss_breach cfg pf equity then (pf, Return equity)
      else match row with
           | None => (pf, Continue)
           | Some r => (on_bar cfg pf st r price, Continue)
           end
  end.

(** One event of the socket. *)
Definition on_event (cfg : Config) (pf : Portfolio) (ev : ws_event)
  : Portfolio * control :=
  match ev with
  | ConnectFailed => (pf, Reconnect)
  | Connected => (set_backoff pf (1 # 2), Continue)
  | RecvTimeout ping_ok => (pf, if ping_ok then Continue else Reconnect)
  | Recv raw =>
      match json_loads c raw with
      | None => (pf, Reconnect)
      | Some data =>
          match _parse_trade c data with
          | None => (pf, Continue)
          | Some t => on_trade cfg pf t
          end
      end
  end.

(** [run_portfolio_ws] from the first connection on, over the events the
    socket delivers: the state reached, and the value returned if the
    function returned. *)
Fixpoint run_portfolio_ws (cfg : Config) (pf : Portfolio) (evs : list ws_event)
  : Portfolio * option Q :=
  match evs with
  | [] => (pf, None)
  | ev :: rest =>
      match on_event cfg pf ev with
      | (pf', Continue) => run_portfolio_ws cfg pf' rest
      | (pf', Reconnect) =>
          run_portfolio_ws cfg (set_backoff pf' (Py.min (backoff pf' * 2) 8)) rest
      | (pf', Return equity) => (pf', Some equity)
      end
  end.

(** The states [run_portfolio_ws] goes through, one per event processed. *)
Fixpoint trace (cfg : Config) (pf : Portfolio) (evs : list ws_event)
  : list Portfolio :=
  match evs with
  | [] => []
  | ev :: rest =>
      match on_event cfg pf ev with
      | (pf', Continue) => pf' :: trace cfg pf' rest
      | (pf', Reconnect) =>
          let pf'' := set_backoff pf' (Py.min (backoff pf' * 2) 8) in
          pf'' :: trace cfg pf'' rest
      | (pf', Return _) => [pf']
      end
  end.


End Coordinator.

(** *** ws_loop.py: the loop of a single market *)

Section SingleMarket.

Variable c : Collaborators.

(** The arguments of [run_live_ws] the loop reads, with the market limits
    fetched before it. *)
Record Setup := mkSetup {
  s_market : string;
  s_currency : string;
  s_max_fraction : Q;
  s_max_daily_loss : Q;
  s_cooldown_bars : Z;
  s_price_unit : option Q;
  s_min_total : option Q
}.

(** The local variables of [run_live_ws] that outlive one message. *)
Record Single := mkSingle {
  l_world : World c;
  l_agg : CandleAggregator;
  l_df : list Bar;
  l_krw_bal : Q;
  l_coin_qty : Q;
  l_start_equity : Q;
  l_bars : Z;
  l_last_trade_bar : Z;
  l_last_signal : Z;
  l_orders : list Broker.OrderRequest;
  l_backoff : Q
}.

(** [# Poll order status briefly to confirm fill]: up to [n] calls of
    [get_order], ended by a final state or by an exception. *)
Fixpoint poll_order (n : nat) (w : World c) (uuid : string) : World c :=
  match n with
  | O => w
  | S n' =>
      let '(w', st) := get_order c w uuid in
      match st with
      | None => w'
      | Some state =>
          if existsb (String.eqb state) ["done"; "cancel"; "cancelled"]%string
          then w' else poll_order n' w' uuid
      end
  end.

(** The two order branches share: place the order, poll its status, set
    [last_trade_bar], refresh the balances ([d] is what [coin_qty] becomes
    when the exchange lists no account for the currency). *)
Definition trade1 (su : Setup) (s : Single) (req : Broker.OrderRequest)
    (d : Q) : Single :=
  let '(w1, resp) := place_order c (l_world s) req in
  let sent := l_orders s ++ [req] in
  match resp with
  | None =>
      mkSingle w1 (l_agg s) (l_df s) (l_krw_bal s) (l_coin_qty s)
               (l_start_equity s) (l_bars s) (l_last_trade_bar s)
               (l_last_signal s) sent (l_backoff s)
  | Some uuid =>
      let w2 :=
        match uuid with
        | Some u => if String.eqb u "" then w1 else poll_order 10 w1 u
        | None => w1
        end in
      let '(w3, accts) := get_accounts c w2 in
      match accts with
      | None =>
          mkSingle w3 (l_agg s) (l_df s) (l_krw_bal s) (l_coin_qty s)
                   (l_start_equity s) (l_bars s) (l_bars s)
                   (l_last_signal s) sent (l_backoff s)
      | Some accts =>
          mkSingle w3 (l_agg s) (l_df s)
                   (balance_of "KRW" accts (l_krw_bal s))
                   (balance_of (s_currency su) accts d)
                   (l_start_equity s) (l_bars s) (l_bars s)
                   (l_last_signal s) sent (l_backoff s)
      end
  end.

(** The body of [if row is not None:] in ws_loop.py. *)
Definition on_bar1 (su : Setup) (s : Single) (row : Bar) : Single :=
  let d := l_df s ++ [row] in
  let d := if (600 <? Z.of_nat (List.length d))%Z then tail_rows 600 d else d in
  let sg := Py.last_or (signals c d) 0%Z in
  let s := mkSingle (l_world s) (l_agg s) d (l_krw_bal s) (l_coin_qty s)
                    (l_start_equity s) (l_bars s + 1) (l_last_trade_bar s)
                    sg (l_orders s) (l_backoff s) in
  let cooldown_ready := (s_cooldown_bars su <=? l_bars s - l_last_trade_bar s)%Z in
  if (sg =? 1)%Z && Qeq_bool (l_coin_qty s) 0 && cooldown_ready
  then
    let budget := l_krw_bal s * s_max_fraction su in
    let budget :=
      if Py.truthy (s_price_unit su)
      then let q := Broker.quantize_price budget (s_price_unit su) in
           if Py.Qltb 0 q then q else budget
      else budget in
    if Py.truthy (s_min_total su) && Py.Qltb budget (or_zero (s_min_total su))
    then s
    else trade1 su s (buy_order (s_market su) budget) (l_coin_qty s)
  else if (sg =? -1)%Z && Py.Qltb 0 (l_coin_qty s) && cooldown_ready
  then trade1 su s (sell_order (s_market su) (l_coin_qty s)) 0
  else s.

(** The loop body from [ts, price, vol = parsed] on (the throttled tick log
    is left out). *)
Definition on_trade1 (su : Setup) (s : Single) (t : datetime * Q * Q)
  : Single * control :=
  let '(ts, price, vol) := t in
  let '(a, row) := update (l_agg s) ts price vol in
  let s := mkSingle (l_world s) a (l_df s) (l_krw_bal s) (l_coin_qty s)
                    (l_start_equity s) (l_bars s) (l_last_trade_bar s)
                    (l_last_signal s) (l_orders s) (l_backoff s) in
  let equity := l_krw_bal s + l_coin_qty s * price in
  if Py.Qltb 0 (l_start_equity s) && Py.Qltb 0 (s_max_daily_loss su)
     && Qle_bool ((equity - l_start_equity s) / l_start_equity s)
                 (- s_max_daily_loss su)
  then (s, Return equity)
  else match row with
       | None => (s, Continue)
       | Some r => (on_bar1 su s r, Continue)
       end.

Definition set_backoff1 (s : Single) (b : Q) : Single :=
  mkSingle (l_world s) (l_agg s) (l_df s) (l_krw_bal s) (l_coin_qty s)
           (l_start_equity s) (l_bars s) (l_last_trade_bar s)
           (l_last_signal s) (l_orders s) b.

Definition on_event1 (su : Setup) (s : Single) (ev : ws_event)
  : Single * control :=
  match ev with
  | ConnectFailed => (s, Reconnect)
  | Connected => (set_backoff1 s (1 # 2), Continue)
  | RecvTimeout ping_ok => (s, if ping_ok then Continue else Reconnect)
  | Recv raw =>
      match json_loads c raw with
      | None => (s, Reconnect)
      | Some data =>
          match _parse_trade1 c data with
          | None => (s, Continue)
          | Some t => on_trade1 su s t
          end
      end
  end.

(** [run_live_ws] from the first connection on. *)
Fixpoint run_live_ws (su : Setup) (s : Single) (evs : list ws_event)
  : Single * option Q :=
  match evs with
  | [] => (s, None)
  | ev :: rest =>
      match on_event1 su s ev with
      | (s', Continue) => run_live_ws su s' rest
      | (s', Reconnect) =>
          run_live_ws su (set_backoff1 s' (Py.min (l_backoff s' * 2) 8)) rest
      | (s', Return equity) => (s', Some equity)
      end
  end.

End SingleMarket.

End Live.

(** ** strategy/examples/sma_cross.py *)

Module SmaCross.

(** A column of floats in which a value can be missing (NaN). *)
Definition series := list (option Q).

(** [Series.rolling(w, min_periods=w).mean()]: the mean of the last [w]
    values, missing until [w] values are there (and everywhere for a
    window of 0). *)
Definition rolling_mean (w : nat) (l : list Q) : series :=
  map (fun i =>
         if ((0 <? w) && (w <=? S i))%nat
         then Some (Engine.mean (firstn w (skipn (S i - w) l)))
         else None)
      (seq 0 (List.length l)).

(** [Series.shift(1)]. *)
Definition shift1 (s : series) : series :=
  firstn (List.length s) (None :: s).

(** Elementwise operations on two columns of equal length. *)
Fixpoint map2 {A B C : Type} (f : A -> B -> C) (l : list A) (l' : list B)
  : list C :=
  match l, l' with
  | a :: r, b :: r' => f a b :: map2 f r r'
  | _, _ => []
  end.

(** Comparisons of floats: [False] as soon as a side is missing. *)
Definition gt (a b : option Q) : bool :=
  match a, b with
  | Some x, Some y => Py.Qltb y x
  | _, _ => false
  end.

Definition le (a b : option Q) : bool :=
  match a, b with
  | Some x, Some y => Qle_bool x y
  | _, _ => false
  end.

Definition lt (a b : option Q) : bool := gt b a.

Definition ge (a b : option Q) : bool := le b a.

(** [SmaCrossStrategy.signals] on the [Close] column: [None] when a window
    is negative, as [rolling] then raises. *)
Definition signals (fast slow : Z) (close : list Q) : option (list Z) :=
  if (fast <? 0)%Z || (slow <? 0)%Z then None
  else
    let ma_f := rolling_mean (Z.to_nat fast) close in
    let ma_s := rolling_mean (Z.to_nat slow) close in
    let prev_f := shift1 ma_f in
    let prev_s := shift1 ma_s in
    let buy := map2 andb (map2 gt ma_f ma_s) (map2 le prev_f prev_s) in
    let sell := map2 andb (map2 lt ma_f ma_s) (map2 ge prev_f prev_s) in
    Some (map2 (fun b s : bool => if s then (-1)%Z else if b then 1%Z else 0%Z)
               buy sell).

(** [SmaCrossStrategy.required_bars]. *)
Definition required_bars (fast slow : Z) : Z := (Z.max fast slow + 1)%Z.

End SmaCross.

(** ** strategy/indicators.py: the average true range *)

Module Indicators.

Import Aggregator.

(** The row-wise maximum of [|h - l|], [|h - prev_close|] and
    [|l - prev_close|], the last two missing on the first row. *)
Definition true_range (prev_close : option Q) (b : Bar) : Q :=
  let hl := Qabs (High b - Low b) in
  match prev_close with
  | None => hl
  | Some pc => Qmax (Qmax hl (Qabs (High b - pc))) (Qabs (Low b - pc))
  end.

Fixpoint true_ranges (prev_close : option Q) (bars : list Bar) : list Q :=
  match bars with
  | [] => []
  | b :: rest => true_range prev_close b :: true_ranges (Some (Close b)) rest
  end.

(** [Series.ewm(alpha=alpha, adjust=False).mean()] on a column without
    missing values: [y0 = x0], [y_t = (1 - alpha) * y_(t-1) + alpha * x_t]. *)
Fixpoint ewm_from (alpha y : Q) (xs : list Q) : list Q :=
  match xs with
  | [] => []
  | x :: rest =>
      let y' := (1 - alpha) * y + alpha * x in
      y' :: ewm_from alpha y' rest
  end.

Definition ewm (alpha : Q) (xs : list Q) : list Q :=
  match xs with
  | [] => []
  | x :: rest => x :: ewm_from alpha x rest
  end.

(** [min_periods]: the first [min_periods - 1] values are missing. *)
Definition mask (min_periods : nat) (ys : list Q) : list (option Q) :=
  map (fun iy => if (min_periods <=? S (fst iy))%nat then Some (snd iy) else None)
      (combine (seq 0 (List.length ys)) ys).

(** [atr(high, low, close, period)]: [None] when it raises, which it does
    for a period below 1 ([1 / float(period)] or the check of [alpha]). *)
Definition atr (bars : list Bar) (period : Z) : option (list (option Q)) :=
  if (period <? 1)%Z then None
  else Some (mask (Z.to_nat period)
                  (ewm (1 / inject_Z period) (true_ranges None bars))).

(** [float(atr.iat[-1]) if not pd.isna(atr.iat[-1]) else None] inside the
    [try] of the coordinator: the last value when there is one. *)
Definition atr_last (bars : list Bar) (period : Z) : option Q :=
  match atr bars period with
  | Some l => List.last l None
  | None => None
  end.

End Indicators.

(** ** data/upbit.py *)

Module Data.

Import Aggregator.

(** A candle of the REST payload. *)
Record Candle := mkCandle {
  opening_price : Q;
  high_price : Q;
  low_price : Q;
  trade_price : Q;
  candle_acc_trade_volume : Q;
  c_timestamp : Z
}.

(** The milliseconds [pd.to_datetime(_, unit="ms", utc=True)] accepts: the
    range of a 64-bit count of nanoseconds. *)
Definition MAX_PANDAS_MS : Z := 9223372036854%Z.

Definition to_datetime_ms (ms : Z) : option datetime :=
  if (- MAX_PANDAS_MS <=? ms)%Z && (ms <=? MAX_PANDAS_MS)%Z
  then Some (ms * 1000)%Z else None.

Fixpoint rows_of (payload : list Candle) : option (list Bar) :=
  match payload with
  | [] => Some []
  | k :: rest =>
      match to_datetime_ms (c_timestamp k), rows_of rest with
      | Some ts, Some rows =>
          Some (mkBar ts (opening_price k) (high_price k) (low_price k)
                      (trade_price k) (candle_acc_trade_volume k) :: rows)
      | _, _ => None
      end
  end.

(** [candles_to_df]: the payload reversed, one row a candle; [None] when it
    raises, which it does for an empty payload (the frame then has no
    column [opening_price]) and for a timestamp out of range. *)
Definition candles_to_df (payload : list Candle) : option (list Bar) :=
  match payload with
  | [] => None
  | _ => rows_of (rev payload)
  end.

(** What one call of [fetch_candles_minutes_async] meets. *)
Inductive reply :=
| Batch (rows : list Candle)
| StatusError (status : Z) (retry_after : option Q)
| TransportError.

(** How [fetch_range_minutes] ends: it returns a frame, it raises, or it
    is still in its loop when the replies considered run out. *)
Inductive ending :=
| Returned (df : list Bar)
| Raised
| Looping.

(** The local variables of [fetch_range_minutes], with the requests made
    (count and [to]) and the sleeps taken so far. *)
Record Fetch := mkFetch {
  remaining : Z;
  to : option datetime;
  acc : list Candle;
  backoff : Q;
  asked : list (Z * option datetime);
  slept : list Q
}.

Section FetchRange.

(** The server: the reply to the request numbered [k], given its count and
    its [to]. *)
Variable server : nat -> Z -> option datetime -> reply.

(** [datetime.fromtimestamp(ms / 1000, tz=utc) - timedelta(milliseconds=1)]. *)
Definition before (ms : Z) : option datetime :=
  match Live.fromtimestamp_ms ms with
  | Some ts =>
      if (Live.MIN_MS * 1000 <=? ts - 1000)%Z then Some (ts - 1000)%Z else None
  | None => None
  end.

(** The [while remaining > 0] loop, over at most [fuel] requests. *)
Fixpoint fetch_loop (fuel k : nat) (s : Fetch) : ending * Fetch :=
  if (remaining s <=? 0)%Z
  then (match candles_to_df (acc s) with
        | Some df => Returned df
        | None => Raised
        end, s)
  else
    match fuel with
    | O => (Looping, s)
    | S fuel' =>
        let take := Z.min 200 (remaining s) in
        let asked' := asked s ++ [(take, to s)] in
        match server k take (to s) with
        | StatusError status ra =>
            if Broker.retry_status status
            then
              let retry_after := match ra with Some v => v | None => 0 end in
              fetch_loop fuel' (S k)
                (mkFetch (remaining s) (to s) (acc s)
                         (Py.min (backoff s * 2) 8) asked'
                         (slept s ++ [Py.max (backoff s) retry_after]))
            else
              (Raised,
               mkFetch (remaining s) (to s) (acc s) (backoff s) asked' (slept s))
        | TransportError =>
            fetch_loop fuel' (S k)
              (mkFetch (remaining s) (to s) (acc s)
                       (Py.min (backoff s * 2) 8) asked'
                       (slept s ++ [backoff s]))
        | Batch [] =>
            (match candles_to_df (acc s) with
             | Some df => Returned df
             | None => Raised
             end,
             mkFetch (remaining s) (to s) (acc s) (backoff s) asked' (slept s))
        | Batch batch =>
            match before (c_timestamp (List.last batch (mkCandle 0 0 0 0 0 0))) with
            | None =>
                (Raised,
                 mkFetch (remaining s) (to s) (acc s ++ batch) (backoff s)
                         asked' (slept s))
            | Some t =>
                fetch_loop fuel' (S k)
                  (mkFetch (remaining s - Z.of_nat (List.length batch)) (Some t)
                           (acc s ++ batch) (1 # 2) asked'
                           (slept s ++ [5 # 100]))
            end
        end
    end.

(** [fetch_range_minutes(market, unit, max_candles)]. *)
Definition fetch_range_minutes (fuel : nat) (max_candles : Z) : ending * Fetch :=
  fetch_loop fuel 0 (mkFetch max_candles None [] (1 # 2) [] []).

End FetchRange.

End Data.

(** ** Scenarios and auxiliary notions

    The inputs the properties below are run on, and the notions their
    statements use. *)

Import Aggregator.

(** The three ticks of the bar-correctness scenario. *)
Definition scenario_ticks : list (datetime * Q * Q) :=
  [ (at_hms 0 0 10, 100, 1); (at_hms 0 0 40, 105, 2); (at_hms 0 0 55, 95, 3) ].

(** A bucket opened at 0:00 with one trade at 100. *)
Definition bucket0 : CandleBucket := seed (at_hms 0 0 0) 100 1.

(** A bucket opened at 0:05. *)
Definition bucket5 : CandleBucket := seed (at_hms 0 5 0) 100 1.

Import Engine.

(** The risk-limit scenario of the integration test. *)
Definition scenario_params : Params := mkParams 1000 0 0 1 0%Z (Some (3 # 10)).
Definition scenario_closes : list Q := [100; 100; 100; 50].
Definition scenario_signals : list (option Z) :=
  [Some 0%Z; Some 1%Z; Some 0%Z; Some (-1)%Z].

(** The loop state without what was logged. *)
Definition unlogged (s : Loop) : Loop :=
  mkLoop (equity_curve s) (position s) (Engine.entry_price s) (trades s) (wins s)
         (cash_bal s) (Engine.last_trade_bar s) (stopped_reason s) [].

(** A call without a logger. *)
Definition quiet : LogCtx := mkLogCtx false None None.

Import Broker.

(** The waits the policy prescribes after the attempts [k], ..., [k+n-1],
    starting from the backoff [b]. *)
Definition waits_from {R : Type} (env : nat -> attempt R) (jitter : nat -> Q)
    (k : nat) (b : Q) (n : nat) : list Q :=
  map (fun j => wait_of (Nat.iter j (fun b => Qmin (b * 2) 8) b)
                        (env (k + j)%nat) (jitter (k + j)%nat))
      (seq 0 n).

(** A server that answers 503 with [Retry-After: 3] every time. *)
Definition always_503 : nat -> attempt unit :=
  fun _ => HTTPStatusError 503 (Some 3).

(** A server that answers 503 once and then 401. *)
Definition then_401 : nat -> attempt unit :=
  fun k => match k with
           | O => HTTPStatusError 503 None
           | _ => HTTPStatusError 401 None
           end.

Import Live.

(** The decision state of the coordinator: everything but the reconnect
    backoff. *)
Definition decision_state (c : Collaborators) (pf : Portfolio c) :=
  (world c pf, krw_bal c pf, start_equity c pf, states c pf, orders c pf).

(** The decision state of the single-market loop. *)
Definition decision_state1 (c : Collaborators) (s : Single c) :=
  (l_world c s, l_agg c s, l_df c s, l_krw_bal c s, l_coin_qty c s,
   l_start_equity c s, l_bars c s, l_last_trade_bar c s, l_last_signal c s,
   l_orders c s).

Definition tick_json (code : string) (price ts_ms : Z) : json :=
  JObj [("code", JStr code); ("trade_price", JInt price);
        ("trade_volume", JInt 1); ("timestamp", JInt ts_ms)]%string.

(** Four frames: trades of KRW-BTC at 50 at 0:01:00 and 0:02:00 and at 120
    at 0:03:00, and the status object the server sends, which is JSON and
    no trade; any other frame is not JSON. *)
Definition demo_loads (raw : string) : option json :=
  if String.eqb raw "0:01 BTC 50" then Some (tick_json "KRW-BTC" 50 60000)
  else if String.eqb raw "0:02 BTC 50" then Some (tick_json "KRW-BTC" 50 120000)
  else if String.eqb raw "0:03 BTC 120" then Some (tick_json "KRW-BTC" 120 180000)
  else if String.eqb raw "status UP" then Some (JObj [("status", JStr "UP")]%string)
  else None.

(** An exchange that accepts every order and always reports 50 KRW and no
    coin; a strategy whose signal is [sig] on every bar; an ATR of [atr]. *)
Definition demo (sig : Z) (atr : option Q) : Collaborators :=
  mkCollaborators unit
    (fun w _ => (w, Some (Some "uuid-1"%string)))
    (fun w => (w, Some [("KRW"%string, 50); ("BTC"%string, 0)]))
    (fun w _ => (w, Some "done"%string))
    (fun _ => [sig])
    (fun _ _ => atr)
    (fun _ => true)
    demo_loads
    (fun _ => None)
    (fun _ => None)
    (fun _ => ""%string).

(** One BTC held, bought at 100, trailing stop at 90; the open bucket is the
    minute 0:00, with one trade at [last]. *)
Definition btc_long (last : Q) : MarketState :=
  mkMarket "KRW-BTC" "BTC" (Some (seed 0%Z last 1)) [] 0%Z (- 10 ^ 9)%Z 0%Z
           1 100 (Some 90) false None None.

Definition demo_portfolio (sig : Z) (atr : option Q) (last : Q)
  : Portfolio (demo sig atr) :=
  mkPortfolio (demo sig atr) tt 0 1000 [btc_long last] [] (1 # 2).

(** A configuration with the given daily-loss limit and ATR multiplier: the
    whole cash per trade, no cooldown, no partial take-profit. *)
Definition demo_config (max_daily_loss atr_mult : Q) : Config :=
  mkConfig 1 max_daily_loss 0 atr_mult 14 0 (1 # 2).

(** The single-market loop on KRW-BTC: 50 KRW and one BTC held, ten bars
    seen, the last trade made at bar 9, the minute 0:00 open with one trade
    at 50. *)
Definition demo_single (sig : Z) (atr : option Q) : Single (demo sig atr) :=
  mkSingle (demo sig atr) tt (Some (seed 0%Z 50 1)) [] 50 1 50 10%Z 9%Z 0%Z []
           (1 # 2).

(** Its setup: the whole cash per trade, no daily-loss stop, no market
    limits, and the given cooldown. *)
Definition demo_setup (cooldown : Z) : Setup :=
  mkSetup "KRW-BTC" "BTC" 1 0 cooldown None None.

(** An exchange whose account query fails once, right after the first order
    (a network failure), and works afterwards.  Its state is the orders it
    accepted and the number of account queries it got; it accepts every
    order, fills each buy with one BTC for 50 KRW out of 100, and reports
    the balances that result.  The strategy signals a buy on every bar. *)
Definition flaky : Collaborators :=
  mkCollaborators (list Broker.OrderRequest * nat)
    (fun w req => ((fst w ++ [req], snd w), Some (Some "uuid-1"%string)))
    (fun w =>
       ((fst w, S (snd w)),
        match snd w with
        | O => None
        | S _ =>
            let n := inject_Z (Z.of_nat (List.length (fst w))) in
            Some [("KRW"%string, 100 - 50 * n); ("BTC"%string, n)]
        end))
    (fun w _ => (w, Some "done"%string))
    (fun _ => [1%Z])
    (fun _ _ => None)
    (fun _ => true)
    demo_loads
    (fun _ => None)
    (fun _ => None)
    (fun _ => ""%string).

(** KRW-BTC with nothing held and no bar seen. *)
Definition btc_flat : MarketState :=
  mkMarket "KRW-BTC" "BTC" None [] 0%Z (- 10 ^ 9)%Z 0%Z 0 0 None false
           None None.

(** Both loops at their start on that exchange: 100 KRW, no coin, half of
    the cash per trade, a daily-loss limit of 5% and a cooldown of five
    bars. *)
Definition flaky_portfolio : Portfolio flaky :=
  mkPortfolio flaky ([], O) 100 100 [btc_flat] [] (1 # 2).

Definition flaky_config : Config :=
  mkConfig (1 # 2) (5 # 100) 5 0 14 0 (1 # 2).

Definition flaky_single : Single flaky :=
  mkSingle flaky ([], O) None [] 100 0 100 0%Z (- 10 ^ 9)%Z 0%Z [] (1 # 2).

Definition flaky_setup : Setup :=
  mkSetup "KRW-BTC" "BTC" (1 # 2) (5 # 100) 5 None None.

(** Three trades of KRW-BTC, one a minute: the second and the third close a
    bar each. *)
Definition three_ticks : list ws_event :=
  [Recv "0:01 BTC 50"; Recv "0:02 BTC 50"; Recv "0:03 BTC 120"]%string.

(** How a step may move the trailing stop of a market: it keeps it, or it
    clears it while placing an order. *)
Definition stop_kept_or_cleared {c : Collaborators} (pf pf' : Portfolio c)
    (st st' : MarketState) : Prop :=
  states c pf' = states c pf
  /\ market st' = market st
  /\ exists new, orders c pf' = orders c pf ++ new
                 /\ (trail_stop st' = trail_stop st
                     \/ (trail_stop st' = None /\ new <> [])).

(** How one message may move the trailing stop of a market: a stop that
    was set is raised or kept, or it is cleared while an order is placed. *)
Definition stop_raised_or_cleared {c : Collaborators} (pf pf' : Portfolio c)
    (st st' : MarketState) : Prop :=
  market st' = market st
  /\ exists new,
      orders c pf' = orders c pf ++ new
      /\ forall s, trail_stop st = Some s ->
                   (exists s', trail_stop st' = Some s' /\ s <= s')
                   \/ (trail_stop st' = None /\ new <> []).

(** The portfolio after the aggregator of [st0] took a tick. *)
Definition touched {c : Collaborators} (pf : Portfolio c) (st0 : MarketState)
    (a : CandleAggregator) : Portfolio c :=
  set_states c pf (put_state (set_agg st0 a) (states c pf)).


(** The exchange reports no negative balance. *)
Definition honest_exchange (c : Collaborators) : Prop :=
  forall w w' accts,
    get_accounts c w = (w', Some accts) ->
    Forall (fun a => 0 <= snd a) accts.

(** No market holds a negative quantity. *)
Definition no_short (c : Collaborators) (pf : Portfolio c) : Prop :=
  Forall (fun st => 0 <= coin_qty st) (states c pf).

(** An order that reduces the position. *)
Definition is_sell (o : Broker.OrderRequest) : Prop :=
  Broker.side o = "sell"%string.

(** What no order changes: of the coordinator, the equity the daily loss
    is measured against, the table of markets and the reconnect backoff; of
    a market, everything but its position, entry price, trailing stop,
    take-profit flag and last trade bar. *)
Definition pf_frame {c : Collaborators} (pf : Portfolio c) :=
  (start_equity c pf, states c pf, backoff c pf).

Definition st_frame (st : MarketState) :=
  (market st, currency st, agg st, df st, bars st, last_signal st,
   price_unit st, min_total st).


(** A candle server that answers every request with candles, and one that
    fails every request in a way that is retried. *)
Definition answering (server : nat -> Z -> option datetime -> Data.reply) : Prop :=
  forall k cnt t, exists rows, server k cnt t = Data.Batch rows.

Definition failing (server : nat -> Z -> option datetime -> Data.reply) : Prop :=
  forall k cnt t,
    server k cnt t = Data.TransportError
    \/ exists status ra,
        server k cnt t = Data.StatusError status ra
        /\ Broker.retry_status status = true.

(** The single-market loop after [agg.update]. *)
Definition touched1 {c : Collaborators} (s : Single c) (a : CandleAggregator)
  : Single c :=
  mkSingle c (l_world c s) a (l_df c s) (l_krw_bal c s) (l_coin_qty c s)
           (l_start_equity c s) (l_bars c s) (l_last_trade_bar c s)
           (l_last_signal c s) (l_orders c s) (l_backoff c s).

(** The guard of the max-daily-loss stop of the single-market loop. *)
Definition daily_loss_breach1 {c : Collaborators} (su : Setup) (s : Single c)
    (price : Q) : bool :=
  Py.Qltb 0 (l_start_equity c s) && Py.Qltb 0 (s_max_daily_loss su)
  && Qle_bool ((l_krw_bal c s + l_coin_qty c s * price - l_start_equity c s)
               / l_start_equity c s)
              (- s_max_daily_loss su).

(** An order as the live loops build them: a market sell of a quantity, or
    a market buy for an amount of KRW. *)
Definition loop_order (o : Broker.OrderRequest) : Prop :=
  exists m q, o = sell_order m q \/ o = buy_order m q.

(** ** engine/backtest.py, engine/paper.py *)

Section Modes.

Variable sqrt : Q -> Q.

(** [strategy.signals(df)]: one signal per row, possibly missing. *)
Variable strategy_signals : list Bar -> list (option Z).

(** [run_backtest]: the metrics and the equity curve. *)
Definition run_backtest (df : list Bar) (cash fee slippage : Q)
  : option SimResult :=
  option_map fst
    (simulate_long_only sqrt (map Close df) (strategy_signals df)
       (mkParams cash fee slippage 1 0%Z None)
       (mkLogCtx false None None)).

(** [run_paper]: the metrics, and what was logged. *)
Definition run_paper (df : list Bar) (cash fee slippage : Q)
    (max_fraction max_daily_loss : Q) (cooldown_bars : Z)
    (run_id market : option string)
  : option (Metrics * list log_event) :=
  option_map (fun r => (metrics (fst r), snd r))
    (simulate_long_only sqrt (map Close df) (strategy_signals df)
       (mkParams cash fee slippage max_fraction cooldown_bars
                 (Some max_daily_loss))
       (mkLogCtx true run_id market)).

End Modes.

(** *** Notions for the execution/accounting model *)

(** The account of the loop: everything but the equity curve, the stop
    reason and the log. *)
Definition account (s : Loop) :=
  (Engine.position s, Engine.entry_price s, trades s, wins s, cash_bal s,
   Engine.last_trade_bar s).

(** The equity of a loop state at a price. *)
Definition equity_at (price : Q) (s : Loop) : Q :=
  cash_bal s + Engine.position s * price.

(** The number of [position.opened] and of [position.closed] records of a log. *)
Definition is_opened (e : log_event) : bool :=
  match e with position_opened _ _ _ _ _ => true | _ => false end.

Definition is_closed (e : log_event) : bool :=
  match e with position_closed _ _ _ _ _ => true | _ => false end.

Definition opened (evs : list log_event) : nat :=
  List.length (filter is_opened evs).

Definition closed (evs : list log_event) : nat :=
  List.length (filter is_closed evs).

(** *** Notions for the bar aggregator *)

(** A bucket whose prices are consistent and whose start is a whole minute. *)
Definition bucket_ok (b : CandleBucket) : Prop :=
  low b <= open b /\ open b <= high b
  /\ low b <= close b /\ close b <= high b
  /\ floor_minute (start b) = start b.

(** A returned row with consistent prices, stamped with a whole minute. *)
Definition bar_ok (r : Bar) : Prop :=
  Low r <= Open r /\ Open r <= High r
  /\ Low r <= Close r /\ Close r <= High r
  /\ floor_minute (timestamp r) = timestamp r.

Definition sumQ (l : list Q) : Q := fold_right Qplus 0 l.

(** The volume held in the open bucket. *)
Definition open_volume (a : CandleAggregator) : Q :=
  match a with
  | Some b => volume b
  | None => 0
  end.

(** The start of the open bucket, as a list. *)
Definition open_start (a : CandleAggregator) : list datetime :=
  match a with
  | Some b => [start b]
  | None => []
  end.

(** All rows of a session: the ones [update] returned, then the one
    [finalize] returns at the end. *)
Definition session (ticks : list (datetime * Q * Q)) : list Bar :=
  let '(a, rows) := feed Aggregator.init ticks in
  match snd (finalize a) with
  | Some r => rows ++ [r]
  | None => rows
  end.

(** * Properties *)

Lemma Qltb_lt (a b : Q) : Py.Qltb a b = true <-> a < b.
Proof.
  unfold Py.Qltb. rewrite negb_true_iff.
  split; intro H.
  - apply Qnot_le_lt. intro L. apply Qle_bool_iff in L. congruence.
  - destruct (Qle_bool b a) eqn:E; trivial.
    apply Qle_bool_iff in E. exfalso. apply (Qlt_not_le _ _ H E).
Qed.

Lemma Qltb_ge (a b : Q) : Py.Qltb a b = false <-> b <= a.
Proof.
  unfold Py.Qltb. rewrite negb_false_iff. apply Qle_bool_iff.
Qed.

Lemma py_max_ge_l (a b : Q) : a <= Py.max a b.
Proof.
  unfold Py.max. destruct (Py.Qltb a b) eqn:E.
  - apply Qltb_lt in E. apply Qlt_le_weak, E.
  - apply Qle_refl.
Qed.

Lemma py_max_ge_r (a b : Q) : b <= Py.max a b.
Proof.
  unfold Py.max. destruct (Py.Qltb a b) eqn:E.
  - apply Qle_refl.
  - apply Qltb_ge in E. exact E.
Qed.

Lemma py_max_Qmax (a b : Q) : Py.max a b == Qmax a b.
Proof.
  unfold Py.max. destruct (Py.Qltb a b) eqn:E.
  - apply Qltb_lt in E. symmetry. apply Q.max_r. apply Qlt_le_weak, E.
  - apply Qltb_ge in E. symmetry. apply Q.max_l. exact E.
Qed.

Lemma py_min_Qmin (a b : Q) : Py.min a b == Qmin a b.
Proof.
  unfold Py.min. destruct (Py.Qltb b a) eqn:E.
  - apply Qltb_lt in E. symmetry. apply Q.min_r. apply Qlt_le_weak, E.
  - apply Qltb_ge in E. symmetry. apply Q.min_l. exact E.
Qed.


Lemma update_not_later (b : CandleBucket) (ts : datetime) (price vol : Q) :
  (floor_minute ts <= start b)%Z ->
  update (Some b) ts price vol = (Some (merged b price vol), None).
Proof.
  intro H. unfold update.
  destruct (start b <? floor_minute ts)%Z eqn:E.
  - apply Z.ltb_lt in E. lia.
  - reflexivity.
Qed.

Lemma update_later (b : CandleBucket) (ts : datetime) (price vol : Q) :
  (start b < floor_minute ts)%Z ->
  update (Some b) ts price vol
  = (Some (seed (floor_minute ts) price vol), Some (row_of b)).
Proof.
  intro H. unfold update.
  apply Z.ltb_lt in H. rewrite H. reflexivity.
Qed.

Lemma merged_fields (b : CandleBucket) (price vol : Q) :
  start (merged b price vol) = start b
  /\ open (merged b price vol) = open b
  /\ high (merged b price vol) == Qmax (high b) price
  /\ low (merged b price vol) == Qmin (low b) price
  /\ close (merged b price vol) = price
  /\ volume (merged b price vol) = volume b + vol.
Proof.
  unfold merged; simpl.
  repeat split; auto using py_max_Qmax, py_min_Qmin.
Qed.

(** C4. A tick in the open bucket's minute extends the bucket (high = max,
    low = min, close = the tick's price, volume summed) and returns no row; a
    tick in any strictly later minute returns exactly the open bucket's row
    and seeds a new bucket from the tick, whatever the gap; the three ticks
    of the scenario followed by a tick at 0:01:05 give the single bar
    100/105/95/95 with volume 6. *)
Theorem update_extends_then_finalizes :
  (forall b ts price vol,
      floor_minute ts = start b ->
      update (Some b) ts price vol = (Some (merged b price vol), None)
      /\ start (merged b price vol) = start b
      /\ open (merged b price vol) = open b
      /\ high (merged b price vol) == Qmax (high b) price
      /\ low (merged b price vol) == Qmin (low b) price
      /\ close (merged b price vol) = price
      /\ volume (merged b price vol) = volume b + vol)
  /\ (forall b ts price vol,
      (start b < floor_minute ts)%Z ->
      update (Some b) ts price vol
      = (Some (seed (floor_minute ts) price vol), Some (row_of b))
      /\ snd (feed (Some b) [(ts, price, vol)]) = [row_of b])
  /\ (forall price vol,
      feed Aggregator.init (scenario_ticks ++ [(at_hms 0 1 5, price, vol)])
      = (Some (seed (at_hms 0 1 0) price vol),
         [mkBar (at_hms 0 0 0) 100 105 95 95 6])).
Proof.
  split; [|split].
  - intros b ts price vol H. split.
    + apply update_not_later. lia.
    + apply merged_fields.
  - intros b ts price vol H.
    pose proof (update_later b ts price vol H) as U.
    split; [exact U|]. cbn [feed]. rewrite U. reflexivity.
  - intros price vol. reflexivity.
Qed.

Lemma update_extends_then_finalizes_witness :
  update (Some bucket0) (at_hms 0 0 40) 105 2
  = (Some (merged bucket0 105 2), None)
  /\ update (Some bucket0) (at_hms 0 3 0) 90 1
     = (Some (seed (floor_minute (at_hms 0 3 0)) 90 1), Some (row_of bucket0)).
Proof.
  split.
  - exact (proj1 (proj1 update_extends_then_finalizes
                    bucket0 (at_hms 0 0 40) 105 2 eq_refl)).
  - exact (proj1 (proj1 (proj2 update_extends_then_finalizes)
                    bucket0 (at_hms 0 3 0) 90 1 eq_refl)).
Defined.

(** C10. A tick whose floored minute is strictly earlier than the open
    bucket's start is merged like a same-minute tick: the bucket keeps its
    start and open, takes the tick into high, low, close and volume, and no
    row is returned. *)
Theorem update_out_of_order_merges :
  forall b ts price vol,
    (floor_minute ts < start b)%Z ->
    update (Some b) ts price vol = (Some (merged b price vol), None)
    /\ (forall ts', floor_minute ts' = start b ->
        update (Some b) ts price vol = update (Some b) ts' price vol)
    /\ start (merged b price vol) = start b
    /\ open (merged b price vol) = open b
    /\ high (merged b price vol) == Qmax (high b) price
    /\ low (merged b price vol) == Qmin (low b) price
    /\ close (merged b price vol) = price
    /\ volume (merged b price vol) = volume b + vol.
Proof.
  intros b ts price vol H.
  assert (U : update (Some b) ts price vol = (Some (merged b price vol), None))
    by (apply update_not_later; lia).
  split; [exact U|]. split.
  - intros ts' E. rewrite U. symmetry. apply update_not_later. lia.
  - apply merged_fields.
Qed.

Lemma update_out_of_order_merges_witness :
  update (Some bucket5) (at_hms 0 2 30) 90 4 = (Some (merged bucket5 90 4), None).
Proof.
  exact (proj1 (update_out_of_order_merges bucket5 (at_hms 0 2 30) 90 4 eq_refl)).
Defined.
(** ** The execution/accounting model *)


Lemma last_or_snoc (l : list Q) (x d : Q) : Py.last_or (l ++ [x]) d = x.
Proof. unfold Py.last_or. apply last_last. Qed.

(** The drawdown guard on the curve just extended, in the terms of the
    specification. *)
Lemma breach_mark_iff (p : Params) (price : Q) (s : Loop) :
  breach p (mark price s) = true
  <-> exists sd, stop_drawdown p = Some sd
                 /\ 0 < cash p
                 /\ drawdown p (cash_bal s + position s * price) <= - sd.
Proof.
  unfold breach, mark; cbn [equity_curve].
  rewrite last_or_snoc.
  destruct (stop_drawdown p) as [sd|].
  - rewrite !andb_true_iff, Qltb_lt, Qle_bool_iff, Z.ltb_lt.
    rewrite length_app; cbn [List.length].
    split.
    + intros (_ & C & D). exists sd. auto.
    + intros (sd' & E & C & D). injection E as <-. repeat split; auto. lia.
  - split; [discriminate|]. intros (sd & E & _). discriminate.
Qed.

Lemma bar_step_break (p : Params) (lc : LogCtx) (i : Z) (price : Q) (sig : Z)
    (s s' : Loop) :
  bar_step p lc i price sig s = (s', true) ->
  breach p (mark price s) = true /\ s' = stop p lc i (mark price s).
Proof.
  unfold bar_step.
  destruct (breach p (mark price s)).
  - intros [= <-]. auto.
  - repeat match goal with |- context [if ?c then _ else _] => destruct c end;
      intros [= _ ?]; discriminate.
Qed.

Lemma emit_stopped (lc : LogCtx) (evs : list log_event) (s : Loop) :
  stopped_reason (emit lc evs s) = stopped_reason s.
Proof. unfold emit. destruct (log lc); reflexivity. Qed.

Lemma emit_position (lc : LogCtx) (evs : list log_event) (s : Loop) :
  position (emit lc evs s) = position s.
Proof. unfold emit. destruct (log lc); reflexivity. Qed.

Lemma stop_stopped (p : Params) (lc : LogCtx) (i : Z) (s : Loop) :
  stopped_reason (stop p lc i s) = Some "risk_violation"%string.
Proof. reflexivity. Qed.

(** While the loop has not stopped, it can be run in two pieces. *)
Lemma loop_app (p : Params) (lc : LogCtx) (pre rest : list (Q * Z)) :
  forall i s,
    stopped_reason (loop p lc i pre s) = None ->
    loop p lc i (pre ++ rest) s
    = loop p lc (i + Z.of_nat (List.length pre)) rest (loop p lc i pre s).
Proof.
  induction pre as [|[price sig] pre IH]; intros i s H.
  - cbn. rewrite Z.add_0_r. reflexivity.
  - cbn [loop app] in *.
    destruct (bar_step p lc i price sig s) as [s' brk] eqn:E.
    destruct brk.
    + apply bar_step_break in E. destruct E as [_ ->].
      rewrite stop_stopped in H. discriminate.
    + rewrite IH by exact H. f_equal. cbn [List.length]. lia.
Qed.

Lemma loop_breach (p : Params) (lc : LogCtx) (i : Z) (price : Q) (sig : Z)
    (post : list (Q * Z)) (s : Loop) :
  breach p (mark price s) = true ->
  loop p lc i ((price, sig) :: post) s = stop p lc i (mark price s).
Proof.
  intro B. cbn [loop]. unfold bar_step. rewrite B. reflexivity.
Qed.

(** C1. In the scenario the reported StoppedReason is risk_violation, and the
    loop stops on the fourth bar with the position still open (the sell
    signal of that bar is not acted on inside the loop).  In general, when
    the equity marked at a bar has fallen by at least the stop fraction
    relative to the starting cash, the loop ends at that bar: its state is
    the state before the bar with the marked equity appended and the reason
    set, whatever bars follow. *)
Theorem drawdown_stop_halts_at_breach :
  (forall sqrt lc,
      option_map (fun r => StoppedReason (metrics (fst r)))
                 (simulate_long_only sqrt scenario_closes scenario_signals
                                     scenario_params lc)
      = Some "risk_violation"%string
      /\ let s := loop scenario_params lc 0
                       (combine scenario_closes [0; 1; 0; -1]%Z)
                       (init scenario_params) in
         stopped_reason s = Some "risk_violation"%string
         /\ List.length (equity_curve s) = 4%nat
         /\ position s == 10
         /\ trades s = [])
  /\ (forall p lc pre price sig post sd,
      stop_drawdown p = Some sd ->
      0 < cash p ->
      let s := loop p lc 0 pre (init p) in
      stopped_reason s = None ->
      drawdown p (cash_bal s + position s * price) <= - sd ->
      let s' := loop p lc 0 (pre ++ (price, sig) :: post) (init p) in
      s' = stop p lc (Z.of_nat (List.length pre)) (mark price s)
      /\ s' = loop p lc 0 (pre ++ [(price, sig)]) (init p)
      /\ stopped_reason s' = Some "risk_violation"%string
      /\ equity_curve s' = equity_curve s ++ [cash_bal s + position s * price]
      /\ position s' = position s
      /\ cash_bal s' = cash_bal s
      /\ trades s' = trades s).
Proof.
  split.
  - intros sqrt lc. destruct lc as [[|] rid mk]; vm_compute; repeat split.
  - intros p lc pre price sig post sd Hsd Hc s Hs Hd s'.
    assert (B : breach p (mark price s) = true).
    { apply breach_mark_iff. exists sd. auto. }
    assert (E : forall rest,
               loop p lc 0 (pre ++ (price, sig) :: rest) (init p)
               = stop p lc (Z.of_nat (List.length pre)) (mark price s)).
    { intro rest. rewrite loop_app by exact Hs.
      rewrite Z.add_0_l. apply loop_breach, B. }
    subst s'. rewrite (E post), (E []).
    repeat split; unfold stop; cbn; rewrite ?emit_position;
      unfold emit; destruct (log lc); reflexivity.
Qed.

Lemma drawdown_stop_halts_at_breach_witness :
  let p := scenario_params in
  let lc := mkLogCtx false None None in
  let s := loop p lc 0 [(100, 0%Z); (100, 1%Z); (100, 0%Z)] (init p) in
  loop p lc 0 ([(100, 0%Z); (100, 1%Z); (100, 0%Z)] ++ (50, (-1)%Z) :: [(200, 1%Z)])
       (init p)
  = stop p lc 3 (mark 50 s).
Proof.
  intros p lc s.
  refine (proj1 (proj2 drawdown_stop_halts_at_breach p lc
                   [(100, 0%Z); (100, 1%Z); (100, 0%Z)] 50 (-1)%Z [(200, 1%Z)]
                   (3 # 10) eq_refl _ eq_refl _)).
  - reflexivity.
  - vm_compute. discriminate.
Defined.
(** *** The result does not depend on the logging arguments *)

Ltac split_ifs :=
  repeat match goal with
         | |- context [if ?c then _ else _] => destruct c
         end.

Lemma bar_step_unlogged (p : Params) (lc : LogCtx) (i : Z) (price : Q)
    (sig : Z) (s : Loop) :
  unlogged (fst (bar_step p lc i price sig s))
  = fst (bar_step p quiet i price sig (unlogged s))
  /\ snd (bar_step p lc i price sig s)
     = snd (bar_step p quiet i price sig (unlogged s)).
Proof.
  destruct s as [ec pos ep tr w cb ltb sr em].
  destruct lc as [lg rid mk].
  unfold bar_step, breach, stop, buy, sell, close_position, cooled, emit,
    mark, unlogged, quiet; cbn.
  destruct lg; split_ifs; split; reflexivity.
Qed.

Lemma loop_unlogged (p : Params) (lc : LogCtx) (bars : list (Q * Z)) :
  forall i s,
    unlogged (loop p lc i bars s) = loop p quiet i bars (unlogged s).
Proof.
  induction bars as [|[price sig] bars IH]; intros i s; cbn [loop].
  - reflexivity.
  - destruct (bar_step_unlogged p lc i price sig s) as [F S].
    destruct (bar_step p lc i price sig s) as [s1 b1].
    destruct (bar_step p quiet i price sig (unlogged s)) as [s2 b2].
    cbn [fst snd] in *. subst b2 s2.
    destruct b1; [reflexivity | apply IH].
Qed.

Lemma force_close_unlogged (p : Params) (closes : list Q) (s : Loop) :
  unlogged (force_close p closes s) = force_close p closes (unlogged s).
Proof.
  destruct s. unfold force_close, close_position, unlogged; cbn.
  split_ifs; reflexivity.
Qed.

Lemma summarize_unlogged (sqrt : Q -> Q) (p : Params) (s : Loop) :
  summarize sqrt p s = summarize sqrt p (unlogged s).
Proof. destruct s. reflexivity. Qed.

Lemma run_unlogged (closes : list Q) (sigs : list Z) (p : Params) (lc : LogCtx) :
  unlogged (run closes sigs p lc) = run closes sigs p quiet.
Proof.
  unfold run. rewrite force_close_unlogged, loop_unlogged. reflexivity.
Qed.

(** C6. The metrics and the equity curve are a function of the price series,
    the signal series, cash, fee, slippage, max_fraction, cooldown_bars and
    stop_drawdown alone: two calls that agree on these return the same
    result (and raise alike), whatever logger, run id and market name each
    is given.  The function reads no clock and draws no random number: the
    embedding has no such input. *)
Theorem simulate_long_only_deterministic :
  forall sqrt closes signals p lc1 lc2,
    option_map fst (simulate_long_only sqrt closes signals p lc1)
    = option_map fst (simulate_long_only sqrt closes signals p lc2).
Proof.
  intros sqrt closes signals p lc1 lc2.
  unfold simulate_long_only.
  destruct (align_signals closes signals) as [sigs|]; [|reflexivity].
  cbn [option_map fst]. f_equal.
  rewrite (summarize_unlogged sqrt p (run closes sigs p lc1)).
  rewrite (summarize_unlogged sqrt p (run closes sigs p lc2)).
  rewrite !run_unlogged. reflexivity.
Qed.
(** ** The exchange protocol client *)


Lemma py_int_nonneg (x : Q) : 0 <= x -> Py.int x = Qfloor x.
Proof.
  destruct x as [n d]. unfold Qle, Py.int, Qfloor; cbn.
  intro H. apply Z.quot_div_nonneg; lia.
Qed.

Lemma quantize_price_positive_unit (price u : Q) :
  0 < u ->
  quantize_price price (Some u) = inject_Z (Py.int (price / u)) * u.
Proof.
  intro H. unfold quantize_price, Py.truthy.
  destruct (Qeq_bool u 0) eqn:E.
  - apply Qeq_bool_eq in E. rewrite E in H. discriminate.
  - destruct (Qle_bool u 0) eqn:L; [|reflexivity].
    apply Qle_bool_iff in L. exfalso. apply (Qlt_not_le _ _ H L).
Qed.

Lemma quantize_price_no_unit (price u : Q) :
  u <= 0 -> quantize_price price (Some u) = price.
Proof.
  intro H. unfold quantize_price.
  apply Qle_bool_iff in H. rewrite H, orb_true_r. reflexivity.
Qed.

(** C8 (as amended). For a tick size above zero and a price that is not
    negative, [quantize_price] returns the greatest multiple of the tick
    that does not exceed the price, so [quantize_price 100.7 1.0] is 100;
    for an unknown, zero or negative tick it returns the price unchanged. *)
Theorem quantize_price_rounds_down :
  (forall price u,
      0 < u -> 0 <= price ->
      quantize_price price (Some u) = inject_Z (Qfloor (price / u)) * u
      /\ quantize_price price (Some u) <= price
      /\ price < quantize_price price (Some u) + u)
  /\ quantize_price (1007 # 10) (Some 1) == 100
  /\ (forall price, quantize_price price None = price)
  /\ (forall price u, u <= 0 -> quantize_price price (Some u) = price).
Proof.
  split; [|split; [|split]].
  - intros price u Hu Hp.
    assert (Hq : 0 <= price / u).
    { apply Qle_shift_div_l; [exact Hu|]. lra. }
    rewrite quantize_price_positive_unit by exact Hu.
    rewrite py_int_nonneg by exact Hq.
    split; [reflexivity|].
    pose proof (Qfloor_le (price / u)) as Lo.
    pose proof (Qlt_floor (price / u)) as Hi.
    assert (E : price == price / u * u) by (field; lra).
    split.
    + rewrite E at 2. apply Qmult_le_compat_r; [exact Lo | lra].
    + rewrite inject_Z_plus in Hi.
      apply (Qmult_lt_compat_r _ _ u Hu) in Hi.
      rewrite <- E in Hi.
      change (inject_Z 1) with 1 in Hi.
      rewrite Qmult_plus_distr_l, Qmult_1_l in Hi. exact Hi.
  - reflexivity.
  - reflexivity.
  - apply quantize_price_no_unit.
Qed.

Lemma quantize_price_rounds_down_witness :
  quantize_price (7 # 2) (Some (1 # 2)) <= 7 # 2
  /\ quantize_price 5 (Some (- (1))) = 5.
Proof.
  split.
  - refine (proj1 (proj2 (proj1 quantize_price_rounds_down
                            (7 # 2) (1 # 2) _ _))).
    + reflexivity.
    + discriminate.
  - refine (proj2 (proj2 (proj2 quantize_price_rounds_down)) 5 (- (1)) _).
    discriminate.
Defined.

(** C8 as stated fails on a negative price: [int] truncates toward zero, so
    the result lies above the price. *)
Lemma quantize_price_negative_rounds_up :
  quantize_price (- (1 # 2)) (Some 1) == 0
  /\ ~ quantize_price (- (1 # 2)) (Some 1) <= - (1 # 2).
Proof.
  split.
  - reflexivity.
  - intro H. vm_compute in H. apply H. reflexivity.
Qed.
(** *** The retry loop *)

Lemma Qltb_compare (a b : Q) :
  Py.Qltb a b = match a ?= b with Lt => true | _ => false end.
Proof.
  unfold Py.Qltb, Qle_bool, Qcompare, Z.leb.
  rewrite (Z.compare_antisym (Qnum a * QDen b)).
  destruct (Qnum a * QDen b ?= Qnum b * QDen a)%Z; reflexivity.
Qed.

Lemma py_max_eq (a b : Q) : Py.max a b = Qmax a b.
Proof.
  unfold Py.max, Qmax, GenericMinMax.gmax.
  rewrite Qltb_compare. destruct (a ?= b); reflexivity.
Qed.

Lemma py_min_eq (a b : Q) : Py.min a b = Qmin a b.
Proof.
  unfold Py.min, Qmin, GenericMinMax.gmin.
  rewrite Qltb_compare.
  unfold Qcompare. rewrite (Z.compare_antisym (Qnum a * QDen b)).
  destruct (Qnum a * QDen b ?= Qnum b * QDen a)%Z; reflexivity.
Qed.

Section RetryLoop.

Variable R : Type.
Variable env : nat -> attempt R.
Variable jitter : nat -> Q.

Lemma waits_from_succ (k : nat) (b : Q) (n : nat) :
  waits_from env jitter k b (S n)
  = wait_of b (env k) (jitter k) :: waits_from env jitter (S k) (Qmin (b * 2) 8) n.
Proof.
  unfold waits_from. cbn [seq map Nat.iter].
  rewrite Nat.add_0_r. f_equal.
  rewrite <- seq_shift, map_map.
  apply map_ext. intro j.
  rewrite Nat.iter_succ_r, Nat.add_succ_r. reflexivity.
Qed.

(** As long as the attempts are retryable the loop goes on, sleeping as the
    policy says. *)
Lemma attempts_from_retried (n : nat) :
  forall left k b slept,
    (forall j, (j < n)%nat -> retryable (env (k + j)) = true) ->
    attempts_from R env jitter (n + left) k b slept
    = attempts_from R env jitter left (k + n)
        (Nat.iter n (fun b => Qmin (b * 2) 8) b)
        (slept ++ waits_from env jitter k b n).
Proof.
  induction n as [|n IH]; intros left k b slept H.
  - cbn. rewrite Nat.add_0_r, app_nil_r. reflexivity.
  - pose proof (H 0%nat (Nat.lt_0_succ n)) as H0.
    rewrite Nat.add_0_r in H0.
    rewrite waits_from_succ, Nat.iter_succ_r, Nat.add_succ_r.
    cbn [Nat.add attempts_from].
    destruct (env k) as [r | status raf |] eqn:E; cbn [retryable] in H0.
    + discriminate.
    + rewrite H0, py_min_eq, py_max_eq.
      rewrite IH.
      * rewrite <- app_assoc. cbn [app wait_of].
        destruct raf; reflexivity.
      * intros j Hj. specialize (H (S j)).
        rewrite Nat.add_succ_r in H. apply H. lia.
    + rewrite py_min_eq, IH.
      * rewrite <- app_assoc. reflexivity.
      * intros j Hj. specialize (H (S j)).
        rewrite Nat.add_succ_r in H. apply H. lia.
Qed.

Lemma request_exhausted (max_retries : nat) :
  (forall k, (k < max_retries)%nat -> retryable (env k) = true) ->
  _request R env jitter max_retries
  = (Raised RateLimitError exceeded_retry_limit,
     waits_from env jitter 0 (1 # 2) max_retries).
Proof.
  intro H. unfold _request.
  rewrite <- (Nat.add_0_r max_retries) at 1.
  rewrite attempts_from_retried by exact H.
  reflexivity.
Qed.

Lemma request_not_retried (max_retries n : nat) (status : Z) (raf : option Q) :
  (n < max_retries)%nat ->
  (forall k, (k < n)%nat -> retryable (env k) = true) ->
  env n = HTTPStatusError status raf ->
  retry_status status = false ->
  _request R env jitter max_retries
  = (Raised (_raise_http_error status) (from_response status),
     waits_from env jitter 0 (1 # 2) n).
Proof.
  intros Hn H E NR. unfold _request.
  replace max_retries with (n + S (max_retries - S n))%nat by lia.
  rewrite attempts_from_retried by exact H.
  cbn [attempts_from Nat.add]. rewrite E, NR. reflexivity.
Qed.

Lemma request_success (max_retries n : nat) (r : R) :
  (n < max_retries)%nat ->
  (forall k, (k < n)%nat -> retryable (env k) = true) ->
  env n = Success r ->
  _request R env jitter max_retries = (Returned r, waits_from env jitter 0 (1 # 2) n).
Proof.
  intros Hn H E. unfold _request.
  replace max_retries with (n + S (max_retries - S n))%nat by lia.
  rewrite attempts_from_retried by exact H.
  cbn [attempts_from Nat.add]. rewrite E. reflexivity.
Qed.

End RetryLoop.
Lemma retry_status_iff (status : Z) :
  retry_status status = true <-> In status [429; 500; 502; 503; 504]%Z.
Proof.
  unfold retry_status. rewrite existsb_exists. split.
  - intros (x & I & E). apply Z.eqb_eq in E. subst x. exact I.
  - intro I. exists status. split; [exact I | apply Z.eqb_refl].
Qed.

Lemma raise_http_error_classes :
  _raise_http_error 401 = AuthenticationError
  /\ _raise_http_error 403 = PermissionError
  /\ _raise_http_error 404 = NotFoundError
  /\ (forall s, (400 <= s < 500)%Z ->
                ~ In s [401; 403; 404; 429]%Z ->
                _raise_http_error s = InvalidRequestError)
  /\ (forall s, (s < 400 \/ 500 <= s)%Z -> _raise_http_error s = ExchangeError).
Proof.
  repeat split.
  - intros s B N. unfold _raise_http_error.
    cbn [In] in N.
    destruct (Z.eqb_spec s 401); [lia|].
    destruct (Z.eqb_spec s 403); [lia|].
    destruct (Z.eqb_spec s 404); [lia|].
    destruct (Z.eqb_spec s 429); [lia|].
    destruct (Z.eqb_spec s 0); [lia|].
    destruct (Z.leb_spec 400 s); [|lia].
    destruct (Z.ltb_spec s 500); [reflexivity|lia].
  - intros s B. unfold _raise_http_error.
    destruct (Z.eqb_spec s 401); [lia|].
    destruct (Z.eqb_spec s 403); [lia|].
    destruct (Z.eqb_spec s 404); [lia|].
    destruct (Z.eqb_spec s 429); [lia|].
    destruct (Z.leb_spec 400 s); destruct (Z.ltb_spec s 500);
      try lia; rewrite ?andb_false_r; reflexivity.
Qed.

Lemma wait_of_floor (R : Type) (b ra u : Q) (status : Z) :
  0 <= b -> 0 <= u ->
  ra <= wait_of b (@HTTPStatusError R status (Some ra)) u
  /\ b <= wait_of b (@HTTPStatusError R status (Some ra)) u.
Proof.
  intros Hb Hu. cbn [wait_of].
  pose proof (Q.le_max_l b ra) as L.
  pose proof (Q.le_max_r b ra) as M.
  set (m := Qmax b ra) in *.
  assert (P : 0 <= m * ((2 # 10) * u)).
  { apply Qmult_le_0_compat; [lra|]. apply Qmult_le_0_compat; [discriminate|exact Hu]. }
  assert (E : m * (1 + (2 # 10) * u) == m + m * ((2 # 10) * u)) by ring.
  rewrite E. split; lra.
Qed.

(** C5. Over the five attempts of a REST call: while each attempt ends in a
    status of 429, 500, 502, 503 or 504 or in a transport failure, the call
    is tried again, after a wait built on a backoff of 0.5, 1, 2, 4, 8
    seconds (doubled per attempt, capped at 8) that a Retry-After value
    bounds from below; after five such attempts the rate-limit error with
    the retry-limit message is raised; any other error status ends the call
    at once, with no wait and no further attempt, in the class of its
    status. *)
Theorem request_retry_policy :
  forall (R : Type) (env : nat -> attempt R) (jitter : nat -> Q),
    ((forall k, (k < MAX_RETRIES)%nat -> retryable (env k) = true) ->
     _request R env jitter MAX_RETRIES
     = (Raised RateLimitError exceeded_retry_limit,
        map (fun k => wait_of (backoff_at k) (env k) (jitter k)) (seq 0 5)))
    /\ (forall n status raf,
        (n < MAX_RETRIES)%nat ->
        (forall k, (k < n)%nat -> retryable (env k) = true) ->
        env n = HTTPStatusError status raf ->
        ~ In status [429; 500; 502; 503; 504]%Z ->
        _request R env jitter MAX_RETRIES
        = (Raised (_raise_http_error status) (from_response status),
           map (fun k => wait_of (backoff_at k) (env k) (jitter k)) (seq 0 n)))
    /\ (forall a : attempt R,
        retryable a = true
        <-> a = RequestError
            \/ exists status raf, a = HTTPStatusError status raf
                                  /\ In status [429; 500; 502; 503; 504]%Z)
    /\ Forall2 Qeq (map backoff_at (seq 0 5)) [1 # 2; 1; 2; 4; 8]
    /\ (forall k, backoff_at (S k) = Qmin (backoff_at k * 2) 8)
    /\ (forall k status ra,
        0 <= jitter k ->
        ra <= wait_of (backoff_at k) (@HTTPStatusError R status (Some ra)) (jitter k)
        /\ backoff_at k
           <= wait_of (backoff_at k) (@HTTPStatusError R status (Some ra)) (jitter k))
    /\ (forall k, wait_of (backoff_at k) (@RequestError R) (jitter k) = backoff_at k)
    /\ _raise_http_error 401 = AuthenticationError
    /\ _raise_http_error 403 = PermissionError
    /\ _raise_http_error 404 = NotFoundError
    /\ (forall s, (400 <= s < 500)%Z ->
                  ~ In s [401; 403; 404; 429]%Z ->
                  _raise_http_error s = InvalidRequestError)
    /\ (forall s, (s < 400 \/ 500 <= s)%Z -> _raise_http_error s = ExchangeError).
Proof.
  intros R env jitter.
  assert (Bpos : forall k, 0 <= backoff_at k).
  { induction k as [|k IH]; [discriminate|].
    unfold backoff_at in *. cbn [Nat.iter].
    apply Q.min_glb; [|discriminate].
    apply Qmult_le_0_compat; [exact IH | discriminate]. }
  split; [|split; [|split; [|split; [|split; [|split; [|split]]]]]].
  - intro H. exact (request_exhausted R env jitter MAX_RETRIES H).
  - intros n status raf Hn H E N.
    apply (request_not_retried R env jitter MAX_RETRIES n status raf Hn H E).
    destruct (retry_status status) eqn:S; [|reflexivity].
    apply retry_status_iff in S. contradiction.
  - intro a. destruct a as [r | status raf |]; cbn [retryable].
    + split; [discriminate|]. intros [E | (s & f & E & _)]; discriminate.
    + rewrite retry_status_iff. split.
      * intro I. right. exists status, raf. auto.
      * intros [E | (s & f & E & I)]; [discriminate|].
        injection E as -> _. exact I.
    + split; auto.
  - repeat constructor.
  - intro k. reflexivity.
  - intros k status ra Hu. apply wait_of_floor; auto.
  - intro k. reflexivity.
  - exact raise_http_error_classes.
Qed.

Lemma request_retry_policy_witness :
  fst (_request unit always_503 (fun _ => 0) MAX_RETRIES)
  = Raised RateLimitError exceeded_retry_limit
  /\ _request unit then_401 (fun _ => 0) MAX_RETRIES
     = (Raised AuthenticationError (from_response 401),
        [wait_of (backoff_at 0) (then_401 0%nat) 0]).
Proof.
  split.
  - rewrite (proj1 (request_retry_policy unit always_503 (fun _ => 0))
               (fun k _ => eq_refl)).
    reflexivity.
  - refine (proj1 (proj2 (request_retry_policy unit then_401 (fun _ => 0)))
              1%nat 401%Z None _ _ eq_refl _).
    + unfold MAX_RETRIES. lia.
    + intros k Hk. assert (k = 0%nat) as -> by lia. reflexivity.
    + cbn [In]. lia.
Defined.
(** ** The live loops *)


(** C9. A frame that does not decode to a trade changes nothing of the
    decision state of either live loop (aggregators, bars, positions,
    balances, cooldown counters, orders) and does not end the loop: when
    [_parse_trade] gives nothing the loop goes on to the next message; when
    the frame is not JSON at all, the exception takes the loop through its
    reconnect handler (only the reconnect backoff changes) and the next
    messages are processed from the same state. *)
Theorem unparsed_frame_changes_nothing :
  forall (c : Collaborators) (raw : string),
    (* portfolio_ws.py *)
    (forall cfg pf rest,
        json_loads c raw = None ->
        on_event c cfg pf (Recv raw) = (pf, Reconnect)
        /\ (exists pf', decision_state c pf' = decision_state c pf
                        /\ run_portfolio_ws c cfg pf (Recv raw :: rest)
                           = run_portfolio_ws c cfg pf' rest))
    /\ (forall cfg pf rest d,
        json_loads c raw = Some d -> _parse_trade c d = None ->
        on_event c cfg pf (Recv raw) = (pf, Continue)
        /\ run_portfolio_ws c cfg pf (Recv raw :: rest)
           = run_portfolio_ws c cfg pf rest)
    (* ws_loop.py *)
    /\ (forall su s rest,
        json_loads c raw = None ->
        on_event1 c su s (Recv raw) = (s, Reconnect)
        /\ (exists s', decision_state1 c s' = decision_state1 c s
                       /\ run_live_ws c su s (Recv raw :: rest)
                          = run_live_ws c su s' rest))
    /\ (forall su s rest d,
        json_loads c raw = Some d -> _parse_trade1 c d = None ->
        on_event1 c su s (Recv raw) = (s, Continue)
        /\ run_live_ws c su s (Recv raw :: rest) = run_live_ws c su s rest)
    (* frames that are JSON and no trade *)
    /\ (forall d, (forall fields, d <> JObj fields) ->
                  _parse_trade c d = None /\ _parse_trade1 c d = None)
    /\ (forall fields, dict_get "trade_price" fields = None ->
                       _parse_trade c (JObj fields) = None
                       /\ _parse_trade1 c (JObj fields) = None).
Proof.
  intros c raw.
  split; [|split; [|split; [|split; [|split]]]].
  - intros cfg pf rest E. cbn [on_event run_portfolio_ws]. rewrite E.
    split; [reflexivity|].
    exists (set_backoff c pf (Py.min (backoff c pf * 2) 8)).
    split; reflexivity.
  - intros cfg pf rest d E P. cbn [on_event run_portfolio_ws].
    rewrite E, P. split; reflexivity.
  - intros su s rest E. cbn [on_event1 run_live_ws]. rewrite E.
    split; [reflexivity|].
    exists (set_backoff1 c s (Py.min (l_backoff c s * 2) 8)).
    split; reflexivity.
  - intros su s rest d E P. cbn [on_event1 run_live_ws].
    rewrite E, P. split; reflexivity.
  - intros d H. destruct d; try (split; reflexivity).
    exfalso. apply (H fields). reflexivity.
  - intros fields H. unfold _parse_trade, _parse_trade1, parse_fields, get_or.
    rewrite H. cbn. split; reflexivity.
Qed.

Lemma unparsed_frame_changes_nothing_witness :
  let c := demo 1 None in
  let cfg := demo_config (1 # 10) 0 in
  let pf := demo_portfolio 1 None 120 in
  on_event c cfg pf (Recv "not json") = (pf, Reconnect)
  /\ on_event c cfg pf (Recv "status UP") = (pf, Continue).
Proof.
  intros c cfg pf. split.
  - exact (proj1 (proj1 (unparsed_frame_changes_nothing c "not json")
                    cfg pf [] eq_refl)).
  - exact (proj1 (proj1 (proj2 (unparsed_frame_changes_nothing c "status UP"))
                    cfg pf [] (JObj [("status", JStr "UP")]%string)
                    eq_refl eq_refl)).
Defined.
(** *** A small exchange to run the loops on *)

(** *** The max-daily-loss stop of the coordinator *)

Lemma get_state_market (m : string) (l : list MarketState) (s : MarketState) :
  get_state m l = Some s -> market s = m.
Proof.
  unfold get_state. intro H. apply find_some in H.
  destruct H as [_ H]. apply String.eqb_eq in H. exact H.
Qed.

Lemma get_put_state (st : MarketState) (l : list MarketState) (m : string) :
  get_state m (put_state st l)
  = match get_state m l with
    | Some s => if String.eqb (market s) (market st) then Some st else Some s
    | None => None
    end.
Proof.
  unfold get_state.
  induction l as [|s rest IH]; cbn [put_state find]; [reflexivity|].
  destruct (String.eqb (market s) (market st)) eqn:E.
  - cbn [find]. apply String.eqb_eq in E. rewrite <- E.
    destruct (String.eqb (market s) m) eqn:M.
    + rewrite String.eqb_refl. reflexivity.
    + destruct (find (fun s0 => String.eqb (market s0) m) rest) as [s'|] eqn:F;
        [|reflexivity].
      apply find_some in F. destruct F as [_ F].
      apply String.eqb_eq in F.
      destruct (String.eqb (market s') (market s)) eqn:N; [|reflexivity].
      apply String.eqb_eq in N. rewrite N in F. rewrite F in M.
      rewrite String.eqb_refl in M. discriminate.
  - cbn [find]. destruct (String.eqb (market s) m) eqn:M.
    + rewrite E. reflexivity.
    + exact IH.
Qed.

(** Writing back a state that differs from the stored one in fields a
    projection [f] does not see leaves [f] over the states as it was. *)
Lemma map_put_state {A : Type} (f : MarketState -> A) (st st0 : MarketState)
    (l : list MarketState) :
  get_state (market st) l = Some st0 ->
  f st = f st0 ->
  map f (put_state st l) = map f l.
Proof.
  unfold get_state. intros H F.
  induction l as [|s rest IH]; cbn [put_state map find] in *; [reflexivity|].
  destruct (String.eqb (market s) (market st)) eqn:E.
  - injection H as ->. cbn [map]. rewrite F. reflexivity.
  - cbn [map]. rewrite IH by exact H. reflexivity.
Qed.

(** C2 (as amended). When the max-daily-loss stop fires the coordinator
    returns at once with the equity of the tick: the events that follow are
    not processed, and on the tick of the stop no order at all is placed,
    neither an entry nor an exit; balances, positions and stops are left as
    they were. *)
Theorem daily_loss_stop_returns_at_once :
  forall (c : Collaborators) (cfg : Config) (pf pf' : Portfolio c)
         (ev : ws_event) (equity : Q),
    on_event c cfg pf ev = (pf', Return equity) ->
    (forall rest, run_portfolio_ws c cfg pf (ev :: rest) = (pf', Some equity))
    /\ orders c pf' = orders c pf
    /\ world c pf' = world c pf
    /\ krw_bal c pf' = krw_bal c pf
    /\ map coin_qty (states c pf') = map coin_qty (states c pf)
    /\ map trail_stop (states c pf') = map trail_stop (states c pf)
    /\ map df (states c pf') = map df (states c pf)
    /\ exists mkt price,
        equity = approx_equity c pf' mkt price
        /\ daily_loss_breach c cfg pf' equity = true.
Proof.
  intros c cfg pf pf' ev equity H.
  split.
  { intro rest. cbn [run_portfolio_ws]. rewrite H. reflexivity. }
  destruct ev as [| | ok | raw]; cbn [on_event] in H;
    try discriminate.
  { destruct ok; discriminate. }
  destruct (json_loads c raw) as [d|]; [|discriminate].
  destruct (_parse_trade c d) as [[[[mkt ts] price] vol]|]; [|discriminate].
  unfold on_trade in H.
  destruct (get_state mkt (states c pf)) as [st|] eqn:G; [|discriminate].
  destruct (update (agg st) ts price vol) as [a row].
  pose proof (get_state_market _ _ _ G) as M.
  set (pf1 := set_states c pf (put_state (set_agg st a) (states c pf))) in *.
  destruct (daily_loss_breach c cfg pf1 (approx_equity c pf1 mkt price)) eqn:B.
  - injection H as <- <-.
    assert (G' : get_state (market (set_agg st a)) (states c pf) = Some st)
      by (cbn; rewrite M; exact G).
    repeat split; try reflexivity;
      try (apply (map_put_state _ _ st); [exact G' | reflexivity]).
    exists mkt, price. split; [reflexivity | exact B].
  - destruct row; discriminate.
Qed.

Lemma daily_loss_stop_returns_at_once_witness :
  let c := demo (-1) None in
  let pf := demo_portfolio (-1) None 85 in
  let step := on_event c (demo_config (1 # 10) 0) pf (Recv "0:01 BTC 50") in
  orders c (fst step) = orders c pf.
Proof.
  intros c pf step.
  refine (proj1 (proj2 (daily_loss_stop_returns_at_once
                          c (demo_config (1 # 10) 0) pf (fst step)
                          (Recv "0:01 BTC 50") 50 _))).
  vm_compute. reflexivity.
Defined.

(** C2 as stated fails.  One BTC is held, the bar that closes at 85 is under
    the trailing stop of 90 and the strategy signals a sell.  With a 10%
    daily-loss limit the tick at 50 stops the coordinator: it returns the
    equity 50, no order was placed, the position is still open and the
    second frame is never read.  Without the limit the same first tick
    places the market sell. *)
Lemma daily_loss_stop_skips_armed_exit :
  let c := demo (-1) None in
  let pf := demo_portfolio (-1) None 85 in
  let evs := [Recv "0:01 BTC 50"; Recv "0:02 BTC 50"] in
  let halted := run_portfolio_ws c (demo_config (1 # 10) 0) pf evs in
  let unlimited := run_portfolio_ws c (demo_config 0 0) pf evs in
  snd halted = Some 50
  /\ orders c (fst halted) = []
  /\ map coin_qty (states c (fst halted)) = [1]
  /\ halted = run_portfolio_ws c (demo_config (1 # 10) 0) pf [Recv "0:01 BTC 50"]
  /\ snd unlimited = None
  /\ orders c (fst unlimited) = [sell_order "KRW-BTC" 1].
Proof.
  vm_compute. repeat split.
Qed.
(** *** What one message does to the state of a market *)

Section CoordinatorSteps.

Variable c : Collaborators.

(** The two ways [submit] ends: a call raised, or the accounts came back. *)
Lemma submit_cases (pf : Portfolio c) (req : Broker.OrderRequest) :
  states c (fst (submit c pf req)) = states c pf
  /\ krw_bal c (fst (submit c pf req)) = krw_bal c pf
  /\ orders c (fst (submit c pf req)) = orders c pf ++ [req]
  /\ (snd (submit c pf req) = None
      \/ exists accts w w',
          snd (submit c pf req) = Some accts
          /\ get_accounts c w = (w', Some accts)).
Proof.
  unfold submit.
  destruct (place_order c (world c pf) req) as [w1 [resp|]] eqn:P.
  - destruct (get_accounts c w1) as [w2 [accts|]] eqn:G; cbn [fst snd].
    + repeat split. right. exists accts, w1, w2. split; [reflexivity | exact G].
    + repeat split. left. reflexivity.
  - cbn [fst snd]. repeat split. left. reflexivity.
Qed.

Lemma stop_kept_refl (pf : Portfolio c) (st : MarketState) :
  stop_kept_or_cleared pf pf st st.
Proof.
  repeat split. exists []. rewrite app_nil_r. auto.
Qed.

Lemma stop_kept_trans (pf1 pf2 pf3 : Portfolio c) (st1 st2 st3 : MarketState) :
  stop_kept_or_cleared pf1 pf2 st1 st2 ->
  stop_kept_or_cleared pf2 pf3 st2 st3 ->
  stop_kept_or_cleared pf1 pf3 st1 st3.
Proof.
  intros (S1 & M1 & n1 & O1 & T1) (S2 & M2 & n2 & O2 & T2).
  repeat split; try congruence.
  exists (n1 ++ n2). split.
  - rewrite O2, O1, app_assoc. reflexivity.
  - destruct T2 as [T2 | [T2 N2]].
    + destruct T1 as [T1 | [T1 N1]].
      * left. congruence.
      * right. split; [congruence|].
        intro E. apply app_eq_nil in E. tauto.
    + right. split; [exact T2|].
      intro E. apply app_eq_nil in E. tauto.
Qed.

Ltac with_submit pf req :=
  let pf' := fresh "pf'" in
  let res := fresh "res" in
  let S := fresh "S" in
  let K := fresh "K" in
  let O := fresh "O" in
  let E := fresh "E" in
  let G := fresh "G" in
  let accts := fresh "accts" in
  let w := fresh "w" in
  let w' := fresh "w'" in
  destruct (submit_cases pf req)
    as (S & K & O & [E | (accts & w & w' & E & G)]);
  destruct (submit c pf req) as [pf' res];
  cbn [fst snd] in S, K, O, E; subst res.

Lemma exit_position_stop (pf : Portfolio c) (st : MarketState) :
  stop_kept_or_cleared pf (fst (exit_position c pf st)) st
                       (snd (exit_position c pf st)).
Proof.
  unfold exit_position.
  with_submit pf (sell_order (market st) (coin_qty st)); cbn [fst snd].
  - repeat split; auto. eexists. split; [exact O | auto].
  - repeat split; auto. eexists. split; [exact O|].
    right. split; [reflexivity | discriminate].
Qed.

Lemma partial_tp_stop (cfg : Config) (pf : Portfolio c) (st : MarketState)
    (s_val : Z) (close_px : Q) :
  stop_kept_or_cleared pf (fst (partial_tp c cfg pf st s_val close_px)) st
                       (snd (partial_tp c cfg pf st s_val close_px)).
Proof.
  unfold partial_tp.
  repeat match goal with
         | |- context [if ?b then _ else _] =>
             destruct b; try apply stop_kept_refl
         end.
  with_submit pf (sell_order (market st) (coin_qty st * partial_tp_ratio cfg));
    cbn [fst snd]; repeat split; auto; eexists; (split; [exact O | auto]).
Qed.

Lemma entry_stop (cfg : Config) (pf : Portfolio c) (st : MarketState)
    (s_val : Z) (within : bool) (close_px : Q) :
  stop_kept_or_cleared pf (fst (entry c cfg pf st s_val within close_px)) st
                       (snd (entry c cfg pf st s_val within close_px)).
Proof.
  unfold entry.
  destruct (_ && _ && _ && _); [|apply stop_kept_refl].
  destruct (_ && _); [apply stop_kept_refl|].
  match goal with |- context [submit c pf ?r] => with_submit pf r end;
    cbn [fst snd].
  - repeat split; auto. eexists. split; [exact O | auto].
  - repeat split; auto. eexists. split; [exact O|].
    right. split; [reflexivity | discriminate].
Qed.

Lemma or_zero_some (s : Q) : or_zero (Some s) == s.
Proof.
  cbn. destruct (Qeq_bool s 0) eqn:E; [|reflexivity].
  apply Qeq_bool_eq in E. symmetry. exact E.
Qed.

(** The trailing-stop update sets the stop to the larger of the previous
    stop and close - multiplier * ATR, and never lowers a stop that is set. *)
Lemma update_trail_raises (cfg : Config) (st : MarketState) :
  market (update_trail c cfg st) = market st
  /\ coin_qty (update_trail c cfg st) = coin_qty st
  /\ (forall s, trail_stop st = Some s ->
                exists s', trail_stop (update_trail c cfg st) = Some s' /\ s <= s')
  /\ (forall a, 0 < coin_qty st -> 0 < atr_trailing_mult cfg ->
                atr_last c (df st) (atr_period cfg) = Some a ->
                trail_stop (update_trail c cfg st)
                = Some (Qmax (or_zero (trail_stop st))
                             (Py.last_or (map Close (df st)) 0
                              - atr_trailing_mult cfg * a))).
Proof.
  unfold update_trail.
  repeat split.
  - destruct (_ && _); [|reflexivity]. destruct (atr_last _ _ _); reflexivity.
  - destruct (_ && _); [|reflexivity]. destruct (atr_last _ _ _); reflexivity.
  - intros s H.
    destruct (_ && _); [|eauto using Qle_refl].
    destruct (atr_last _ _ _); [|eauto using Qle_refl].
    cbn [set_trail_stop trail_stop]. eexists. split; [reflexivity|].
    rewrite H. apply Qle_trans with (or_zero (Some s)).
    + rewrite or_zero_some. apply Qle_refl.
    + apply py_max_ge_l.
  - intros a Hq Hm Ha.
    apply Qltb_lt in Hq. apply Qltb_lt in Hm.
    rewrite Hq, Hm, Ha. cbn [andb set_trail_stop trail_stop].
    rewrite py_max_eq. reflexivity.
Qed.
Lemma decide_stop (cfg : Config) (pf : Portfolio c) (st : MarketState)
    (row : Bar) (price : Q) :
  states c (fst (decide c cfg pf st row price)) = states c pf
  /\ stop_raised_or_cleared pf (fst (decide c cfg pf st row price))
                            st (snd (decide c cfg pf st row price)).
Proof.
  unfold decide.
  set (st2 := set_last_signal (with_bar st row) _).
  destruct (update_trail_raises cfg st2) as (M3 & _ & T3 & _).
  set (st3 := update_trail c cfg st2) in *.
  assert (K : forall pf' st',
             stop_kept_or_cleared pf pf' st3 st' ->
             states c pf' = states c pf
             /\ stop_raised_or_cleared pf pf' st st').
  { intros pf' st' (S & M & new & O & T).
    split; [exact S|]. split; [rewrite M, M3; reflexivity|].
    exists new. split; [exact O|].
    intros s Hs. destruct (T3 s Hs) as (s1 & E1 & L1).
    destruct T as [T | T]; [left | right; exact T].
    exists s1. split; [congruence | exact L1]. }
  destruct (do_exit st3 _ _).
  - apply K, exit_position_stop.
  - pose proof (partial_tp_stop cfg pf st3
                  (Py.last_or (signals c (df (with_bar st row))) 0%Z)
                  (Py.last_or (map Close (df st3)) price)) as P.
    destruct (partial_tp c cfg pf st3 _ _) as [pf1 st4] eqn:E.
    cbn [fst snd] in P.
    apply K. eapply stop_kept_trans; [exact P | apply entry_stop].
Qed.


(** What one event does to the states: nothing, or it rewrites the entry of
    one market, through [decide] when the tick closes a bar. *)
Lemma on_event_shape (cfg : Config) (pf pf' : Portfolio c) (ev : ws_event)
    (ctl : control) :
  on_event c cfg pf ev = (pf', ctl) ->
  (states c pf' = states c pf /\ orders c pf' = orders c pf
   /\ krw_bal c pf' = krw_bal c pf)
  \/ exists st0 a,
      get_state (market st0) (states c pf) = Some st0
      /\ (pf' = touched pf st0 a
          \/ exists row price,
              pf' = on_bar c cfg (touched pf st0 a) (set_agg st0 a) row price).
Proof.
  intro H.
  destruct ev as [| | ok | raw]; cbn [on_event] in H.
  - injection H as <- _. auto.
  - injection H as <- _. auto.
  - injection H as <- _. auto.
  - destruct (json_loads c raw) as [d|]; [|injection H as <- _; auto].
    destruct (_parse_trade c d) as [[[[mkt ts] price] vol]|];
      [|injection H as <- _; auto].
    unfold on_trade in H.
    destruct (get_state mkt (states c pf)) as [st|] eqn:G;
      [|injection H as <- _; auto].
    pose proof (get_state_market _ _ _ G) as M. subst mkt.
    destruct (update (agg st) ts price vol) as [a row].
    right. exists st, a. split; [exact G|].
    destruct (daily_loss_breach c cfg _ _).
    + injection H as <- _. left. reflexivity.
    + destruct row as [r|]; injection H as <- _.
      * right. exists r, price. reflexivity.
      * left. reflexivity.
Qed.


Lemma last_cons_default {A : Type} (l : list A) :
  forall x d, last (x :: l) d = last l x.
Proof.
  induction l as [|y l IH]; intros x d; [reflexivity|].
  change (last (x :: y :: l) d) with (last (y :: l) d).
  rewrite (IH y d), (IH y x). reflexivity.
Qed.

(** [run_portfolio_ws] ends in the last state of its trace. *)
Lemma run_last_of_trace (cfg : Config) (evs : list ws_event) :
  forall pf, fst (run_portfolio_ws c cfg pf evs) = last (trace c cfg pf evs) pf.
Proof.
  induction evs as [|ev rest IH]; intro pf; cbn [run_portfolio_ws trace].
  - reflexivity.
  - destruct (on_event c cfg pf ev) as [pf' [| | eq]].
    + rewrite IH, last_cons_default. reflexivity.
    + rewrite IH, last_cons_default. reflexivity.
    + reflexivity.
Qed.




End CoordinatorSteps.


(** ** Positions *)

(** *** In the execution/accounting model *)

(** One bar keeps the position, opens one from flat, or closes the open one. *)
Lemma bar_step_position (p : Params) (lc : LogCtx) (i : Z) (price : Q)
    (sig : Z) (s : Loop) :
  let s' := fst (bar_step p lc i price sig s) in
  Engine.position s' = Engine.position s
  \/ (Engine.position s == 0 /\ 0 < Engine.position s')
  \/ (0 < Engine.position s /\ Engine.position s' = 0).
Proof.
  cbv zeta. unfold bar_step.
  destruct (breach p (mark price s)).
  { left. cbn [fst]. unfold stop. cbn [Engine.position].
    rewrite emit_position. reflexivity. }
  destruct ((sig =? 1)%Z && Qeq_bool (Engine.position (mark price s)) 0
            && cooled p i (mark price s)) eqn:B.
  - apply andb_true_iff in B. destruct B as [B _].
    apply andb_true_iff in B. destruct B as [_ B].
    apply Qeq_bool_eq in B. cbn [mark Engine.position] in B.
    cbn [fst]. unfold buy.
    destruct (Qle_bool _ 0); [left; reflexivity|].
    destruct (Py.Qltb 0 _) eqn:Q; [|left; reflexivity].
    right. left. split; [exact B|].
    rewrite emit_position. cbn [Engine.position].
    apply Qltb_lt in Q. exact Q.
  - destruct ((sig =? -1)%Z && Py.Qltb 0 (Engine.position (mark price s))
              && cooled p i (mark price s)) eqn:S; [|left; reflexivity].
    apply andb_true_iff in S. destruct S as [S _].
    apply andb_true_iff in S. destruct S as [_ S].
    apply Qltb_lt in S. cbn [mark Engine.position] in S.
    right. right. split; [exact S|].
    cbn [fst]. unfold sell. rewrite emit_position. reflexivity.
Qed.

Lemma bar_step_nonneg (p : Params) (lc : LogCtx) (i : Z) (price : Q)
    (sig : Z) (s : Loop) :
  0 <= Engine.position s ->
  0 <= Engine.position (fst (bar_step p lc i price sig s)).
Proof.
  intro H.
  destruct (bar_step_position p lc i price sig s) as [E | [[_ P] | [_ E]]].
  - rewrite E. exact H.
  - apply Qlt_le_weak, P.
  - rewrite E. apply Qle_refl.
Qed.

Lemma loop_nonneg (p : Params) (lc : LogCtx) (bars : list (Q * Z)) :
  forall i s,
    0 <= Engine.position s -> 0 <= Engine.position (loop p lc i bars s).
Proof.
  induction bars as [|[price sig] bars IH]; intros i s H; cbn [loop].
  - exact H.
  - pose proof (bar_step_nonneg p lc i price sig s H) as N.
    destruct (bar_step p lc i price sig s) as [s' brk]. cbn [fst] in N.
    destruct brk; [exact N | apply IH, N].
Qed.

Lemma force_close_nonneg (p : Params) (closes : list Q) (s : Loop) :
  0 <= Engine.position s -> 0 <= Engine.position (force_close p closes s).
Proof.
  intro H. unfold force_close.
  destruct (_ && _); [apply Qle_refl | exact H].
Qed.
(** *** In the coordinator *)

Lemma balance_of_nonneg (cur : string) (accts : list (string * Q)) (d : Q) :
  Forall (fun a => 0 <= snd a) accts -> 0 <= d ->
  0 <= balance_of cur accts d.
Proof.
  intros F D. induction F as [|[k b] rest H F IH]; cbn [balance_of].
  - exact D.
  - destruct (String.eqb k cur); [exact H | exact IH].
Qed.

Lemma Forall_put_state (P : MarketState -> Prop) (st : MarketState)
    (l : list MarketState) :
  P st -> Forall P l -> Forall P (put_state st l).
Proof.
  intros H F. induction F as [|s rest Hs F IH]; cbn [put_state].
  - constructor.
  - destruct (String.eqb (market s) (market st)); constructor; auto.
Qed.

Lemma get_state_In (m : string) (l : list MarketState) (st : MarketState) :
  get_state m l = Some st -> In st l.
Proof. unfold get_state. intro H. apply find_some in H. tauto. Qed.

Section CoordinatorPositions.

Variable c : Collaborators.
Variable cfg : Config.

Hypothesis honest : honest_exchange c.
Hypothesis ratio_le_1 : partial_tp_ratio cfg <= 1.

Ltac submitted pf req :=
  let S := fresh "S" in
  let K := fresh "K" in
  let O := fresh "O" in
  let E := fresh "E" in
  let G := fresh "G" in
  let accts := fresh "accts" in
  let w := fresh "w" in
  let w' := fresh "w'" in
  let pf' := fresh "pf'" in
  let res := fresh "res" in
  destruct (submit_cases c pf req)
    as (S & K & O & [E | (accts & w & w' & E & G)]);
  destruct (submit c pf req) as [pf' res];
  cbn [fst snd] in S, K, O, E; subst res;
  [| pose proof (honest _ _ _ G) ].

Lemma exit_position_nonneg (pf : Portfolio c) (st : MarketState) :
  0 <= coin_qty st -> 0 <= coin_qty (snd (exit_position c pf st)).
Proof.
  intro H. unfold exit_position.
  submitted pf (sell_order (market st) (coin_qty st)); cbn [snd traded coin_qty].
  - exact H.
  - apply balance_of_nonneg; [assumption | apply Qle_refl].
Qed.

Lemma partial_tp_nonneg (pf : Portfolio c) (st : MarketState) (s_val : Z)
    (close_px : Q) :
  0 <= coin_qty st ->
  0 <= coin_qty (snd (partial_tp c cfg pf st s_val close_px)).
Proof.
  intro H. unfold partial_tp.
  repeat match goal with
         | |- context [if ?b then _ else _] => destruct b; try exact H
         end.
  submitted pf (sell_order (market st) (coin_qty st * partial_tp_ratio cfg));
    cbn [snd partially_sold coin_qty].
  - exact H.
  - apply balance_of_nonneg; [assumption|].
    assert (E1 : coin_qty st - coin_qty st * partial_tp_ratio cfg
                 == coin_qty st * (1 - partial_tp_ratio cfg)) by ring.
    rewrite E1. apply Qmult_le_0_compat; [exact H | lra].
Qed.

Lemma entry_nonneg (pf : Portfolio c) (st : MarketState) (s_val : Z)
    (within : bool) (close_px : Q) :
  0 <= coin_qty st ->
  0 <= coin_qty (snd (entry c cfg pf st s_val within close_px)).
Proof.
  intro H. unfold entry.
  destruct (_ && _ && _ && _); [|exact H].
  destruct (_ && _); [exact H|].
  match goal with |- context [submit c pf ?r] => submitted pf r end;
    cbn [snd traded coin_qty].
  - exact H.
  - apply balance_of_nonneg; assumption.
Qed.

Lemma decide_nonneg (pf : Portfolio c) (st : MarketState) (row : Bar)
    (price : Q) :
  0 <= coin_qty st -> 0 <= coin_qty (snd (decide c cfg pf st row price)).
Proof.
  intro H. unfold decide.
  set (st2 := set_last_signal (with_bar st row) _).
  destruct (update_trail_raises c cfg st2) as (_ & Q3 & _).
  set (st3 := update_trail c cfg st2) in *.
  assert (H3 : 0 <= coin_qty st3) by (rewrite Q3; exact H).
  destruct (do_exit st3 _ _).
  - apply exit_position_nonneg, H3.
  - pose proof (partial_tp_nonneg pf st3
                  (Py.last_or (signals c (df (with_bar st row))) 0%Z)
                  (Py.last_or (map Close (df st3)) price) H3) as P.
    destruct (partial_tp c cfg pf st3 _ _) as [pf1 st4].
    cbn [snd] in P. apply entry_nonneg, P.
Qed.

Lemma on_event_no_short (pf pf' : Portfolio c) (ev : ws_event) (ctl : control) :
  on_event c cfg pf ev = (pf', ctl) -> no_short c pf -> no_short c pf'.
Proof.
  unfold no_short. intros H N.
  destruct (on_event_shape c cfg pf pf' ev ctl H)
    as [(S & _) | (st0 & a & G0 & [E | (row & price & E)])].
  - rewrite S. exact N.
  - subst pf'. unfold touched. cbn [states set_states].
    apply Forall_put_state; [|exact N].
    cbn [set_agg coin_qty].
    apply get_state_In in G0. rewrite Forall_forall in N. apply N, G0.
  - assert (N0 : 0 <= coin_qty (set_agg st0 a)).
    { cbn [set_agg coin_qty].
      apply get_state_In in G0. rewrite Forall_forall in N. apply N, G0. }
    subst pf'. unfold on_bar.
    pose proof (decide_nonneg (touched pf st0 a) (set_agg st0 a) row price N0)
      as D.
    destruct (decide_stop c cfg (touched pf st0 a) (set_agg st0 a) row price)
      as (S & _).
    destruct (decide c cfg (touched pf st0 a) (set_agg st0 a) row price)
      as [pfX stF].
    cbn [fst snd] in *. cbn [states set_states]. rewrite S.
    apply Forall_put_state; [exact D|].
    unfold touched. cbn [states set_states].
    apply Forall_put_state; [exact N0 | exact N].
Qed.

Lemma trace_no_short (evs : list ws_event) :
  forall pf, no_short c pf -> Forall (no_short c) (trace c cfg pf evs).
Proof.
  induction evs as [|ev rest IH]; intros pf N; cbn [trace].
  - constructor.
  - destruct (on_event c cfg pf ev) as [pf' ctl] eqn:E.
    pose proof (on_event_no_short pf pf' ev ctl E N) as N'.
    destruct ctl; cbv zeta; constructor;
      try exact N'; try (apply IH; exact N'); constructor.
Qed.

End CoordinatorPositions.

Section CoordinatorEntries.

Variable c : Collaborators.
Variable cfg : Config.

(** [entry] does nothing, or it places one buy for a market that holds
    nothing. *)
Lemma entry_only_when_flat (pf : Portfolio c) (st : MarketState) (s_val : Z)
    (within : bool) (close_px : Q) :
  entry c cfg pf st s_val within close_px = (pf, st)
  \/ (coin_qty st == 0
      /\ s_val = 1%Z
      /\ exists funds,
          orders c (fst (entry c cfg pf st s_val within close_px))
          = orders c pf ++ [buy_order (market st) funds]).
Proof.
  unfold entry.
  destruct ((s_val =? 1)%Z && Qeq_bool (coin_qty st) 0 && within
            && (cooldown_bars cfg <=? bars st - last_trade_bar st)%Z) eqn:B;
    [|left; reflexivity].
  match goal with
  | |- context [if ?b then _ else _] => destruct b; [left; reflexivity|]
  end.
  right.
  repeat (apply andb_true_iff in B; destruct B as [B ?]).
  split; [apply Qeq_bool_eq; assumption|].
  split; [apply Z.eqb_eq; assumption|].
  eexists.
  match goal with
  | |- context [submit c pf ?r] =>
      destruct (submit_cases c pf r) as (_ & _ & O & _);
      destruct (submit c pf r) as [pf' [accts|]]
  end; cbn [fst] in *; exact O.
Qed.

Lemma partial_tp_sells (pf : Portfolio c) (st : MarketState) (s_val : Z)
    (close_px : Q) :
  partial_tp c cfg pf st s_val close_px = (pf, st)
  \/ orders c (fst (partial_tp c cfg pf st s_val close_px))
     = orders c pf ++ [sell_order (market st) (coin_qty st * partial_tp_ratio cfg)].
Proof.
  unfold partial_tp.
  destruct (_ && _ && _); [|left; reflexivity].
  destruct (_ && _ && _); [|left; reflexivity].
  right.
  match goal with
  | |- context [submit c pf ?r] =>
      destruct (submit_cases c pf r) as (_ & _ & O & _);
      destruct (submit c pf r) as [pf' [accts|]]
  end; cbn [fst] in *; exact O.
Qed.

Lemma exit_position_sells (pf : Portfolio c) (st : MarketState) :
  orders c (fst (exit_position c pf st))
  = orders c pf ++ [sell_order (market st) (coin_qty st)].
Proof.
  unfold exit_position.
  destruct (submit_cases c pf (sell_order (market st) (coin_qty st)))
    as (_ & _ & O & _).
  destruct (submit c pf (sell_order (market st) (coin_qty st)))
    as [pf' [accts|]]; cbn [fst] in *; exact O.
Qed.

(** The orders of one bar: sells only, or sells followed by one buy; the buy
    is placed when the market holds nothing, which, unless the partial sell
    of the same bar came first, is what it held when the bar arrived. *)
Lemma decide_buys_when_flat (pf : Portfolio c) (st : MarketState) (row : Bar)
    (price : Q) :
  exists new,
    orders c (fst (decide c cfg pf st row price)) = orders c pf ++ new
    /\ (Forall is_sell new
        \/ exists pre funds,
            new = pre ++ [buy_order (market st) funds]
            /\ Forall is_sell pre
            /\ (pre = [] -> coin_qty st == 0)).
Proof.
  unfold decide.
  set (st2 := set_last_signal (with_bar st row) _).
  destruct (update_trail_raises c cfg st2) as (M3 & Q3 & _).
  set (st3 := update_trail c cfg st2) in *.
  change (market st2) with (market st) in M3.
  change (coin_qty st2) with (coin_qty st) in Q3.
  destruct (do_exit st3 _ _).
  - eexists. split; [apply exit_position_sells|].
    left. repeat constructor.
  - set (sv := Py.last_or (signals c (df (with_bar st row))) 0%Z).
    set (px := Py.last_or (map Close (df st3)) price).
    pose proof (partial_tp_sells pf st3 sv px) as P.
    pose proof (partial_tp_stop c cfg pf st3 sv px) as (_ & M4 & _).
    destruct (partial_tp c cfg pf st3 sv px) as [pf1 st4] eqn:E.
    cbn [fst snd] in *.
    destruct (entry_only_when_flat pf1 st4 sv (in_windows c (timestamp row)) px)
      as [N | (F & _ & funds & O)].
    + rewrite N. cbn [fst].
      destruct P as [P | P].
      * injection P as -> _. exists []. rewrite app_nil_r.
        split; [reflexivity | left; constructor].
      * eexists. split; [exact P | left; repeat constructor].
    + rewrite O. destruct P as [P | P].
      * injection P as -> ->. exists [buy_order (market st3) funds].
        split; [reflexivity|]. right. exists [], funds.
        rewrite M3. repeat split; [constructor|].
        intros _. rewrite <- Q3. exact F.
      * rewrite P, <- app_assoc. eexists. split; [reflexivity|].
        right. eexists. exists funds. rewrite M4, M3.
        split; [reflexivity|].
        split; [repeat constructor | intro X; discriminate X].
Qed.

End CoordinatorEntries.

Lemma last_default_or_in {A : Type} (l : list A) :
  forall d, last l d = d \/ In (last l d) l.
Proof.
  induction l as [|x l IH]; intro d; [left; reflexivity|].
  right. rewrite last_cons_default.
  destruct (IH x) as [E | I]; [rewrite E; left; reflexivity | right; exact I].
Qed.

(** C3. The coordinator can open a second position in a market that already
    holds one.  On an exchange whose account query fails right after the
    first buy was accepted, with a buy signal on two bars in a row: the
    first bar buys, the failed refresh leaves the tracked quantity at zero
    and the last trade bar unset, so the second bar passes the guard
    [coin_qty == 0.0] and the cooldown and buys again; the exchange, which
    accepted both orders with no sell between them, then reports two BTC.
    The single-market loop, which sets its last trade bar before the
    refresh, places one order on the same input. *)
Theorem refresh_failure_opens_second_position :
  let buy := buy_order "KRW-BTC" (100 * (1 # 2)) in
  let pf' := fst (run_portfolio_ws flaky flaky_config flaky_portfolio
                    three_ticks) in
  orders flaky pf' = [buy; buy]
  /\ fst (world flaky pf') = [buy; buy]
  /\ map (fun pf => map coin_qty (states flaky pf))
         (trace flaky flaky_config flaky_portfolio three_ticks)
     = [[0]; [0]; [2]]
  /\ map (fun pf => map last_trade_bar (states flaky pf))
         (trace flaky flaky_config flaky_portfolio three_ticks)
     = [[(- 10 ^ 9)%Z]; [(- 10 ^ 9)%Z]; [2%Z]]
  /\ l_orders flaky (fst (run_live_ws flaky flaky_setup flaky_single
                            three_ticks))
     = [buy].
Proof.
  vm_compute. repeat split; reflexivity.
Qed.

(** X27. What the loops keep of the long-only invariant, in the quantity
    they track.  In the execution/accounting model the position is never
    negative in any state the loop reaches or returns, and a bar keeps the
    position, opens one from flat or closes the open one.  In the
    coordinator, with an exchange that reports no negative balance and a
    partial take-profit ratio of at most one, the quantity tracked for a
    market is never negative; the orders of a bar are sells, or sells
    followed by one buy, and a buy is placed only for a market whose
    tracked quantity is zero. *)
Theorem tracked_position_is_long_only :
  (forall p lc bars, 0 <= Engine.position (loop p lc 0 bars (Engine.init p)))
  /\ (forall closes sigs p lc, 0 <= Engine.position (run closes sigs p lc))
  /\ (forall p lc i price sig s,
      let s' := fst (bar_step p lc i price sig s) in
      Engine.position s' = Engine.position s
      \/ (Engine.position s == 0 /\ 0 < Engine.position s')
      \/ (0 < Engine.position s /\ Engine.position s' = 0))
  /\ (forall c cfg pf evs,
      honest_exchange c ->
      partial_tp_ratio cfg <= 1 ->
      no_short c pf ->
      Forall (no_short c) (trace c cfg pf evs)
      /\ no_short c (fst (run_portfolio_ws c cfg pf evs)))
  /\ (forall c cfg pf st s_val within close_px,
      entry c cfg pf st s_val within close_px = (pf, st)
      \/ (coin_qty st == 0
          /\ s_val = 1%Z
          /\ exists funds,
              orders c (fst (entry c cfg pf st s_val within close_px))
              = orders c pf ++ [buy_order (market st) funds]))
  /\ (forall c cfg pf st row price,
      exists new,
        orders c (fst (decide c cfg pf st row price)) = orders c pf ++ new
        /\ (Forall is_sell new
            \/ exists pre funds,
                new = pre ++ [buy_order (market st) funds]
                /\ Forall is_sell pre
                /\ (pre = [] -> coin_qty st == 0))).
Proof.
  split; [|split; [|split; [|split; [|split]]]].
  - intros p lc bars. apply loop_nonneg. apply Qle_refl.
  - intros closes sigs p lc. unfold run.
    apply force_close_nonneg, loop_nonneg. apply Qle_refl.
  - apply bar_step_position.
  - intros c cfg pf evs Hh Hr N.
    pose proof (trace_no_short c cfg Hh Hr evs pf N) as T.
    split; [exact T|].
    rewrite run_last_of_trace.
    destruct (last_default_or_in (trace c cfg pf evs) pf) as [E | I].
    + rewrite E. exact N.
    + rewrite Forall_forall in T. apply T, I.
  - intros c cfg. apply entry_only_when_flat.
  - intros c cfg. apply decide_buys_when_flat.
Qed.

Lemma tracked_position_is_long_only_witness :
  let c := demo 1 None in
  let pf := demo_portfolio 1 None 120 in
  Forall (no_short c)
         (trace c (demo_config 0 0) pf [Recv "0:01 BTC 50"; Recv "0:02 BTC 50"]).
Proof.
  intros c pf.
  refine (proj1 (proj1 (proj2 (proj2 (proj2 tracked_position_is_long_only)))
                   c (demo_config 0 0) pf
                   [Recv "0:01 BTC 50"; Recv "0:02 BTC 50"] _ _ _)).
  - intros w w' accts E. injection E as _ <-.
    repeat constructor; discriminate.
  - discriminate.
  - repeat constructor. discriminate.
Defined.

(** * Further properties *)

(** ** The bar aggregator over a whole session *)

Lemma py_min_le_l (a b : Q) : Py.min a b <= a.
Proof. rewrite py_min_eq. apply Q.le_min_l. Qed.

Lemma py_min_le_r (a b : Q) : Py.min a b <= b.
Proof. rewrite py_min_eq. apply Q.le_min_r. Qed.

Lemma floor_minute_idem (ts : datetime) :
  floor_minute (floor_minute ts) = floor_minute ts.
Proof.
  unfold floor_minute.
  assert (E : ((ts - ts mod MINUTE_US) mod MINUTE_US = 0)%Z).
  { rewrite Zminus_mod, Z.mod_mod, Z.sub_diag by (unfold MINUTE_US; lia).
    reflexivity. }
  rewrite E. lia.
Qed.

Lemma seed_ok (ts : datetime) (price vol : Q) :
  bucket_ok (seed (floor_minute ts) price vol).
Proof.
  unfold bucket_ok, seed; cbn.
  repeat split; try apply Qle_refl. apply floor_minute_idem.
Qed.

Lemma merged_ok (b : CandleBucket) (price vol : Q) :
  bucket_ok b -> bucket_ok (merged b price vol).
Proof.
  intros (A & B & C & D & E). unfold bucket_ok, merged; cbn.
  repeat split.
  - apply Qle_trans with (low b); [apply py_min_le_l | exact A].
  - apply Qle_trans with (high b); [exact B | apply py_max_ge_l].
  - apply py_min_le_r.
  - apply py_max_ge_r.
  - exact E.
Qed.

Lemma row_of_ok (b : CandleBucket) : bucket_ok b -> bar_ok (row_of b).
Proof. intro H. exact H. Qed.

(** The three ways [update] goes. *)
Lemma update_cases (a : CandleAggregator) (ts : datetime) (price vol : Q) :
  (a = None
   /\ update a ts price vol = (Some (seed (floor_minute ts) price vol), None))
  \/ (exists b, a = Some b /\ (start b < floor_minute ts)%Z
                /\ update a ts price vol
                   = (Some (seed (floor_minute ts) price vol), Some (row_of b)))
  \/ (exists b, a = Some b /\ (floor_minute ts <= start b)%Z
                /\ update a ts price vol = (Some (merged b price vol), None)).
Proof.
  destruct a as [b|].
  - destruct (Z_lt_le_dec (start b) (floor_minute ts)) as [L | L].
    + right. left. exists b. auto using update_later.
    + right. right. exists b. auto using update_not_later.
  - left. split; reflexivity.
Qed.

Lemma feed_ok (ticks : list (datetime * Q * Q)) :
  forall a,
    (forall b, a = Some b -> bucket_ok b) ->
    (forall b, fst (feed a ticks) = Some b -> bucket_ok b)
    /\ Forall bar_ok (snd (feed a ticks)).
Proof.
  induction ticks as [|[[ts price] vol] rest IH]; intros a H; cbn [feed].
  - split; [exact H | constructor].
  - assert (K : forall a' row,
               (forall b, a' = Some b -> bucket_ok b) ->
               (forall r, row = Some r -> bar_ok r) ->
               update a ts price vol = (a', row) ->
               (forall b, fst (let '(f, rows) := feed a' rest in
                               (f, match row with
                                   | Some r => r :: rows
                                   | None => rows
                                   end)) = Some b -> bucket_ok b)
               /\ Forall bar_ok
                    (snd (let '(f, rows) := feed a' rest in
                          (f, match row with
                              | Some r => r :: rows
                              | None => rows
                              end)))).
    { intros a' row Ha Hr _.
      destruct (IH a' Ha) as [I1 I2].
      destruct (feed a' rest) as [f rows]. cbn [fst snd] in *.
      split; [exact I1|].
      destruct row as [r|]; [constructor; auto | exact I2]. }
    destruct (update_cases a ts price vol)
      as [[-> E] | [(b & -> & L & E) | (b & -> & L & E)]]; rewrite E.
    + apply (K _ None); auto; try discriminate.
      intros b [= <-]. apply seed_ok.
    + apply (K _ (Some (row_of b))); auto.
      * intros b' [= <-]. apply seed_ok.
      * intros r [= <-]. apply row_of_ok, H. reflexivity.
    + apply (K _ None); auto; try discriminate.
      intros b' [= <-]. apply merged_ok, H. reflexivity.
Qed.

(** X1. Every row of a session has its low below and its high above its
    open and close, and is stamped with a whole minute. *)
Theorem session_bars_are_consistent :
  forall ticks, Forall bar_ok (session ticks).
Proof.
  intro ticks. unfold session.
  destruct (feed_ok ticks Aggregator.init) as [B R]; [discriminate|].
  destruct (feed Aggregator.init ticks) as [a rows]. cbn [fst snd] in *.
  destruct a as [b|]; cbn [finalize snd]; [|exact R].
  apply Forall_app. split; [exact R|].
  constructor; [|constructor]. apply row_of_ok, B. reflexivity.
Qed.

Lemma sumQ_app (l1 l2 : list Q) : sumQ (l1 ++ l2) == sumQ l1 + sumQ l2.
Proof.
  unfold sumQ.
  induction l1 as [|x l1 IH]; cbn [app fold_right].
  - symmetry. apply Qplus_0_l.
  - rewrite IH. apply Qplus_assoc.
Qed.

(** [feed] loses no volume: what is in the rows and in the open bucket
    afterwards is what was in the open bucket before plus the ticks. *)
Lemma feed_volume (ticks : list (datetime * Q * Q)) :
  forall a,
    sumQ (map Volume (snd (feed a ticks))) + open_volume (fst (feed a ticks))
    == open_volume a + sumQ (map snd ticks).
Proof.
  induction ticks as [|[[ts price] vol] rest IH]; intro a; cbn [feed].
  - cbn. ring.
  - cbn [map snd sumQ fold_right]. fold (sumQ (map snd rest)).
    destruct (update_cases a ts price vol)
      as [[-> E] | [(b & -> & L & E) | (b & -> & L & E)]]; rewrite E;
      match goal with
      | |- context [feed ?a' rest] =>
          pose proof (IH a') as I; destruct (feed a' rest) as [f rows]
      end;
      cbn [fst snd map sumQ fold_right open_volume seed merged volume
           row_of Volume] in *;
      fold (sumQ (map Volume rows)) in *; lra.
Qed.

(** X2. The volumes of the rows of a session add up to the volumes of its
    ticks. *)
Theorem session_keeps_volume :
  forall ticks,
    sumQ (map Volume (session ticks)) == sumQ (map snd ticks).
Proof.
  intro ticks. unfold session.
  pose proof (feed_volume ticks Aggregator.init) as V.
  destruct (feed Aggregator.init ticks) as [a rows]. cbn [fst snd] in V.
  destruct a as [b|]; cbn [finalize snd open_volume] in *.
  - rewrite map_app, sumQ_app. cbn. cbn in V. lra.
  - cbn in V. lra.
Qed.

(** The rows [feed] returns are in strictly increasing order of their
    minute, all before the bucket left open, and none before the bucket
    that was open at the start. *)
Lemma feed_sorted (ticks : list (datetime * Q * Q)) :
  forall a,
    let stamps := map timestamp (snd (feed a ticks))
                  ++ open_start (fst (feed a ticks)) in
    StronglySorted Z.lt stamps
    /\ forall b, a = Some b -> stamps <> [] /\ Forall (fun t => (start b <= t)%Z) stamps.
Proof.
  induction ticks as [|[[ts price] vol] rest IH]; intro a; cbn [feed].
  - cbn [snd fst map app]. split.
    + destruct a; repeat constructor.
    + intros b ->. cbn. split; [discriminate|]. repeat constructor. lia.
  - assert (K : forall b' row,
               (forall r, row = Some r -> (timestamp r < start b')%Z) ->
               let res := (let '(f, rows) := feed (Some b') rest in
                           (f, match row with
                               | Some r => r :: rows
                               | None => rows
                               end)) in
               let stamps := map timestamp (snd res) ++ open_start (fst res) in
               StronglySorted Z.lt stamps
               /\ stamps <> []
               /\ Forall (fun t => forall r, row = Some r -> (timestamp r <= t)%Z)
                         stamps
               /\ Forall (fun t => (start b' <= t \/ exists r, row = Some r)%Z)
                         stamps).
    { intros b' row Hr.
      destruct (IH (Some b')) as [S A].
      destruct (A b' eq_refl) as [N F].
      destruct (feed (Some b') rest) as [f rows]. cbn [fst snd] in *.
      destruct row as [r|]; cbn [map app].
      - pose proof (Hr r eq_refl) as Lt.
        repeat split.
        + constructor; [exact S|].
          eapply Forall_impl; [|exact F]. cbn. intros. lia.
        + discriminate.
        + constructor.
          * intros r' [= <-]. lia.
          * eapply Forall_impl; [|exact F]. cbn.
            intros t Ht r' [= <-]. lia.
        + constructor; [right; eauto|].
          eapply Forall_impl; [|exact F]. cbn. intros. left. assumption.
      - repeat split; auto.
        + eapply Forall_impl; [|exact F]. intros t _ r' X. discriminate X.
        + eapply Forall_impl; [|exact F]. cbn. intros. left. assumption. }
    destruct (update_cases a ts price vol)
      as [[-> E] | [(b & -> & L & E) | (b & -> & L & E)]]; rewrite E.
    + destruct (K (seed (floor_minute ts) price vol) None) as (S & _);
        [discriminate|].
      split; [exact S | discriminate].
    + destruct (K (seed (floor_minute ts) price vol) (Some (row_of b)))
        as (S & N & F & _).
      { intros r [= <-]. exact L. }
      split; [exact S|]. intros b0 [= <-]. split; [exact N|].
      eapply Forall_impl; [|exact F]. cbn. intros t Ht.
      apply (Ht (row_of b) eq_refl).
    + destruct (K (merged b price vol) None) as (S & N & _ & F);
        [discriminate|].
      split; [exact S|]. intros b0 [= <-]. split; [exact N|].
      eapply Forall_impl; [|exact F]. cbn.
      intros t [Ht | (r & X)]; [exact Ht | discriminate X].
Qed.

Lemma feed_count (ticks : list (datetime * Q * Q)) :
  forall a,
    (List.length (snd (feed a ticks))
     + List.length (open_start (fst (feed a ticks)))
     <= List.length ticks + List.length (open_start a))%nat.
Proof.
  induction ticks as [|[[ts price] vol] rest IH]; intro a; cbn [feed].
  - cbn. lia.
  - destruct (update_cases a ts price vol)
      as [[-> E] | [(b & -> & L & E) | (b & -> & L & E)]]; rewrite E;
      match goal with
      | |- context [feed ?a' rest] =>
          pose proof (IH a') as I; destruct (feed a' rest) as [f rows]
      end;
      cbn [fst snd List.length open_start] in *; lia.
Qed.

Lemma feed_leaves_open (ticks : list (datetime * Q * Q)) :
  forall a, a <> None \/ ticks <> [] -> fst (feed a ticks) <> None.
Proof.
  induction ticks as [|[[ts price] vol] rest IH]; intros a H; cbn [feed].
  - cbn. destruct H as [H | H]; [exact H | contradiction].
  - destruct (update_cases a ts price vol)
      as [[-> E] | [(b & -> & L & E) | (b & -> & L & E)]]; rewrite E;
      match goal with
      | |- context [feed ?a' rest] =>
          assert (I : fst (feed a' rest) <> None)
            by (apply IH; left; discriminate);
          destruct (feed a' rest) as [f rows]
      end; exact I.
Qed.

(** X3. The rows of a session come in strictly increasing order of their
    minute, whatever the order of the ticks; a session with a tick has a
    row, and no more rows than ticks. *)
Theorem session_bars_in_order :
  forall ticks,
    StronglySorted Z.lt (map timestamp (session ticks))
    /\ (ticks <> [] -> session ticks <> [])
    /\ (List.length (session ticks) <= List.length ticks)%nat.
Proof.
  intro ticks.
  destruct (feed_sorted ticks Aggregator.init) as [S _].
  pose proof (feed_count ticks Aggregator.init) as C.
  pose proof (feed_leaves_open ticks Aggregator.init) as O.
  unfold session. unfold Aggregator.init in *.
  destruct (feed None ticks) as [a rows]. cbn [fst snd] in *.
  destruct a as [b|]; cbn [finalize snd open_start List.length] in *.
  - rewrite map_app, length_app. cbn [map List.length row_of timestamp].
    split; [exact S|]. split; [|lia].
    intros _ E. apply app_eq_nil in E. destruct E as [_ E]. discriminate E.
  - rewrite app_nil_r in S. split; [exact S|]. split; [|lia].
    intro N. exfalso. apply O; [right; exact N | reflexivity].
Qed.

Lemma session_bars_in_order_witness :
  session [(at_hms 0 0 10, 100, 1)] <> [].
Proof.
  refine (proj1 (proj2 (session_bars_in_order [(at_hms 0 0 10, 100, 1)])) _).
  discriminate.
Defined.

(** ** The execution/accounting model, bar by bar *)

(** The four ways one bar goes: the drawdown stop, a buy, a sell, or
    nothing but the mark. *)
Lemma bar_step_cases (p : Params) (lc : LogCtx) (i : Z) (price : Q) (sig : Z)
    (s : Loop) :
  (breach p (mark price s) = true
   /\ bar_step p lc i price sig s = (stop p lc i (mark price s), true))
  \/ (breach p (mark price s) = false
      /\ sig = 1%Z /\ Engine.position s == 0 /\ cooled p i s = true
      /\ bar_step p lc i price sig s = (buy p lc i price (mark price s), false))
  \/ (breach p (mark price s) = false
      /\ sig = (-1)%Z /\ 0 < Engine.position s /\ cooled p i s = true
      /\ bar_step p lc i price sig s = (sell p lc i price (mark price s), false))
  \/ (breach p (mark price s) = false
      /\ (cooled p i s = false \/ sig <> 1%Z \/ ~ Engine.position s == 0)
      /\ (cooled p i s = false \/ sig <> (-1)%Z \/ Engine.position s <= 0)
      /\ bar_step p lc i price sig s = (mark price s, false)).
Proof.
  unfold bar_step.
  change (cooled p i (mark price s)) with (cooled p i s).
  change (Engine.position (mark price s)) with (Engine.position s).
  destruct (breach p (mark price s)); [left; auto|].
  right.
  destruct (Z.eqb_spec sig 1) as [E1 | N1];
    destruct (Qeq_bool (Engine.position s) 0) eqn:Z0;
    destruct (cooled p i s) eqn:C; cbn [andb];
    first [apply Qeq_bool_eq in Z0 | apply Qeq_bool_neq in Z0];
    try (left; repeat split; auto; fail);
    right;
    destruct (Z.eqb_spec sig (-1)) as [E2 | N2];
    destruct (Py.Qltb 0 (Engine.position s)) eqn:P0; cbn [andb];
    first [apply Qltb_lt in P0 | apply Qltb_ge in P0];
    try (left; repeat split; auto; fail);
    right; (split; [reflexivity|]); (split; [|split; [|reflexivity]]);
    auto; try (right; left; lia); try (right; right; assumption).
Qed.

Lemma account_emit (lc : LogCtx) (evs : list log_event) (s : Loop) :
  account (emit lc evs s) = account s.
Proof. unfold emit. destruct (log lc); reflexivity. Qed.

Lemma account_stop (p : Params) (lc : LogCtx) (i : Z) (s : Loop) :
  account (stop p lc i s) = account s.
Proof.
  unfold stop, account; cbn. unfold emit. destruct (log lc); reflexivity.
Qed.



Lemma force_close_stopped (p : Params) (closes : list Q) (s : Loop) :
  stopped_reason (force_close p closes s) = stopped_reason s.
Proof. unfold force_close. destruct (_ && _); reflexivity. Qed.

Lemma bar_step_stopped (p : Params) (lc : LogCtx) (i : Z) (price : Q) (sig : Z)
    (s : Loop) :
  snd (bar_step p lc i price sig s) = false ->
  stopped_reason (fst (bar_step p lc i price sig s)) = stopped_reason s.
Proof.
  destruct (bar_step_cases p lc i price sig s)
    as [(_ & E) | [(_ & _ & _ & _ & E) | [(_ & _ & _ & _ & E) | (_ & _ & _ & E)]]];
    rewrite E; cbn [fst snd]; intro H; try discriminate H.
  - unfold buy. repeat match goal with
                       | |- context [if ?b then _ else _] => destruct b
                       end; rewrite ?emit_stopped; reflexivity.
  - unfold sell. rewrite emit_stopped. reflexivity.
  - reflexivity.
Qed.

(** The only reason the loop ever records is the drawdown stop. *)
Lemma loop_stopped_cases (p : Params) (lc : LogCtx) (bars : list (Q * Z)) :
  forall i s,
    stopped_reason s = None ->
    stopped_reason (loop p lc i bars s) = None
    \/ stopped_reason (loop p lc i bars s) = Some "risk_violation"%string.
Proof.
  induction bars as [|[price sig] bars IH]; intros i s N; cbn [loop].
  - left; exact N.
  - pose proof (bar_step_stopped p lc i price sig s) as K.
    pose proof (bar_step_break p lc i price sig s) as B.
    destruct (bar_step p lc i price sig s) as [s' brk]. cbn [fst snd] in K.
    destruct brk.
    + right. destruct (B s' eq_refl) as [_ ->]. reflexivity.
    + apply IH. rewrite (K eq_refl). exact N.
Qed.






(** A bar that does not breach the stop goes as if no stop were configured. *)
Lemma bar_step_without_stop (c f sl mf : Q) (cd : Z) (sd : option Q)
    (lc : LogCtx) (i : Z) (price : Q) (sig : Z) (s : Loop) :
  breach (mkParams c f sl mf cd sd) (mark price s) = false ->
  bar_step (mkParams c f sl mf cd sd) lc i price sig s
  = bar_step (mkParams c f sl mf cd None) lc i price sig s.
Proof. intro B. unfold bar_step. cbv zeta. rewrite B. reflexivity. Qed.

Lemma loop_without_stop (c f sl mf : Q) (cd : Z) (sd : option Q)
    (lc : LogCtx) (bars : list (Q * Z)) :
  forall i s,
    stopped_reason (loop (mkParams c f sl mf cd sd) lc i bars s) = None ->
    loop (mkParams c f sl mf cd sd) lc i bars s
    = loop (mkParams c f sl mf cd None) lc i bars s.
Proof.
  induction bars as [|[price sig] bars IH]; intros i s; [reflexivity|].
  destruct (breach (mkParams c f sl mf cd sd) (mark price s)) eqn:B.
  - rewrite (loop_breach _ lc i price sig bars s B). discriminate.
  - cbn [loop]. rewrite (bar_step_without_stop c f sl mf cd sd lc i price sig s B).
    destruct (bar_step (mkParams c f sl mf cd None) lc i price sig s)
      as [s' brk].
    destruct brk; [reflexivity | apply IH].
Qed.

Lemma loop_init_stopped (p : Params) (lc : LogCtx) (bars : list (Q * Z)) :
  stopped_reason (loop p lc 0 bars (init p)) = None
  \/ stopped_reason (loop p lc 0 bars (init p)) = Some "risk_violation"%string.
Proof. apply loop_stopped_cases. reflexivity. Qed.

(** X5. Parity of the two offline modes: a paper run made with the whole
    balance a trade ([max_fraction] 1) and no cooldown that reports
    "completed" reports exactly the metrics of the backtest of the same
    data, strategy, cash, fee and slippage, whatever its daily-loss limit,
    run id and market name. *)
Theorem completed_paper_run_matches_backtest (sqrt : Q -> Q)
    (strategy_signals : list Bar -> list (option Z)) (df : list Bar)
    (cash fee slippage max_daily_loss : Q) (run_id market : option string)
    (m : Metrics) (evs : list log_event) :
  run_paper sqrt strategy_signals df cash fee slippage 1 max_daily_loss 0
            run_id market = Some (m, evs) ->
  StoppedReason m = "completed"%string ->
  option_map metrics (run_backtest sqrt strategy_signals df cash fee slippage)
  = Some m.
Proof.
  unfold run_paper, run_backtest, simulate_long_only.
  destruct (align_signals (map Close df) (strategy_signals df)) as [sigs|];
    [|discriminate].
  cbn [option_map fst snd]. intros E C. injection E as <- _. f_equal.
  set (P := mkParams cash fee slippage 1 0%Z (Some max_daily_loss)) in *.
  set (lc := mkLogCtx true run_id market) in *.
  set (closes := map Close df) in *.
  cbn [summarize metrics StoppedReason] in C. unfold run in C.
  rewrite force_close_stopped in C.
  assert (N : stopped_reason (loop P quiet 0 (combine closes sigs) (init P))
              = None).
  { change (init P) with (unlogged (init P)). rewrite <- (loop_unlogged P lc).
    destruct (loop_init_stopped P lc (combine closes sigs)) as [N | R].
    - exact N.
    - rewrite R in C. discriminate C. }
  change (metrics (summarize sqrt (mkParams cash fee slippage 1 0%Z None)
                     (run closes sigs (mkParams cash fee slippage 1 0%Z None)
                          quiet))
          = metrics (summarize sqrt P (run closes sigs P lc))).
  rewrite (summarize_unlogged sqrt P (run closes sigs P lc)), run_unlogged.
  unfold run. unfold P in N |- *.
  rewrite (loop_without_stop cash fee slippage 1 0%Z (Some max_daily_loss)
             quiet _ 0%Z _ N).
  reflexivity.
Qed.

Lemma completed_paper_run_matches_backtest_witness :
  exists m,
    option_map metrics
      (run_backtest (fun x => x) (map (fun _ => Some 1%Z))
                    [mkBar 0%Z 10 10 10 10 1; mkBar 60000000%Z 10 11 9 11 1]
                    100 0 0)
    = Some m.
Proof.
  eexists.
  eapply (completed_paper_run_matches_backtest (fun x => x)
            (map (fun _ => Some 1%Z))
            [mkBar 0%Z 10 10 10 10 1; mkBar 60000000%Z 10 11 9 11 1]
            100 0 0 (1 # 2) None None).
  - reflexivity.
  - reflexivity.
Defined.

(** *** Cooldown *)

Lemma bar_step_cooling (p : Params) (lc : LogCtx) (i : Z) (price : Q) (sig : Z)
    (s : Loop) :
  cooled p i s = false ->
  account (fst (bar_step p lc i price sig s)) = account s.
Proof.
  intro C.
  destruct (bar_step_cases p lc i price sig s)
    as [(_ & E) | [(_ & _ & _ & C' & E) | [(_ & _ & _ & C' & E) | (_ & _ & _ & E)]]];
    rewrite E; cbn [fst]; try congruence.
  - exact (account_stop p lc i (mark price s)).
  - reflexivity.
Qed.

(** A bar that changes the account is a trade of that bar. *)
Lemma bar_step_traded (p : Params) (lc : LogCtx) (i : Z) (price : Q) (sig : Z)
    (s : Loop) :
  account (fst (bar_step p lc i price sig s)) <> account s ->
  Engine.last_trade_bar (fst (bar_step p lc i price sig s)) = i.
Proof.
  destruct (bar_step_cases p lc i price sig s)
    as [(_ & E) | [(_ & _ & _ & _ & E) | [(_ & _ & _ & _ & E) | (_ & _ & _ & E)]]];
    rewrite E; cbn [fst]; intro D.
  - destruct D. exact (account_stop p lc i (mark price s)).
  - revert D. unfold buy.
    repeat match goal with
           | |- context [if ?b then _ else _] => destruct b
           end; intro D; try (destruct D; reflexivity).
    unfold emit. destruct (log lc); reflexivity.
  - unfold sell, emit. destruct (log lc); reflexivity.
  - destruct D. reflexivity.
Qed.

Lemma loop_cooling (p : Params) (lc : LogCtx) (bars : list (Q * Z)) :
  forall i s,
    (i + Z.of_nat (List.length bars) - Engine.last_trade_bar s
     <= Engine.cooldown_bars p)%Z ->
    account (loop p lc i bars s) = account s.
Proof.
  induction bars as [|[price sig] bars IH]; intros i s H; cbn [loop].
  - reflexivity.
  - cbn [List.length] in H.
    assert (C : cooled p i s = false).
    { unfold cooled. apply Z.leb_gt. lia. }
    pose proof (bar_step_cooling p lc i price sig s C) as A.
    destruct (bar_step p lc i price sig s) as [s' brk]. cbn [fst] in A.
    destruct brk; [exact A|].
    rewrite IH; [exact A|].
    assert (L : Engine.last_trade_bar s' = Engine.last_trade_bar s).
    { unfold account in A. congruence. }
    rewrite L. lia.
Qed.

(** X6. Cooldown: after a bar that traded (a buy or a sell changed the
    account), the following [cooldown_bars - 1] bars place no trade, whatever
    their prices and signals: position, entry price, trade list, wins and
    cash stay as the trade left them. *)
Theorem cooldown_blocks_trading (p : Params) (lc : LogCtx) (i : Z) (price : Q)
    (sig : Z) (s : Loop) (bars : list (Q * Z)) :
  account (fst (bar_step p lc i price sig s)) <> account s ->
  (Z.of_nat (List.length bars) < Engine.cooldown_bars p)%Z ->
  account (loop p lc (i + 1) bars (fst (bar_step p lc i price sig s)))
  = account (fst (bar_step p lc i price sig s)).
Proof.
  intros T L. apply loop_cooling.
  rewrite (bar_step_traded p lc i price sig s T). lia.
Qed.

Lemma cooldown_blocks_trading_witness :
  let p := mkParams 100 0 0 1 3%Z None in
  account (loop p quiet 1 [(20, (-1)%Z); (5, (-1)%Z)]
             (fst (bar_step p quiet 0 10 1 (init p))))
  = account (fst (bar_step p quiet 0 10 1 (init p))).
Proof.
  intro p.
  apply (cooldown_blocks_trading p quiet 0 10 1 (init p)
           [(20, (-1)%Z); (5, (-1)%Z)]).
  - vm_compute. intro H. discriminate H.
  - vm_compute. reflexivity.
Defined.

(** *** Trades and wins *)

Lemma bar_step_wins (p : Params) (lc : LogCtx) (i : Z) (price : Q) (sig : Z)
    (s : Loop) :
  (0 <= wins s <= Z.of_nat (List.length (trades s)))%Z ->
  let s' := fst (bar_step p lc i price sig s) in
  (0 <= wins s' <= Z.of_nat (List.length (trades s')))%Z.
Proof.
  intro H.
  destruct (bar_step_cases p lc i price sig s)
    as [(_ & E) | [(_ & _ & _ & _ & E) | [(_ & _ & _ & _ & E) | (_ & _ & _ & E)]]];
    rewrite E; cbn [fst].
  - unfold stop, emit. destruct (log lc); exact H.
  - unfold buy.
    repeat match goal with
           | |- context [if ?b then _ else _] => destruct b
           end; try exact H.
    unfold emit. destruct (log lc); exact H.
  - unfold sell, emit, close_position.
    destruct (log lc); cbn [wins trades mark];
      rewrite length_app; cbn [List.length];
      destruct (Py.Qltb 0 _); lia.
  - exact H.
Qed.

Lemma loop_wins (p : Params) (lc : LogCtx) (bars : list (Q * Z)) :
  forall i s,
    (0 <= wins s <= Z.of_nat (List.length (trades s)))%Z ->
    (0 <= wins (loop p lc i bars s)
     <= Z.of_nat (List.length (trades (loop p lc i bars s))))%Z.
Proof.
  induction bars as [|[price sig] bars IH]; intros i s H; cbn [loop].
  - exact H.
  - pose proof (bar_step_wins p lc i price sig s H) as K. cbv zeta in K.
    destruct (bar_step p lc i price sig s) as [s' brk]. cbn [fst] in K.
    destruct brk; [exact K | apply IH, K].
Qed.

Lemma run_wins (closes : list Q) (sigs : list Z) (p : Params) (lc : LogCtx) :
  (0 <= wins (run closes sigs p lc)
   <= Z.of_nat (List.length (trades (run closes sigs p lc))))%Z.
Proof.
  unfold run.
  pose proof (loop_wins p lc (combine closes sigs) 0%Z (init p)) as K.
  set (s := loop p lc 0 (combine closes sigs) (init p)) in *.
  assert (H : (0 <= wins s <= Z.of_nat (List.length (trades s)))%Z).
  { apply K. cbn. lia. }
  unfold force_close, close_position.
  destruct (_ && _); cbn [wins trades]; [|exact H].
  rewrite length_app; cbn [List.length]. destruct (Py.Qltb 0 _); lia.
Qed.

(** X7. The reported win rate is a percentage: between 0 and 100 for every
    price series, signal series and setting, since at most one win is counted
    for each recorded trade. *)
Theorem win_rate_is_a_percentage (sqrt : Q -> Q) (closes : list Q)
    (sigs : list Z) (p : Params) (lc : LogCtx) :
  let m := metrics (summarize sqrt p (run closes sigs p lc)) in
  0 <= Win_Rate_pct m /\ Win_Rate_pct m <= 100.
Proof.
  cbn [summarize metrics Win_Rate_pct].
  pose proof (run_wins closes sigs p lc) as [W0 W1].
  set (s := run closes sigs p lc) in *.
  set (n := Z.of_nat (List.length (trades s))) in *.
  destruct (Z.ltb_spec 0 n) as [P | _]; [|split; [apply Qle_refl | discriminate]].
  assert (N : 0 < inject_Z n).
  { change 0 with (inject_Z 0). rewrite <- Zlt_Qlt. exact P. }
  assert (A : 0 <= inject_Z (wins s)).
  { change 0 with (inject_Z 0). rewrite <- Zle_Qle. exact W0. }
  assert (B : inject_Z (wins s) <= inject_Z n).
  { rewrite <- Zle_Qle. exact W1. }
  split.
  - apply Qmult_le_0_compat; [|discriminate].
    apply Qle_shift_div_l; [exact N|]. rewrite Qmult_0_l. exact A.
  - setoid_replace 100 with (1 * 100) at 2 by ring.
    apply Qmult_le_compat_r; [|discriminate].
    apply Qle_shift_div_r; [exact N|]. rewrite Qmult_1_l. exact B.
Qed.

(** *** What the log shows *)

Lemma opened_app (l l' : list log_event) :
  opened (l ++ l') = (opened l + opened l')%nat.
Proof. unfold opened. rewrite filter_app. apply length_app. Qed.

Lemma closed_app (l l' : list log_event) :
  closed (l ++ l') = (closed l + closed l')%nat.
Proof. unfold closed. rewrite filter_app. apply length_app. Qed.

Lemma Qltb_zero (x : Q) : x == 0 -> Py.Qltb 0 x = false.
Proof. intro E. apply Qltb_ge. rewrite E. apply Qle_refl. Qed.

(** In a logged run the log has an opening for every trade made or under
    way, and a closing for every trade made. *)
Lemma bar_step_log (p : Params) (lc : LogCtx) (i : Z) (price : Q) (sig : Z)
    (s : Loop) :
  log lc = true ->
  opened (emitted s)
  = (List.length (trades s) + if Py.Qltb 0 (Engine.position s) then 1 else 0)%nat
  /\ closed (emitted s) = List.length (trades s) ->
  let s' := fst (bar_step p lc i price sig s) in
  opened (emitted s')
  = (List.length (trades s') + if Py.Qltb 0 (Engine.position s') then 1 else 0)%nat
  /\ closed (emitted s') = List.length (trades s').
Proof.
  intros LG [O C].
  destruct (bar_step_cases p lc i price sig s)
    as [(_ & E) | [(_ & _ & Z0 & _ & E) | [(_ & _ & P0 & _ & E) | (_ & _ & _ & E)]]];
    rewrite E; cbn [fst].
  - unfold stop, emit. rewrite LG.
    cbn [emitted trades Engine.position mark].
    rewrite opened_app, closed_app, O, C. cbn. lia.
  - apply Qltb_zero in Z0. rewrite Z0 in O.
    unfold buy.
    destruct (Qle_bool _ 0);
      [cbn [emitted trades Engine.position mark]; rewrite Z0; auto|].
    match goal with
    | |- context [if Py.Qltb 0 ?q then emit _ _ _ else _] =>
        destruct (Py.Qltb 0 q) eqn:QP
    end;
      [|cbn [emitted trades Engine.position mark]; rewrite Z0; auto].
    unfold emit. rewrite LG. cbn [emitted trades Engine.position mark].
    rewrite QP, opened_app, closed_app, O, C. cbn. lia.
  - apply Qltb_lt in P0. rewrite P0 in O.
    unfold sell, emit, close_position. rewrite LG.
    cbn [emitted trades Engine.position mark].
    rewrite opened_app, closed_app, O, C, length_app. cbn. lia.
  - cbn [emitted trades Engine.position mark]. auto.
Qed.

Lemma loop_log (p : Params) (lc : LogCtx) (bars : list (Q * Z)) :
  log lc = true ->
  forall i s,
    opened (emitted s)
    = (List.length (trades s) + if Py.Qltb 0 (Engine.position s) then 1 else 0)%nat
    /\ closed (emitted s) = List.length (trades s) ->
    let s' := loop p lc i bars s in
    opened (emitted s')
    = (List.length (trades s') + if Py.Qltb 0 (Engine.position s') then 1 else 0)%nat
    /\ closed (emitted s') = List.length (trades s').
Proof.
  intro LG.
  induction bars as [|[price sig] bars IH]; intros i s H; cbn [loop].
  - exact H.
  - pose proof (bar_step_log p lc i price sig s LG H) as K. cbv zeta in K.
    destruct (bar_step p lc i price sig s) as [s' brk]. cbn [fst] in K.
    destruct brk; [exact K | apply IH, K].
Qed.

(** X8. With a logger, the number of trades reported is the number of
    [position.opened] records: every entry ends up as a trade, the last one
    through the forced close at the last price when it is still open.  That
    forced close is not logged: the [position.closed] records are as many, or
    one fewer. *)
Theorem every_entry_becomes_a_trade (sqrt : Q -> Q) (closes : list Q)
    (signals : list (option Z)) (p : Params) (lc : LogCtx)
    (r : SimResult) (evs : list log_event) :
  log lc = true ->
  simulate_long_only sqrt closes signals p lc = Some (r, evs) ->
  num_Trades (metrics r) = Z.of_nat (opened evs)
  /\ (closed evs = opened evs \/ S (closed evs) = opened evs).
Proof.
  intros LG.
  unfold simulate_long_only.
  destruct (align_signals closes signals) as [sigs|]; [|discriminate].
  intro E. injection E as <- <-.
  cbn [summarize metrics num_Trades]. unfold run.
  assert (I0 : opened (emitted (init p))
               = (List.length (trades (init p))
                  + if Py.Qltb 0 (Engine.position (init p)) then 1 else 0)%nat
               /\ closed (emitted (init p)) = List.length (trades (init p))).
  { split; reflexivity. }
  pose proof (loop_log p lc (combine closes sigs) LG 0%Z (init p) I0) as [O C].
  cbv zeta in O, C.
  assert (NE : closes = [] ->
               Py.Qltb 0 (Engine.position
                            (loop p lc 0 (combine closes sigs) (init p)))
               = false).
  { intros ->. reflexivity. }
  set (s := loop p lc 0 (combine closes sigs) (init p)) in *.
  unfold force_close.
  destruct (Py.Qltb 0 (Engine.position s)) eqn:P0; cbn [andb].
  - destruct closes as [|c closes]; [discriminate (NE eq_refl)|].
    cbn [List.length Z.of_nat Z.ltb Z.compare].
    cbn [trades emitted close_position]. rewrite length_app, O, C.
    cbn [List.length]. split; [reflexivity | right; lia].
  - rewrite O, C. split; [f_equal; lia | left; lia].
Qed.

Lemma every_entry_becomes_a_trade_witness :
  exists r evs,
    simulate_long_only (fun x => x) [10; 12] [Some 1%Z; None]
      (mkParams 100 0 0 1 0%Z None) (mkLogCtx true None None) = Some (r, evs)
    /\ num_Trades (metrics r) = Z.of_nat (opened evs).
Proof.
  eexists. eexists. split; [reflexivity|].
  refine (proj1 (every_entry_becomes_a_trade (fun x => x) [10; 12]
                   [Some 1%Z; None] (mkParams 100 0 0 1 0%Z None)
                   (mkLogCtx true None None) _ _ eq_refl eq_refl)).
Defined.

(** *** Costs *)

Lemma buy_equity (p : Params) (lc : LogCtx) (i : Z) (price : Q) (s : Loop) :
  0 <= fee p -> 0 <= slippage p -> 0 <= price -> Engine.position s == 0 ->
  equity_at price (buy p lc i price s) <= equity_at price s.
Proof.
  intros F S P Z0. unfold buy. cbv zeta.
  destruct (Qle_bool (price * (1 + slippage p)) 0) eqn:B; [apply Qle_refl|].
  match goal with
  | |- context [if Py.Qltb 0 ?q then emit _ _ _ else _] =>
      destruct (Py.Qltb 0 q) eqn:QP
  end; [|apply Qle_refl].
  unfold equity_at. rewrite emit_position.
  unfold emit. destruct (log lc); cbn [cash_bal Engine.position].
  all: set (bp := price * (1 + slippage p)) in *.
  all: set (q := cash_bal s * Engine.max_fraction p / bp) in *.
  all: apply Qltb_lt in QP.
  all: rewrite Z0.
  all: assert (BP : price <= bp) by (unfold bp; nra).
  all: assert (B0 : 0 <= bp) by lra.
  all: assert (H1 : q * price <= q * bp) by (apply Qmult_le_l; assumption).
  all: assert (H2 : 0 <= q * bp * fee p)
    by (apply Qmult_le_0_compat; [apply Qmult_le_0_compat; lra | assumption]).
  all: lra.
Qed.

Lemma sell_equity (p : Params) (lc : LogCtx) (i : Z) (price : Q) (s : Loop) :
  0 <= fee p -> fee p <= 1 -> 0 <= slippage p -> 0 <= price ->
  0 <= Engine.position s ->
  equity_at price (sell p lc i price s) <= equity_at price s.
Proof.
  intros F F1 S P P0. unfold sell, equity_at. rewrite emit_position.
  unfold emit, close_position. destruct (log lc); cbn [cash_bal Engine.position].
  all: set (sp := price * (1 - slippage p)) in *.
  all: set (q := Engine.position s) in *.
  all: assert (SP : sp <= price) by (unfold sp; nra).
  all: assert (H1 : q * sp <= q * price)
    by (rewrite (Qmult_comm q sp), (Qmult_comm q price);
        apply Qmult_le_compat_r; assumption).
  all: assert (H0 : 0 <= q * price) by (apply Qmult_le_0_compat; assumption).
  all: generalize dependent (q * sp); generalize dependent (q * price).
  all: intros m M n N.
  all: destruct (Qlt_le_dec n 0) as [L | L].
  all: try (assert (H2 : 0 <= (- n) * (1 - fee p))
              by (apply Qmult_le_0_compat; lra); lra).
  all: assert (H2 : 0 <= n * fee p) by (apply Qmult_le_0_compat; lra); lra.
Qed.


(** X9. Trading never adds equity: with a fee between 0 and 1, a slippage
    and a price that are not negative, the equity of the account marked at
    the price of the bar is, after the bar, at most what it was before. *)
Theorem trade_never_adds_equity (p : Params) (lc : LogCtx) (i : Z) (price : Q)
    (sig : Z) (s : Loop) :
  0 <= fee p -> fee p <= 1 -> 0 <= slippage p -> 0 <= price ->
  0 <= Engine.position s ->
  equity_at price (fst (bar_step p lc i price sig s)) <= equity_at price s.
Proof.
  intros F F1 S P P0.
  destruct (bar_step_cases p lc i price sig s)
    as [(_ & E) | [(_ & _ & Z0 & _ & E) | [(_ & _ & _ & _ & E) | (_ & _ & _ & E)]]];
    rewrite E; cbn [fst].
  - unfold equity_at, stop, emit. destruct (log lc); apply Qle_refl.
  - exact (buy_equity p lc i price (mark price s) F S P Z0).
  - exact (sell_equity p lc i price (mark price s) F F1 S P P0).
  - apply Qle_refl.
Qed.

Lemma trade_never_adds_equity_witness :
  let p := mkParams 100 (1 # 100) (1 # 100) 1 0%Z None in
  equity_at 10 (fst (bar_step p quiet 0 10 1 (init p)))
  <= equity_at 10 (init p).
Proof.
  intro p.
  apply (trade_never_adds_equity p quiet 0 10 1 (init p)); vm_compute;
    intro H; discriminate H.
Defined.

(** X10. With no fee and no slippage a bar's trade is made at the marked
    price and costs nothing: the equity of the account at the price of the
    bar is the same after the bar as before. *)
Theorem costless_trade_keeps_equity (p : Params) (lc : LogCtx) (i : Z)
    (price : Q) (sig : Z) (s : Loop) :
  fee p == 0 -> slippage p == 0 ->
  equity_at price (fst (bar_step p lc i price sig s)) == equity_at price s.
Proof.
  intros F S.
  destruct (bar_step_cases p lc i price sig s)
    as [(_ & E) | [(_ & _ & Z0 & _ & E) | [(_ & _ & _ & _ & E) | (_ & _ & _ & E)]]];
    rewrite E; cbn [fst].
  - unfold equity_at, stop, emit. destruct (log lc); reflexivity.
  - unfold buy. cbv zeta. cbn [Engine.position cash_bal mark] in *.
    destruct (Qle_bool _ 0); [reflexivity|].
    match goal with
    | |- context [if Py.Qltb 0 ?q then emit _ _ _ else _] =>
        set (qty := q); destruct (Py.Qltb 0 qty)
    end; [|reflexivity].
    unfold equity_at. rewrite emit_position.
    unfold emit. destruct (log lc); cbn [cash_bal Engine.position];
      rewrite F, S, Z0; ring.
  - unfold sell, equity_at. rewrite emit_position.
    unfold emit, close_position.
    destruct (log lc); cbn [cash_bal Engine.position mark];
      rewrite F, S; ring.
  - reflexivity.
Qed.

Lemma costless_trade_keeps_equity_witness :
  let p := mkParams 100 0 0 (1 # 2) 0%Z None in
  equity_at 10 (fst (bar_step p quiet 0 10 1 (init p)))
  == equity_at 10 (init p).
Proof.
  intro p.
  apply (costless_trade_keeps_equity p quiet 0 10 1 (init p)); reflexivity.
Defined.

(** *** Maximum drawdown *)

Lemma cummax_from_above (l : list Q) :
  forall pk,
    0 < pk -> Forall (fun e => 0 < e) l ->
    Forall (fun ep => 0 < fst ep /\ fst ep <= snd ep)
           (combine l (cummax_from pk l)).
Proof.
  induction l as [|x l IH]; intros pk P H; cbn [cummax_from combine].
  - constructor.
  - inversion H as [|? ? X L]; subst. constructor.
    + cbn [fst snd]. split; [exact X | apply py_max_ge_r].
    + apply IH; [|exact L].
      apply Qlt_le_trans with pk; [exact P | apply py_max_ge_l].
Qed.

Lemma fold_min_in (P : Q -> Prop) (l : list Q) :
  forall a, P a -> Forall P l -> P (fold_left Py.min l a).
Proof.
  induction l as [|x l IH]; intros a A H; cbn [fold_left].
  - exact A.
  - inversion H as [|? ? X L]; subst. apply IH; [|exact L].
    unfold Py.min. destruct (Py.Qltb x a); assumption.
Qed.

Lemma drawdown_ratio (e pk : Q) :
  0 < e -> e <= pk -> -1 < (e - pk) / pk /\ (e - pk) / pk <= 0.
Proof.
  intros E L. assert (P : 0 < pk) by lra. split.
  - apply Qlt_shift_div_l; [exact P | lra].
  - apply Qle_shift_div_r; [exact P | lra].
Qed.

(** X11. The maximum drawdown of an equity series whose points are all
    positive is a loss percentage: above -100 and at most 0. *)
Theorem max_drawdown_is_a_loss_percentage (equity : list Q) :
  Forall (fun e => 0 < e) equity ->
  -100 < _max_drawdown equity /\ _max_drawdown equity <= 0.
Proof.
  intro H. unfold _max_drawdown. cbv zeta.
  destruct equity as [|x l]; [split; [reflexivity | discriminate]|].
  inversion H as [|? ? X L]; subst.
  cbn [cummax combine map fst snd series_min].
  pose proof (cummax_from_above l x X L) as A.
  assert (B : Forall (fun d => -1 < d /\ d <= 0)
                (map (fun ep => (fst ep - snd ep) / snd ep)
                     (combine l (cummax_from x l)))).
  { apply Forall_map. eapply Forall_impl; [|exact A].
    intros [e pk] [E K]. apply drawdown_ratio; assumption. }
  pose proof (fold_min_in (fun d => -1 < d /\ d <= 0) _ ((x - x) / x)
                (drawdown_ratio x x X (Qle_refl x)) B) as [M1 M2].
  split; lra.
Qed.

Lemma max_drawdown_is_a_loss_percentage_witness :
  -100 < _max_drawdown [100; 50; 75] /\ _max_drawdown [100; 50; 75] <= 0.
Proof.
  apply (max_drawdown_is_a_loss_percentage [100; 50; 75]).
  repeat constructor.
Defined.

(** ** The REST call as a whole *)

Section RequestOutcome.

Variable R : Type.
Variable env : nat -> attempt R.
Variable jitter : nat -> Q.

(** The attempts up to the first one that is not retried. *)
Lemma first_not_retried (left : nat) :
  (forall k, (k < left)%nat -> retryable (env k) = true)
  \/ exists n, (n < left)%nat
               /\ (forall k, (k < n)%nat -> retryable (env k) = true)
               /\ retryable (env n) = false.
Proof.
  induction left as [|left [All | (n & L & B & N)]].
  - left. intros k K. lia.
  - destruct (retryable (env left)) eqn:E.
    + left. intros k K.
      destruct (Nat.eq_dec k left) as [-> | D]; [exact E | apply All; lia].
    + right. exists left. repeat split; [lia | exact All | exact E].
  - right. exists n. repeat split; [lia | exact B | exact N].
Qed.

Lemma request_stops_at (max_retries : nat) :
  exists n,
    (n <= max_retries)%nat
    /\ (forall k, (k < n)%nat -> retryable (env k) = true)
    /\ snd (_request R env jitter max_retries)
       = map (fun k => wait_of (backoff_at k) (env k) (jitter k)) (seq 0 n)
    /\ ((n = max_retries
         /\ fst (_request R env jitter max_retries)
            = Raised RateLimitError exceeded_retry_limit)
        \/ (n < max_retries)%nat
           /\ ((exists r, env n = Success r
                          /\ fst (_request R env jitter max_retries) = Returned r)
               \/ exists status raf,
                   env n = HTTPStatusError status raf
                   /\ retry_status status = false
                   /\ fst (_request R env jitter max_retries)
                      = Raised (_raise_http_error status) (from_response status))).
Proof.
  destruct (first_not_retried max_retries) as [All | (n & L & B & N)].
  - exists max_retries. rewrite (request_exhausted R env jitter _ All).
    repeat split; [lia | exact All | left; split; reflexivity].
  - exists n. split; [lia|]. split; [exact B|].
    destruct (env n) as [r | status raf |] eqn:E; cbn [retryable] in N.
    + rewrite (request_success R env jitter max_retries n r L B E).
      split; [reflexivity|]. right. split; [exact L|]. left. exists r. auto.
    + rewrite (request_not_retried R env jitter max_retries n status raf L B E N).
      split; [reflexivity|]. right. split; [exact L|]. right.
      exists status, raf. auto.
    + discriminate N.
Qed.

(** X12. Whatever the server and the network do, a REST call makes at most
    [max_retries] attempts, sleeps once after each failure it retries and
    at no other time, and ends in one of three ways: the response of the
    first attempt that succeeds is returned; the first status that is not
    retried raises the error of its class; or, after [max_retries] failures
    that were all retried, the retry-limit error is raised. *)
Theorem request_ends_in_one_of_three_ways (max_retries : nat) :
  exists n,
    (n <= max_retries)%nat
    /\ (forall k, (k < n)%nat -> retryable (env k) = true)
    /\ List.length (snd (_request R env jitter max_retries)) = n
    /\ ((n = max_retries
         /\ fst (_request R env jitter max_retries)
            = Raised RateLimitError exceeded_retry_limit)
        \/ (n < max_retries)%nat
           /\ ((exists r, env n = Success r
                          /\ fst (_request R env jitter max_retries) = Returned r)
               \/ exists status raf,
                   env n = HTTPStatusError status raf
                   /\ ~ In status [429; 500; 502; 503; 504]%Z
                   /\ fst (_request R env jitter max_retries)
                      = Raised (_raise_http_error status) (from_response status))).
Proof.
  destruct (request_stops_at max_retries) as (n & L & B & W & C).
  exists n. split; [exact L|]. split; [exact B|].
  split; [rewrite W, length_map, length_seq; reflexivity|].
  destruct C as [C | [L' [C | (status & raf & E & NR & C)]]]; auto.
  right. split; [exact L'|]. right. exists status, raf.
  split; [exact E|]. split; [|exact C].
  intro I. apply retry_status_iff in I. congruence.
Qed.

End RequestOutcome.

Lemma backoff_at_bounds (k : nat) : 1 # 2 <= backoff_at k /\ backoff_at k <= 8.
Proof.
  induction k as [|k [L U]]; [split; discriminate|].
  unfold backoff_at in *. rewrite Nat.iter_succ.
  set (b := Nat.iter k _ _) in *. split.
  - apply Q.min_glb; [lra | discriminate].
  - apply Q.le_min_r.
Qed.

Lemma wait_of_bounds (R : Type) (b u : Q) (a : attempt R) :
  1 # 2 <= b -> b <= 8 -> 0 <= u -> u <= 1 ->
  retryable a = true ->
  (forall status ra, a = HTTPStatusError status (Some ra) -> ra <= 8) ->
  1 # 2 <= wait_of b a u /\ wait_of b a u <= 96 # 10.
Proof.
  intros L U U0 U1 RT RA.
  destruct a as [r | status [ra|] |]; cbn [wait_of retryable] in *.
  - discriminate RT.
  - specialize (RA status ra eq_refl).
    pose proof (Q.le_max_l b ra) as M1.
    assert (M2 : Qmax b ra <= 8) by (apply Q.max_lub; assumption).
    set (m := Qmax b ra) in *.
    assert (P : 0 <= m * u) by (apply Qmult_le_0_compat; lra).
    assert (P' : m * u <= 8 * 1).
    { apply Qle_trans with (m * 1).
      - rewrite !(Qmult_comm m). apply Qmult_le_compat_r; lra.
      - apply Qmult_le_compat_r; lra. }
    assert (E : m * (1 + (2 # 10) * u) == m + (2 # 10) * (m * u)) by ring.
    rewrite E. split; lra.
  - pose proof (Q.le_max_l b 0) as M1.
    assert (M2 : Qmax b 0 <= 8) by (apply Q.max_lub; lra).
    set (m := Qmax b 0) in *.
    assert (P : 0 <= m * u) by (apply Qmult_le_0_compat; lra).
    assert (P' : m * u <= 8 * 1).
    { apply Qle_trans with (m * 1).
      - rewrite !(Qmult_comm m). apply Qmult_le_compat_r; lra.
      - apply Qmult_le_compat_r; lra. }
    assert (E : m * (1 + (2 # 10) * u) == m + (2 # 10) * (m * u)) by ring.
    rewrite E. split; lra.
  - split; lra.
Qed.

(** X13. With a jitter in [0, 1] and a server whose Retry-After values do
    not exceed eight seconds, a REST call sleeps at most [max_retries]
    times, each time between 0.5 and 9.6 seconds. *)
Theorem request_sleeps_are_bounded (R : Type) (env : nat -> attempt R)
    (jitter : nat -> Q) (max_retries : nat) :
  (forall k, 0 <= jitter k /\ jitter k <= 1) ->
  (forall k status ra, env k = HTTPStatusError status (Some ra) -> ra <= 8) ->
  (List.length (snd (_request R env jitter max_retries)) <= max_retries)%nat
  /\ Forall (fun w => 1 # 2 <= w /\ w <= 96 # 10)
            (snd (_request R env jitter max_retries)).
Proof.
  intros J RA.
  destruct (request_stops_at R env jitter max_retries)
    as (n & L & B & -> & _).
  split.
  - rewrite length_map, length_seq. exact L.
  - apply Forall_map, Forall_forall. intros k K. apply in_seq in K.
    destruct (backoff_at_bounds k) as [B1 B2].
    apply wait_of_bounds; try assumption; try apply J.
    + apply B. lia.
    + intros status ra E. exact (RA k status ra E).
Qed.

Lemma request_sleeps_are_bounded_witness :
  Forall (fun w => 1 # 2 <= w /\ w <= 96 # 10)
         (snd (_request unit always_503 (fun _ => 1 # 2) MAX_RETRIES)).
Proof.
  refine (proj2 (request_sleeps_are_bounded unit always_503 (fun _ => 1 # 2)
                   MAX_RETRIES _ _)).
  - intro k. split; discriminate.
  - intros k status ra E. injection E as _ <-. discriminate.
Defined.

(** ** The orders of the live loops *)

Section LoopOrders.

Variable c : Collaborators.

Lemma submit_orders (pf : Portfolio c) (req : Broker.OrderRequest) :
  orders c (fst (submit c pf req)) = orders c pf ++ [req].
Proof. exact (proj1 (proj2 (proj2 (submit_cases c pf req)))). Qed.

Lemma decide_order_shapes (cfg : Config) (pf : Portfolio c) (st : MarketState)
    (row : Bar) (price : Q) :
  exists new,
    orders c (fst (decide c cfg pf st row price)) = orders c pf ++ new
    /\ Forall loop_order new.
Proof.
  unfold decide. cbv zeta.
  set (st1 := update_trail c cfg _).
  set (s_val := Py.last_or _ _).
  set (close_px := Py.last_or _ _).
  destruct (do_exit st1 s_val close_px).
  - exists [sell_order (market st1) (coin_qty st1)].
    split; [apply exit_position_sells|].
    constructor; [|constructor]. eexists. eexists. left. reflexivity.
  - destruct (partial_tp_sells c cfg pf st1 s_val close_px) as [E | E].
    + rewrite E.
      destruct (entry_only_when_flat c cfg pf st1 s_val
                  (in_windows c (timestamp row)) close_px)
        as [E2 | (_ & _ & funds & E2)].
      * rewrite E2. exists []. rewrite app_nil_r. split; [reflexivity|constructor].
      * exists [buy_order (market st1) funds]. split; [exact E2|].
        constructor; [|constructor]. eexists. eexists. right. reflexivity.
    + destruct (partial_tp c cfg pf st1 s_val close_px) as [pf2 st2] eqn:P.
      cbn [fst] in E.
      destruct (entry_only_when_flat c cfg pf2 st2 s_val
                  (in_windows c (timestamp row)) close_px)
        as [E2 | (_ & _ & funds & E2)].
      * rewrite E2. cbn [fst]. eexists. split; [exact E|].
        constructor; [|constructor]. eexists. eexists. left. reflexivity.
      * rewrite E2, E, <- app_assoc. eexists. split; [reflexivity|].
        constructor; [|constructor; [|constructor]];
          eexists; eexists; [left | right]; reflexivity.
Qed.

Lemma on_event_order_shapes (cfg : Config) (pf pf' : Portfolio c)
    (ev : ws_event) (ctl : control) :
  on_event c cfg pf ev = (pf', ctl) ->
  exists new, orders c pf' = orders c pf ++ new /\ Forall loop_order new.
Proof.
  intro H.
  destruct (on_event_shape c cfg pf pf' ev ctl H)
    as [(_ & O & _) | (st0 & a & _ & [-> | (row & price & ->)])].
  - exists []. rewrite app_nil_r. split; [exact O | constructor].
  - exists []. rewrite app_nil_r. split; [reflexivity | constructor].
  - unfold on_bar.
    destruct (decide_order_shapes cfg (touched pf st0 a) (set_agg st0 a)
                row price) as (new & O & F).
    destruct (decide c cfg (touched pf st0 a) (set_agg st0 a) row price)
      as [pf2 st2].
    exists new. split; [exact O | exact F].
Qed.

Lemma trade1_orders (su : Setup) (s : Single c) (req : Broker.OrderRequest)
    (d : Q) :
  l_orders c (trade1 c su s req d) = l_orders c s ++ [req].
Proof.
  unfold trade1.
  destruct (place_order c (l_world c s) req) as [w1 [uuid|]]; [|reflexivity].
  destruct (get_accounts c _) as [w3 [accts|]]; reflexivity.
Qed.

(** The single-market loop places at most one order a bar. *)
Lemma on_bar1_orders (su : Setup) (s : Single c) (row : Bar) :
  l_orders c (on_bar1 c su s row) = l_orders c s
  \/ (exists funds,
        l_orders c (on_bar1 c su s row)
        = l_orders c s ++ [buy_order (s_market su) funds])
  \/ l_orders c (on_bar1 c su s row)
     = l_orders c s ++ [sell_order (s_market su) (l_coin_qty c s)].
Proof.
  unfold on_bar1. cbv zeta.
  repeat match goal with
         | |- context [if ?b then _ else _] => destruct b
         end;
    rewrite ?trade1_orders; cbn [l_orders l_coin_qty]; eauto.
Qed.

Lemma on_event1_order_shapes (su : Setup) (s s' : Single c) (ev : ws_event)
    (ctl : control) :
  on_event1 c su s ev = (s', ctl) ->
  exists new, l_orders c s' = l_orders c s ++ new /\ Forall loop_order new
              /\ (List.length new <= 1)%nat.
Proof.
  assert (Z0 : forall x : Single c,
             l_orders c x = l_orders c s ->
             exists new, l_orders c x = l_orders c s ++ new
                         /\ Forall loop_order new /\ (List.length new <= 1)%nat).
  { intros x E. exists []. rewrite app_nil_r.
    repeat split; [exact E | constructor | cbn; lia]. }
  intro H. destruct ev as [| | ok | raw]; cbn [on_event1] in H.
  - injection H as <- _. apply Z0. reflexivity.
  - injection H as <- _. apply Z0. reflexivity.
  - injection H as <- _. apply Z0. reflexivity.
  - destruct (json_loads c raw) as [d|];
      [|injection H as <- _; apply Z0; reflexivity].
    destruct (_parse_trade1 c d) as [[[ts price] vol]|];
      [|injection H as <- _; apply Z0; reflexivity].
    unfold on_trade1 in H.
    destruct (update (l_agg c s) ts price vol) as [a row].
    cbv zeta in H. cbn [l_krw_bal l_coin_qty l_start_equity] in H.
    destruct (_ && _ && _) in H; [injection H as <- _; apply Z0; reflexivity|].
    destruct row as [r|]; injection H as <- _; [|apply Z0; reflexivity].
    match goal with
    | |- context [on_bar1 c su ?x r] =>
        destruct (on_bar1_orders su x r) as [E | [(funds & E) | E]];
          rewrite E; cbn [l_orders l_coin_qty]
    end.
    + exists []. rewrite app_nil_r. repeat split; [constructor | cbn; lia].
    + eexists. split; [reflexivity|]. split; [|cbn; lia].
      constructor; [|constructor]. eexists. eexists. right. reflexivity.
    + eexists. split; [reflexivity|]. split; [|cbn; lia].
      constructor; [|constructor]. eexists. eexists. left. reflexivity.
Qed.

End LoopOrders.

Lemma loop_order_accepted (fmt : Q -> string) (uuid4 : string)
    (b : Orders.UpbitBroker) (o : OrderRequest) :
  Orders._require_keys b = false -> loop_order o ->
  exists posted, Orders.place_order fmt uuid4 b o = inr posted.
Proof.
  intros K (m & q & [-> | ->]); unfold Orders.place_order; rewrite K;
    eexists; reflexivity.
Qed.

(** X14. The orders of the live loops pass the checks of [place_order]:
    with both API keys set, every order a message makes either loop hand to
    the broker is posted, none is refused for its fields; a sell goes out as
    a market order of side ask carrying the volume only, a buy as a price
    order of side bid carrying the amount only, each with a fresh
    identifier. *)
Theorem loop_orders_pass_validation (fmt : Q -> string) (uuid4 : string)
    (b : Orders.UpbitBroker) (c : Collaborators) :
  Orders._require_keys b = false ->
  (forall cfg pf pf' ev ctl,
      on_event c cfg pf ev = (pf', ctl) ->
      exists new,
        orders c pf' = orders c pf ++ new
        /\ Forall (fun o => exists posted,
                      Orders.place_order fmt uuid4 b o = inr posted) new)
  /\ (forall su s s' ev ctl,
      on_event1 c su s ev = (s', ctl) ->
      exists new,
        l_orders c s' = l_orders c s ++ new
        /\ Forall (fun o => exists posted,
                      Orders.place_order fmt uuid4 b o = inr posted) new)
  /\ (forall m q,
      Orders.place_order fmt uuid4 b (sell_order m q)
      = inr ([("market", m); ("side", "ask"); ("ord_type", "market");
              ("volume", fmt q); ("identifier", uuid4)]%string,
             mkOrder "sell" m (Some q) None "market" (Some uuid4)))
  /\ (forall m q,
      Orders.place_order fmt uuid4 b (buy_order m q)
      = inr ([("market", m); ("side", "bid"); ("ord_type", "price");
              ("price", fmt q); ("identifier", uuid4)]%string,
             mkOrder "buy" m None (Some q) "price" (Some uuid4))).
Proof.
  intro K. repeat split.
  - intros cfg pf pf' ev ctl H.
    destruct (on_event_order_shapes c cfg pf pf' ev ctl H) as (new & O & F).
    exists new. split; [exact O|].
    eapply Forall_impl; [|exact F].
    intros o L. exact (loop_order_accepted fmt uuid4 b o K L).
  - intros su s s' ev ctl H.
    destruct (on_event1_order_shapes c su s s' ev ctl H) as (new & O & F & _).
    exists new. split; [exact O|].
    eapply Forall_impl; [|exact F].
    intros o L. exact (loop_order_accepted fmt uuid4 b o K L).
  - intros m q. unfold Orders.place_order. rewrite K. reflexivity.
  - intros m q. unfold Orders.place_order. rewrite K. reflexivity.
Qed.

Lemma loop_orders_pass_validation_witness :
  exists posted,
    Orders.place_order (fun _ => "1.0"%string) "id"%string
      (Orders.mkBroker (Some "ak"%string) (Some "sk"%string))
      (buy_order "KRW-BTC" 5000)
    = inr posted.
Proof.
  eexists.
  exact (proj2 (proj2 (proj2
           (loop_orders_pass_validation (fun _ => "1.0"%string) "id"%string
              (Orders.mkBroker (Some "ak"%string) (Some "sk"%string))
              (demo 0%Z None) eq_refl))) "KRW-BTC"%string 5000).
Defined.

(** ** The coordinator: what a message can and cannot change *)

Section CoordinatorFrame.

Variable c : Collaborators.
Variable cfg : Config.

Lemma submit_frame (pf : Portfolio c) (req : Broker.OrderRequest) :
  pf_frame (fst (submit c pf req)) = pf_frame pf.
Proof.
  unfold submit.
  destruct (place_order c (world c pf) req) as [w1 [resp|]]; [|reflexivity].
  destruct (get_accounts c w1) as [w2 accts]. reflexivity.
Qed.

Ltac framed pf req :=
  let F := fresh "F" in
  pose proof (submit_frame pf req) as F;
  destruct (submit c pf req) as [? [?|]]; cbn [fst snd] in *.

Lemma exit_position_frame (pf : Portfolio c) (st : MarketState) :
  pf_frame (fst (exit_position c pf st)) = pf_frame pf
  /\ st_frame (snd (exit_position c pf st)) = st_frame st.
Proof.
  unfold exit_position.
  framed pf (sell_order (market st) (coin_qty st)); split; auto.
Qed.

Lemma partial_tp_frame (pf : Portfolio c) (st : MarketState) (s_val : Z)
    (close_px : Q) :
  pf_frame (fst (partial_tp c cfg pf st s_val close_px)) = pf_frame pf
  /\ st_frame (snd (partial_tp c cfg pf st s_val close_px)) = st_frame st.
Proof.
  unfold partial_tp.
  destruct (_ && _ && _); [|split; reflexivity].
  destruct (_ && _ && _); [|split; reflexivity].
  framed pf (sell_order (market st) (coin_qty st * partial_tp_ratio cfg));
    split; auto.
Qed.

Lemma entry_frame (pf : Portfolio c) (st : MarketState) (s_val : Z)
    (within : bool) (close_px : Q) :
  pf_frame (fst (entry c cfg pf st s_val within close_px)) = pf_frame pf
  /\ st_frame (snd (entry c cfg pf st s_val within close_px)) = st_frame st.
Proof.
  unfold entry.
  destruct (_ && _ && _ && _); [|split; reflexivity].
  destruct (_ && _); [split; reflexivity|].
  match goal with |- context [submit c pf ?r] => framed pf r end; split; auto.
Qed.

Lemma update_trail_frame (st : MarketState) :
  st_frame (update_trail c cfg st) = st_frame st.
Proof.
  unfold update_trail. destruct (_ && _); [|reflexivity].
  destruct (atr_last _ _ _); reflexivity.
Qed.

(** A bar changes nothing of the coordinator's frame, and of the market's
    frame the data frame, the bar count and the last signal only. *)
Lemma decide_frame (pf : Portfolio c) (st : MarketState) (row : Bar)
    (price : Q) :
  pf_frame (fst (decide c cfg pf st row price)) = pf_frame pf
  /\ st_frame (snd (decide c cfg pf st row price))
     = st_frame (set_last_signal (with_bar st row)
                   (Py.last_or (signals c (df (with_bar st row))) 0%Z)).
Proof.
  unfold decide. cbv zeta.
  set (st2 := set_last_signal (with_bar st row) _).
  pose proof (update_trail_frame st2) as U.
  set (st3 := update_trail c cfg st2) in *.
  set (close_px := Py.last_or (map Close (df st3)) price).
  set (s_val := Py.last_or (signals c (df (with_bar st row))) 0%Z).
  destruct (do_exit st3 s_val close_px).
  - destruct (exit_position_frame pf st3) as [A B]. rewrite A, B. auto.
  - destruct (partial_tp_frame pf st3 s_val close_px) as [A B].
    destruct (partial_tp c cfg pf st3 s_val close_px) as [pf1 st4].
    cbn [fst snd] in A, B.
    destruct (entry_frame pf1 st4 s_val (in_windows c (timestamp row)) close_px)
      as [A' B'].
    rewrite A', B', A, B. auto.
Qed.

(** What a trade message does to the coordinator. *)
Lemma on_trade_cases (pf pf' : Portfolio c) (mkt : string) (ts : datetime)
    (price vol : Q) (ctl : control) :
  on_trade c cfg pf (mkt, ts, price, vol) = (pf', ctl) ->
  (get_state mkt (states c pf) = None /\ pf' = pf /\ ctl = Continue)
  \/ exists st a row,
      get_state mkt (states c pf) = Some st
      /\ update (agg st) ts price vol = (a, row)
      /\ ((daily_loss_breach c cfg (touched pf st a)
             (approx_equity c (touched pf st a) mkt price) = true
           /\ pf' = touched pf st a
           /\ ctl = Return (approx_equity c (touched pf st a) mkt price))
          \/ (daily_loss_breach c cfg (touched pf st a)
                (approx_equity c (touched pf st a) mkt price) = false
              /\ ctl = Continue
              /\ match row with
                 | None => pf' = touched pf st a
                 | Some r => pf' = on_bar c cfg (touched pf st a) (set_agg st a)
                                     r price
                 end)).
Proof.
  unfold on_trade. intro H.
  destruct (get_state mkt (states c pf)) as [st|] eqn:G.
  - right. destruct (update (agg st) ts price vol) as [a row] eqn:U.
    exists st, a, row. split; [reflexivity|]. split; [exact U|].
    change (set_states c pf (put_state (set_agg st a) (states c pf)))
      with (touched pf st a) in H.
    destruct (daily_loss_breach c cfg (touched pf st a) _) eqn:B.
    + left. injection H as <- <-. auto.
    + right. destruct row as [r|]; injection H as <- <-; auto.
  - left. injection H as <- <-. auto.
Qed.

Lemma on_bar_frame (pf : Portfolio c) (st : MarketState) (row : Bar)
    (price : Q) :
  start_equity c (on_bar c cfg pf st row price) = start_equity c pf
  /\ backoff c (on_bar c cfg pf st row price) = backoff c pf
  /\ states c (on_bar c cfg pf st row price)
     = put_state (snd (decide c cfg pf st row price)) (states c pf).
Proof.
  unfold on_bar.
  destruct (decide_frame pf st row price) as [A _].
  destruct (decide c cfg pf st row price) as [pf2 st2]. cbn [fst snd] in *.
  unfold pf_frame in A. injection A as A1 A2 A3.
  cbn [set_states start_equity backoff states]. rewrite A2. auto.
Qed.

Lemma on_trade_frame (pf pf' : Portfolio c) (t : string * datetime * Q * Q)
    (ctl : control) :
  on_trade c cfg pf t = (pf', ctl) ->
  start_equity c pf' = start_equity c pf /\ backoff c pf' = backoff c pf.
Proof.
  destruct t as [[[mkt ts] price] vol]. intro H.
  destruct (on_trade_cases pf pf' mkt ts price vol ctl H)
    as [(_ & -> & _) | (st & a & row & _ & _ & [(_ & -> & _) | (_ & _ & R)])];
    auto.
  destruct row as [r|]; subst pf'; auto.
  destruct (on_bar_frame (touched pf st a) (set_agg st a) r price)
    as (A & B & _).
  rewrite A, B. auto.
Qed.

Lemma on_event_frame (pf pf' : Portfolio c) (ev : ws_event) (ctl : control) :
  on_event c cfg pf ev = (pf', ctl) ->
  start_equity c pf' = start_equity c pf
  /\ (backoff c pf' = backoff c pf \/ backoff c pf' = 1 # 2).
Proof.
  intro H. destruct ev as [| | ok | raw]; cbn [on_event] in H.
  - injection H as <- _. auto.
  - injection H as <- _. auto.
  - injection H as <- _. auto.
  - destruct (json_loads c raw) as [d|]; [|injection H as <- _; auto].
    destruct (_parse_trade c d) as [t|]; [|injection H as <- _; auto].
    destruct (on_trade_frame pf pf' t ctl H) as [A B]. auto.
Qed.

(** The stop fires only under its guard. *)
Lemma on_event_return (pf pf' : Portfolio c) (ev : ws_event) (equity : Q) :
  on_event c cfg pf ev = (pf', Return equity) ->
  0 < start_equity c pf /\ 0 < max_daily_loss cfg.
Proof.
  intro H. destruct ev as [| | ok | raw]; cbn [on_event] in H;
    try discriminate H.
  - destruct ok; discriminate H.
  - destruct (json_loads c raw) as [d|]; [|discriminate H].
    destruct (_parse_trade c d) as [[[[mkt ts] price] vol]|]; [|discriminate H].
    destruct (on_trade_cases pf pf' mkt ts price vol _ H)
      as [(_ & _ & X) | (st & a & row & _ & _ & [(B & _ & _) | (_ & X & _)])];
      try discriminate X.
    unfold daily_loss_breach in B.
    apply andb_prop in B as [B _]. apply andb_prop in B as [B1 B2].
    apply Qltb_lt in B1, B2. split; [exact B1 | exact B2].
Qed.

Lemma run_portfolio_ws_no_stop (evs : list ws_event) :
  forall pf,
    max_daily_loss cfg <= 0 \/ start_equity c pf <= 0 ->
    snd (run_portfolio_ws c cfg pf evs) = None.
Proof.
  induction evs as [|ev rest IH]; intros pf off; cbn [run_portfolio_ws].
  - reflexivity.
  - destruct (on_event c cfg pf ev) as [pf' ctl] eqn:E.
    destruct (on_event_frame pf pf' ev ctl E) as [A _].
    destruct ctl as [| | equity].
    + apply IH. rewrite A. exact off.
    + apply IH. cbn [set_backoff start_equity]. rewrite A. exact off.
    + destruct (on_event_return pf pf' ev equity E) as [P1 P2].
      exfalso. destruct off as [O | O]; lra.
Qed.

Lemma min_backoff_range (b : Q) :
  1 # 2 <= b -> b <= 8 ->
  1 # 2 <= Py.min (b * 2) 8 /\ Py.min (b * 2) 8 <= 8.
Proof.
  intros L U. rewrite py_min_eq. split.
  - apply Q.min_glb; [lra | discriminate].
  - apply Q.le_min_r.
Qed.

Lemma run_portfolio_ws_backoff (evs : list ws_event) :
  forall pf,
    1 # 2 <= backoff c pf /\ backoff c pf <= 8 ->
    1 # 2 <= backoff c (fst (run_portfolio_ws c cfg pf evs))
    /\ backoff c (fst (run_portfolio_ws c cfg pf evs)) <= 8.
Proof.
  induction evs as [|ev rest IH]; intros pf [L U]; cbn [run_portfolio_ws].
  - auto.
  - destruct (on_event c cfg pf ev) as [pf' ctl] eqn:E.
    destruct (on_event_frame pf pf' ev ctl E) as [_ B].
    assert (R : 1 # 2 <= backoff c pf' /\ backoff c pf' <= 8).
    { destruct B as [-> | ->]; [auto | split; discriminate]. }
    destruct ctl as [| | equity].
    + apply IH, R.
    + apply IH. cbn [set_backoff backoff].
      apply min_backoff_range; apply R.
    + exact R.
Qed.

Lemma failed_connections_backoff (k : nat) :
  forall pf,
    backoff c (fst (run_portfolio_ws c cfg pf (repeat ConnectFailed k)))
    = Nat.iter k (fun b => Qmin (b * 2) 8) (backoff c pf).
Proof.
  induction k as [|k IH]; intro pf; [reflexivity|].
  cbn [repeat run_portfolio_ws on_event]. rewrite IH.
  cbn [set_backoff backoff]. rewrite py_min_eq, Nat.iter_succ_r. reflexivity.
Qed.

End CoordinatorFrame.

(** ** The single-market loop *)

Section SingleFrame.

Variable c : Collaborators.
Variable su : Setup.

(** What a message does to the single-market loop. *)
Lemma on_event1_cases (s s' : Single c) (ev : ws_event) (ctl : control) :
  on_event1 c su s ev = (s', ctl) ->
  (decision_state1 c s' = decision_state1 c s
   /\ (l_backoff c s' = l_backoff c s \/ l_backoff c s' = 1 # 2)
   /\ (ctl = Continue \/ ctl = Reconnect))
  \/ exists ts price vol a row,
      update (l_agg c s) ts price vol = (a, row)
      /\ ((daily_loss_breach1 su (touched1 s a) price = true
           /\ s' = touched1 s a
           /\ ctl = Return (l_krw_bal c s + l_coin_qty c s * price))
          \/ (daily_loss_breach1 su (touched1 s a) price = false
              /\ ctl = Continue
              /\ match row with
                 | None => s' = touched1 s a
                 | Some r => s' = on_bar1 c su (touched1 s a) r
                 end)).
Proof.
  intro H. destruct ev as [| | ok | raw]; cbn [on_event1] in H.
  - left. injection H as <- <-. auto.
  - left. injection H as <- <-. auto.
  - left. injection H as <- <-. destruct ok; auto.
  - destruct (json_loads c raw) as [d|]; [|left; injection H as <- <-; auto].
    destruct (_parse_trade1 c d) as [[[ts price] vol]|];
      [|left; injection H as <- <-; auto].
    right. unfold on_trade1 in H.
    destruct (update (l_agg c s) ts price vol) as [a row] eqn:U.
    exists ts, price, vol, a, row. split; [exact U|].
    assert (H' : (if daily_loss_breach1 su (touched1 s a) price
                  then (touched1 s a,
                        Return (l_krw_bal c s + l_coin_qty c s * price))
                  else match row with
                       | Some r => (on_bar1 c su (touched1 s a) r, Continue)
                       | None => (touched1 s a, Continue)
                       end) = (s', ctl)) by exact H.
    clear H. rename H' into H.
    destruct (daily_loss_breach1 su (touched1 s a) price).
    + left. injection H as <- <-. auto.
    + right. destruct row as [r|]; injection H as <- <-; auto.
Qed.

Lemma trade1_frame (s : Single c) (req : Broker.OrderRequest) (d : Q) :
  l_start_equity c (trade1 c su s req d) = l_start_equity c s
  /\ l_backoff c (trade1 c su s req d) = l_backoff c s
  /\ l_bars c (trade1 c su s req d) = l_bars c s
  /\ l_df c (trade1 c su s req d) = l_df c s.
Proof.
  unfold trade1.
  destruct (place_order c (l_world c s) req) as [w1 [uuid|]]; [|auto].
  destruct (get_accounts c _) as [w3 [accts|]]; auto.
Qed.

Lemma on_bar1_frame (s : Single c) (row : Bar) :
  l_start_equity c (on_bar1 c su s row) = l_start_equity c s
  /\ l_backoff c (on_bar1 c su s row) = l_backoff c s
  /\ l_bars c (on_bar1 c su s row) = (l_bars c s + 1)%Z.
Proof.
  unfold on_bar1. cbv zeta.
  repeat match goal with
         | |- context [if ?b then _ else _] => destruct b
         end;
    try (repeat split; reflexivity);
    match goal with
    | |- context [trade1 c su ?x ?r ?d] =>
        destruct (trade1_frame x r d) as (A & B & C & _);
          rewrite A, B, C; repeat split; reflexivity
    end.
Qed.

Lemma on_event1_frame (s s' : Single c) (ev : ws_event) (ctl : control) :
  on_event1 c su s ev = (s', ctl) ->
  l_start_equity c s' = l_start_equity c s
  /\ (l_backoff c s' = l_backoff c s \/ l_backoff c s' = 1 # 2)
  /\ (forall equity, ctl = Return equity ->
                     0 < l_start_equity c s /\ 0 < s_max_daily_loss su).
Proof.
  intro H.
  destruct (on_event1_cases s s' ev ctl H)
    as [(D & B & C)
       | (ts & price & vol & a & row & _ & [(B & -> & ->) | (_ & -> & R)])].
  - unfold decision_state1 in D. injection D as _ _ _ _ _ D _ _ _ _.
    repeat split; auto; destruct C; subst ctl; discriminate.
  - split; [reflexivity|]. split; [left; reflexivity|].
    intros equity _. unfold daily_loss_breach1 in B.
    apply andb_prop in B as [B _]. apply andb_prop in B as [B1 B2].
    apply Qltb_lt in B1, B2. auto.
  - assert (X : forall equity, Continue = Return equity ->
                0 < l_start_equity c s /\ 0 < s_max_daily_loss su)
      by (intros ? X; discriminate X).
    destruct row as [r|]; subst s'.
    + destruct (on_bar1_frame (touched1 s a) r) as (A & B & _).
      rewrite A, B. auto.
    + auto.
Qed.

Lemma run_live_ws_no_stop (evs : list ws_event) :
  forall s,
    s_max_daily_loss su <= 0 \/ l_start_equity c s <= 0 ->
    snd (run_live_ws c su s evs) = None.
Proof.
  induction evs as [|ev rest IH]; intros s off; cbn [run_live_ws].
  - reflexivity.
  - destruct (on_event1 c su s ev) as [s' ctl] eqn:E.
    destruct (on_event1_frame s s' ev ctl E) as (A & _ & R).
    destruct ctl as [| | equity].
    + apply IH. rewrite A. exact off.
    + apply IH. cbn [set_backoff1 l_start_equity]. rewrite A. exact off.
    + destruct (R equity eq_refl) as [P1 P2].
      exfalso. destruct off as [O | O]; lra.
Qed.

Lemma run_live_ws_backoff (evs : list ws_event) :
  forall s,
    1 # 2 <= l_backoff c s /\ l_backoff c s <= 8 ->
    1 # 2 <= l_backoff c (fst (run_live_ws c su s evs))
    /\ l_backoff c (fst (run_live_ws c su s evs)) <= 8.
Proof.
  induction evs as [|ev rest IH]; intros s [L U]; cbn [run_live_ws].
  - auto.
  - destruct (on_event1 c su s ev) as [s' ctl] eqn:E.
    destruct (on_event1_frame s s' ev ctl E) as (_ & B & _).
    assert (R : 1 # 2 <= l_backoff c s' /\ l_backoff c s' <= 8).
    { destruct B as [-> | ->]; [auto | split; discriminate]. }
    destruct ctl as [| | equity].
    + apply IH, R.
    + apply IH. cbn [set_backoff1 l_backoff].
      apply min_backoff_range; apply R.
    + exact R.
Qed.

End SingleFrame.

(** X15. The max-daily-loss stop can be off: with [max_daily_loss] at zero
    or below, or with a starting equity (the KRW balance at the start, the
    coins held are not counted) that is not positive, neither live loop ever
    returns on a loss, whatever the market does. *)
Theorem daily_loss_stop_can_be_off (c : Collaborators) :
  (forall cfg pf evs,
      max_daily_loss cfg <= 0 \/ start_equity c pf <= 0 ->
      snd (run_portfolio_ws c cfg pf evs) = None)
  /\ (forall su s evs,
      s_max_daily_loss su <= 0 \/ l_start_equity c s <= 0 ->
      snd (run_live_ws c su s evs) = None).
Proof.
  split.
  - intros cfg pf evs off. apply run_portfolio_ws_no_stop, off.
  - intros su s evs off. apply run_live_ws_no_stop, off.
Qed.

(** X16. The reconnect backoff of both live loops stays between half a
    second and eight seconds, whatever the socket delivers; in the
    coordinator, [k] failed connections in a row after a connection leave
    it at min(0.5 * 2^k, 8), the backoff of a REST call after [k] retries. *)
Theorem reconnect_backoff_stays_in_range (c : Collaborators) :
  (forall cfg pf evs,
      1 # 2 <= backoff c pf /\ backoff c pf <= 8 ->
      1 # 2 <= backoff c (fst (run_portfolio_ws c cfg pf evs))
      /\ backoff c (fst (run_portfolio_ws c cfg pf evs)) <= 8)
  /\ (forall su s evs,
      1 # 2 <= l_backoff c s /\ l_backoff c s <= 8 ->
      1 # 2 <= l_backoff c (fst (run_live_ws c su s evs))
      /\ l_backoff c (fst (run_live_ws c su s evs)) <= 8)
  /\ (forall cfg pf k,
      backoff c (fst (run_portfolio_ws c cfg pf
                        (Connected :: repeat ConnectFailed k)))
      = backoff_at k).
Proof.
  split; [|split].
  - intros cfg pf evs R. apply run_portfolio_ws_backoff, R.
  - intros su s evs R. apply run_live_ws_backoff, R.
  - intros cfg pf k. cbn [run_portfolio_ws on_event].
    rewrite failed_connections_backoff. reflexivity.
Qed.

(** ** The coordinator: one market at a time *)

Lemma map_market_put_state (st : MarketState) (l : list MarketState) :
  map market (put_state st l) = map market l.
Proof.
  induction l as [|s rest IH]; cbn [put_state map]; [reflexivity|].
  destruct (String.eqb (market s) (market st)) eqn:E; cbn [map].
  - apply String.eqb_eq in E. rewrite E. reflexivity.
  - rewrite IH. reflexivity.
Qed.

Lemma get_put_other (st : MarketState) (l : list MarketState) (m : string) :
  m <> market st -> get_state m (put_state st l) = get_state m l.
Proof.
  intro N. rewrite get_put_state.
  destruct (get_state m l) as [s|] eqn:G; [|reflexivity].
  apply get_state_market in G.
  destruct (String.eqb (market s) (market st)) eqn:E; [|reflexivity].
  apply String.eqb_eq in E. congruence.
Qed.

Section CoordinatorBars.

Variable c : Collaborators.
Variable cfg : Config.

Lemma decide_market (pf : Portfolio c) (st : MarketState) (row : Bar)
    (price : Q) :
  market (snd (decide c cfg pf st row price)) = market st
  /\ df (snd (decide c cfg pf st row price)) = df (with_bar st row)
  /\ states c (fst (decide c cfg pf st row price)) = states c pf.
Proof.
  destruct (decide_frame c cfg pf st row price) as [A B].
  unfold st_frame in B. injection B as B1 _ _ B4 _ _ _ _.
  unfold pf_frame in A. injection A as _ A2 _.
  cbn [set_last_signal with_bar market df] in B1, B4 |- *. auto.
Qed.

(** X17. A trade message touches the state of its own market only: the
    table keeps its markets, every other market keeps its state (position,
    stop, data frame, open bucket), and a message of a market that is not
    tracked changes nothing at all. *)
Theorem tick_touches_one_market (pf pf' : Portfolio c) (mkt : string)
    (ts : datetime) (price vol : Q) (ctl : control) :
  on_trade c cfg pf (mkt, ts, price, vol) = (pf', ctl) ->
  map market (states c pf') = map market (states c pf)
  /\ (forall m, m <> mkt ->
                get_state m (states c pf') = get_state m (states c pf))
  /\ (get_state mkt (states c pf) = None -> pf' = pf).
Proof.
  intro H.
  destruct (on_trade_cases c cfg pf pf' mkt ts price vol ctl H)
    as [(G & -> & _) | (st & a & row & G & _ & K)].
  - auto.
  - pose proof (get_state_market _ _ _ G) as M.
    assert (T : map market (states c (touched pf st a))
                = map market (states c pf)
                /\ forall m, m <> mkt ->
                     get_state m (states c (touched pf st a))
                     = get_state m (states c pf)).
    { unfold touched. cbn [set_states states]. split.
      - apply map_market_put_state.
      - intros m N. apply get_put_other. cbn [set_agg market]. congruence. }
    destruct T as [T1 T2].
    assert (B : forall r,
               map market (states c (on_bar c cfg (touched pf st a)
                                       (set_agg st a) r price))
               = map market (states c pf)
               /\ forall m, m <> mkt ->
                    get_state m (states c (on_bar c cfg (touched pf st a)
                                             (set_agg st a) r price))
                    = get_state m (states c pf)).
    { intro r.
      destruct (on_bar_frame c cfg (touched pf st a) (set_agg st a) r price)
        as (_ & _ & S).
      destruct (decide_market (touched pf st a) (set_agg st a) r price)
        as (DM & _ & _).
      rewrite S. split.
      - rewrite map_market_put_state. exact T1.
      - intros m N. rewrite get_put_other; [apply T2, N|].
        rewrite DM. cbn [set_agg market]. congruence. }
    split; [|split].
    + destruct K as [(_ & -> & _) | (_ & _ & R)]; [exact T1|].
      destruct row as [r|]; subst pf'; [apply B | exact T1].
    + destruct K as [(_ & -> & _) | (_ & _ & R)]; [exact T2|].
      destruct row as [r|]; subst pf'; [apply B | exact T2].
    + intro N. congruence.
Qed.

(** X18. Exits are not gated: when the bar that closes leaves the strategy
    at -1 and the market holds a position, the coordinator places exactly
    one order, the market sell of the whole position, whatever the trading
    hours, the cooldown, the minimum order amount and the take-profit
    settings are. *)
Theorem exits_are_not_gated (pf : Portfolio c) (st : MarketState) (row : Bar)
    (price : Q) :
  0 < coin_qty st ->
  Py.last_or (signals c (df (with_bar st row))) 0%Z = (-1)%Z ->
  orders c (fst (decide c cfg pf st row price))
  = orders c pf ++ [sell_order (market st) (coin_qty st)].
Proof.
  intros P S. unfold decide. cbv zeta.
  set (st2 := set_last_signal (with_bar st row) _).
  destruct (update_trail_raises c cfg st2) as (M3 & Q3 & _).
  set (st3 := update_trail c cfg st2) in *.
  assert (X : do_exit st3 (Py.last_or (signals c (df (with_bar st row))) 0%Z)
                (Py.last_or (map Close (df st3)) price) = true).
  { unfold do_exit. rewrite Q3. cbn [st2 set_last_signal with_bar coin_qty].
    apply Qltb_lt in P. rewrite P, S. cbn. apply orb_true_r. }
  rewrite X, exit_position_sells, M3, Q3. reflexivity.
Qed.

End CoordinatorBars.

(** ** Entries: how much a buy commits *)


Section CoordinatorFunds.

Variable c : Collaborators.
Variable cfg : Config.


End CoordinatorFunds.

(** ** The data frames of the live loops *)

Lemma tail_rows_snoc (n : nat) (l : list Bar) (row : Bar) :
  (0 < n)%nat ->
  (List.length (tail_rows n (l ++ [row])) <= n)%nat
  /\ exists older, tail_rows n (l ++ [row]) = older ++ [row].
Proof.
  intro P. unfold tail_rows. rewrite length_app. cbn [List.length].
  split.
  - rewrite length_skipn, length_app. cbn [List.length]. lia.
  - rewrite skipn_app.
    replace (List.length l + 1 - n - List.length l)%nat with 0%nat by lia.
    cbn [skipn]. eexists. reflexivity.
Qed.

Lemma with_bar_df (st : MarketState) (row : Bar) :
  (List.length (df (with_bar st row)) <= 2000)%nat
  /\ exists older, df (with_bar st row) = older ++ [row].
Proof.
  unfold with_bar. cbn [df].
  destruct (Z.ltb_spec 2000 (Z.of_nat (List.length (df st ++ [row]))))
    as [G | G].
  - apply tail_rows_snoc. lia.
  - split; [lia | eexists; reflexivity].
Qed.

Section Frames.

Variable c : Collaborators.

Lemma on_event_frames (cfg : Config) (pf pf' : Portfolio c) (ev : ws_event)
    (ctl : control) :
  on_event c cfg pf ev = (pf', ctl) ->
  Forall (fun st => (List.length (df st) <= 2000)%nat) (states c pf) ->
  Forall (fun st => (List.length (df st) <= 2000)%nat) (states c pf').
Proof.
  intros H N.
  destruct (on_event_shape c cfg pf pf' ev ctl H)
    as [(S & _) | (st0 & a & G0 & [E | (row & price & E)])].
  - rewrite S. exact N.
  - subst pf'. unfold touched. cbn [states set_states].
    apply Forall_put_state; [|exact N]. cbn [set_agg df].
    apply get_state_In in G0. rewrite Forall_forall in N. apply N, G0.
  - subst pf'.
    destruct (on_bar_frame c cfg (touched pf st0 a) (set_agg st0 a) row price)
      as (_ & _ & S).
    destruct (decide_market c cfg (touched pf st0 a) (set_agg st0 a) row price)
      as (_ & D & _).
    rewrite S. apply Forall_put_state.
    + rewrite D. apply with_bar_df.
    + unfold touched. cbn [states set_states].
      apply Forall_put_state; [|exact N]. cbn [set_agg df].
      apply get_state_In in G0. rewrite Forall_forall in N. apply N, G0.
Qed.

Lemma run_portfolio_ws_frames (cfg : Config) (evs : list ws_event) :
  forall pf,
    Forall (fun st => (List.length (df st) <= 2000)%nat) (states c pf) ->
    Forall (fun st => (List.length (df st) <= 2000)%nat)
           (states c (fst (run_portfolio_ws c cfg pf evs))).
Proof.
  induction evs as [|ev rest IH]; intros pf N; cbn [run_portfolio_ws].
  - exact N.
  - destruct (on_event c cfg pf ev) as [pf' ctl] eqn:E.
    pose proof (on_event_frames cfg pf pf' ev ctl E N) as N'.
    destruct ctl; [apply IH, N' | apply IH, N' | exact N'].
Qed.

Lemma on_bar1_df (su : Setup) (s : Single c) (row : Bar) :
  (List.length (l_df c (on_bar1 c su s row)) <= 600)%nat
  /\ exists older, l_df c (on_bar1 c su s row) = older ++ [row].
Proof.
  assert (T : (List.length
                 (if (600 <? Z.of_nat (List.length (l_df c s ++ [row])))%Z
                  then tail_rows 600 (l_df c s ++ [row])
                  else l_df c s ++ [row]) <= 600)%nat
              /\ exists older,
                  (if (600 <? Z.of_nat (List.length (l_df c s ++ [row])))%Z
                   then tail_rows 600 (l_df c s ++ [row])
                   else l_df c s ++ [row]) = older ++ [row]).
  { destruct (Z.ltb_spec 600 (Z.of_nat (List.length (l_df c s ++ [row]))))
      as [G | G].
    - apply tail_rows_snoc. lia.
    - split; [lia | eexists; reflexivity]. }
  unfold on_bar1. cbv zeta.
  set (d := if (600 <? Z.of_nat (List.length (l_df c s ++ [row])))%Z
            then tail_rows 600 (l_df c s ++ [row])
            else l_df c s ++ [row]) in *.
  clearbody d.
  repeat match goal with
         | |- context [if ?b then _ else _] => destruct b
         end;
    try match goal with
        | |- context [trade1 c su ?x ?r ?q] =>
            destruct (trade1_frame c su x r q) as (_ & _ & _ & D); rewrite D
        end;
    cbn [l_df]; exact T.
Qed.

Lemma on_event1_frames (su : Setup) (s s' : Single c) (ev : ws_event)
    (ctl : control) :
  on_event1 c su s ev = (s', ctl) ->
  (List.length (l_df c s) <= 600)%nat -> (List.length (l_df c s') <= 600)%nat.
Proof.
  intros H N.
  destruct (on_event1_cases c su s s' ev ctl H)
    as [(D & _)
       | (ts & price & vol & a & row & _ & [(_ & -> & _) | (_ & _ & R)])].
  - unfold decision_state1 in D. injection D as _ _ D _ _ _ _ _ _ _.
    rewrite D. exact N.
  - exact N.
  - destruct row as [r|]; subst s'; [apply on_bar1_df | exact N].
Qed.

Lemma run_live_ws_frames (su : Setup) (evs : list ws_event) :
  forall s,
    (List.length (l_df c s) <= 600)%nat ->
    (List.length (l_df c (fst (run_live_ws c su s evs))) <= 600)%nat.
Proof.
  induction evs as [|ev rest IH]; intros s N; cbn [run_live_ws].
  - exact N.
  - destruct (on_event1 c su s ev) as [s' ctl] eqn:E.
    pose proof (on_event1_frames su s s' ev ctl E N) as N'.
    destruct ctl; [apply IH, N' | apply IH, N' | exact N'].
Qed.

(** X20. The data frames the strategy is run on stay bounded: no market of
    the coordinator ever has more than 2000 rows, the single-market loop
    never more than 600, when they start within these bounds; and the bar
    that has just closed is the last row of the frame the strategy sees. *)
Theorem frames_stay_bounded :
  (forall cfg pf evs,
      Forall (fun st => (List.length (df st) <= 2000)%nat) (states c pf) ->
      Forall (fun st => (List.length (df st) <= 2000)%nat)
             (states c (fst (run_portfolio_ws c cfg pf evs))))
  /\ (forall su s evs,
      (List.length (l_df c s) <= 600)%nat ->
      (List.length (l_df c (fst (run_live_ws c su s evs))) <= 600)%nat)
  /\ (forall st row, exists older, df (with_bar st row) = older ++ [row])
  /\ (forall su s row, exists older,
        l_df c (on_bar1 c su s row) = older ++ [row]).
Proof.
  split; [|split; [|split]].
  - intros cfg pf evs N. apply run_portfolio_ws_frames, N.
  - intros su s evs N. apply run_live_ws_frames, N.
  - intros st row. apply with_bar_df.
  - intros su s row. apply on_bar1_df.
Qed.

End Frames.

(** ** The single-market loop: cooldown and position *)

Section SingleOrders.

Variable c : Collaborators.
Variable su : Setup.

Lemma on_bar1_cooling (s : Single c) (row : Bar) :
  (l_bars c s + 1 - l_last_trade_bar c s < s_cooldown_bars su)%Z ->
  l_orders c (on_bar1 c su s row) = l_orders c s
  /\ l_last_trade_bar c (on_bar1 c su s row) = l_last_trade_bar c s
  /\ l_coin_qty c (on_bar1 c su s row) = l_coin_qty c s.
Proof.
  intro H. unfold on_bar1. cbv zeta. cbn [l_bars l_last_trade_bar].
  apply Z.leb_gt in H. rewrite H, !andb_false_r. auto.
Qed.

Lemma on_event1_quiet (s s' : Single c) (ev : ws_event) (ctl : control) :
  on_event1 c su s ev = (s', ctl) ->
  (l_bars c s <= l_bars c s')%Z
  /\ ((l_bars c s' - l_last_trade_bar c s < s_cooldown_bars su)%Z ->
      l_orders c s' = l_orders c s
      /\ l_last_trade_bar c s' = l_last_trade_bar c s
      /\ l_coin_qty c s' = l_coin_qty c s).
Proof.
  intro H.
  destruct (on_event1_cases c su s s' ev ctl H)
    as [(D & _)
       | (ts & price & vol & a & row & _ & [(_ & -> & _) | (_ & _ & R)])].
  - unfold decision_state1 in D. injection D as _ _ _ _ D5 _ D7 D8 _ D10.
    rewrite D5, D7, D8, D10. split; [lia | auto].
  - cbn [touched1 l_bars l_orders l_last_trade_bar l_coin_qty].
    split; [lia | auto].
  - destruct row as [r|]; subst s'.
    + destruct (on_bar1_frame c su (touched1 s a) r) as (_ & _ & B).
      rewrite B. cbn [touched1 l_bars]. split; [lia|].
      intro C. exact (on_bar1_cooling (touched1 s a) r C).
    + cbn [touched1 l_bars l_orders l_last_trade_bar l_coin_qty].
      split; [lia | auto].
Qed.

Lemma run_live_ws_quiet (evs : list ws_event) :
  forall s,
    (l_bars c s <= l_bars c (fst (run_live_ws c su s evs)))%Z
    /\ ((l_bars c (fst (run_live_ws c su s evs)) - l_last_trade_bar c s
         < s_cooldown_bars su)%Z ->
        l_orders c (fst (run_live_ws c su s evs)) = l_orders c s
        /\ l_last_trade_bar c (fst (run_live_ws c su s evs))
           = l_last_trade_bar c s
        /\ l_coin_qty c (fst (run_live_ws c su s evs)) = l_coin_qty c s).
Proof.
  induction evs as [|ev rest IH]; intro s; cbn [run_live_ws].
  - cbn [fst]. split; [lia | auto].
  - destruct (on_event1 c su s ev) as [s' ctl] eqn:E.
    destruct (on_event1_quiet s s' ev ctl E) as [M Q].
    assert (K : forall x,
               l_bars c x = l_bars c s' ->
               l_orders c x = l_orders c s' ->
               l_last_trade_bar c x = l_last_trade_bar c s' ->
               l_coin_qty c x = l_coin_qty c s' ->
               (l_bars c s <= l_bars c (fst (run_live_ws c su x rest)))%Z
               /\ ((l_bars c (fst (run_live_ws c su x rest))
                    - l_last_trade_bar c s < s_cooldown_bars su)%Z ->
                   l_orders c (fst (run_live_ws c su x rest)) = l_orders c s
                   /\ l_last_trade_bar c (fst (run_live_ws c su x rest))
                      = l_last_trade_bar c s
                   /\ l_coin_qty c (fst (run_live_ws c su x rest))
                      = l_coin_qty c s)).
    { intros x X1 X2 X3 X4. destruct (IH x) as [M' Q'].
      rewrite X1 in M'. split; [lia|].
      intro C. destruct Q as (Q1 & Q2 & Q3); [lia|].
      destruct Q' as (Q1' & Q2' & Q3'); [rewrite X3, Q2; exact C|].
      rewrite Q1', Q2', Q3', X2, X3, X4. auto. }
    destruct ctl as [| | equity].
    + apply K; reflexivity.
    + apply K; reflexivity.
    + cbn [fst]. split; [exact M | exact Q].
Qed.

(** X21. In the single-market loop the cooldown is a quiet period for buys
    and sells alike: as long as the bar count has not moved
    [cooldown_bars] past the last trade bar, no order has been placed and
    the position is what it was, whatever the strategy signalled. *)
Theorem single_loop_cooldown_is_quiet (s : Single c) (evs : list ws_event) :
  (l_bars c (fst (run_live_ws c su s evs)) - l_last_trade_bar c s
   < s_cooldown_bars su)%Z ->
  l_orders c (fst (run_live_ws c su s evs)) = l_orders c s
  /\ l_coin_qty c (fst (run_live_ws c su s evs)) = l_coin_qty c s.
Proof.
  intro C. destruct (run_live_ws_quiet evs s) as [_ Q].
  destruct (Q C) as (Q1 & _ & Q3). auto.
Qed.

Hypothesis honest : honest_exchange c.

Lemma trade1_nonneg (s : Single c) (req : Broker.OrderRequest) (d : Q) :
  0 <= l_coin_qty c s -> 0 <= d -> 0 <= l_coin_qty c (trade1 c su s req d).
Proof.
  intros H D. unfold trade1.
  destruct (place_order c (l_world c s) req) as [w1 [uuid|]]; [|exact H].
  destruct (get_accounts c _) as [w3 [accts|]] eqn:G; [|exact H].
  cbn [l_coin_qty]. apply balance_of_nonneg; [|exact D].
  exact (honest _ _ _ G).
Qed.

Lemma on_bar1_nonneg (s : Single c) (row : Bar) :
  0 <= l_coin_qty c s -> 0 <= l_coin_qty c (on_bar1 c su s row).
Proof.
  intro H. unfold on_bar1. cbv zeta.
  repeat match goal with
         | |- context [if ?b then _ else _] => destruct b
         end;
    try (apply trade1_nonneg; cbn [l_coin_qty]; try exact H; apply Qle_refl);
    exact H.
Qed.

Lemma on_event1_nonneg (s s' : Single c) (ev : ws_event) (ctl : control) :
  on_event1 c su s ev = (s', ctl) ->
  0 <= l_coin_qty c s -> 0 <= l_coin_qty c s'.
Proof.
  intros H N.
  destruct (on_event1_cases c su s s' ev ctl H)
    as [(D & _)
       | (ts & price & vol & a & row & _ & [(_ & -> & _) | (_ & _ & R)])].
  - unfold decision_state1 in D. injection D as _ _ _ _ D5 _ _ _ _ _.
    rewrite D5. exact N.
  - exact N.
  - destruct row as [r|]; subst s'; [apply on_bar1_nonneg|]; exact N.
Qed.

(** X22. The single-market loop is long-only: with an exchange that reports
    no negative balance, the position it tracks is never negative, and a
    message places at most one order, a market buy for an amount of KRW or
    the market sell of the whole position. *)
Theorem single_loop_is_long_only (s : Single c) (evs : list ws_event) :
  0 <= l_coin_qty c s ->
  0 <= l_coin_qty c (fst (run_live_ws c su s evs))
  /\ forall ev s' ctl,
      on_event1 c su s ev = (s', ctl) ->
      l_orders c s' = l_orders c s
      \/ (exists funds,
            l_orders c s' = l_orders c s ++ [buy_order (s_market su) funds])
      \/ l_orders c s'
         = l_orders c s ++ [sell_order (s_market su) (l_coin_qty c s)].
Proof.
  intro N. split.
  - revert s N. induction evs as [|ev rest IH]; intros s N; cbn [run_live_ws].
    + exact N.
    + destruct (on_event1 c su s ev) as [s' ctl] eqn:E.
      pose proof (on_event1_nonneg s s' ev ctl E N) as N'.
      destruct ctl; [apply IH, N' | apply IH, N' | exact N'].
  - intros ev s' ctl H.
    destruct (on_event1_cases c su s s' ev ctl H)
      as [(D & _)
         | (ts & price & vol & a & row & _ & [(_ & -> & _) | (_ & _ & R)])].
    + unfold decision_state1 in D. injection D as _ _ _ _ _ _ _ _ _ D.
      left. exact D.
    + left. reflexivity.
    + destruct row as [r|]; subst s'; [|left; reflexivity].
      exact (on_bar1_orders c su (touched1 s a) r).
Qed.

End SingleOrders.

(** ** The live loops on the demonstration exchange *)

Lemma demo_honest (sig : Z) (atr : option Q) : honest_exchange (demo sig atr).
Proof.
  intros w w' accts H. cbn in H. injection H as _ <-.
  repeat constructor; discriminate.
Qed.

Lemma tick_touches_one_market_witness :
  let pf := demo_portfolio 0 None 50 in
  let t := ("KRW-BTC"%string, 60000000%Z, 50, 1) in
  map market (states _ (fst (on_trade (demo 0 None) (demo_config 0 0) pf t)))
  = map market (states _ pf).
Proof.
  intros pf t.
  exact (proj1 (tick_touches_one_market (demo 0 None) (demo_config 0 0) pf
                  (fst (on_trade (demo 0 None) (demo_config 0 0) pf t))
                  "KRW-BTC"%string 60000000%Z 50 1
                  (snd (on_trade (demo 0 None) (demo_config 0 0) pf t))
                  (surjective_pairing _))).
Defined.

Lemma exits_are_not_gated_witness :
  let c := demo (-1) None in
  let pf := demo_portfolio (-1) None 50 in
  orders c (fst (decide c (demo_config 0 0) pf (btc_long 50)
                   (mkBar 0%Z 50 50 50 50 1) 50))
  = orders c pf ++ [sell_order "KRW-BTC" 1].
Proof.
  intros c pf.
  apply (exits_are_not_gated c (demo_config 0 0) pf (btc_long 50)
           (mkBar 0%Z 50 50 50 50 1) 50); reflexivity.
Defined.


Lemma single_loop_cooldown_is_quiet_witness :
  let evs := [Recv "0:01 BTC 50"; Recv "0:02 BTC 50"]%string in
  l_orders _ (fst (run_live_ws (demo (-1) None) (demo_setup 5)
                     (demo_single (-1) None) evs)) = []
  /\ l_coin_qty _ (fst (run_live_ws (demo (-1) None) (demo_setup 5)
                          (demo_single (-1) None) evs)) = 1.
Proof.
  intro evs.
  apply (single_loop_cooldown_is_quiet (demo (-1) None) (demo_setup 5)
           (demo_single (-1) None) evs).
  vm_compute. reflexivity.
Defined.

Lemma single_loop_is_long_only_witness :
  0 <= l_coin_qty _ (fst (run_live_ws (demo (-1) None) (demo_setup 0)
                            (demo_single (-1) None)
                            [Recv "0:01 BTC 50"; Recv "0:02 BTC 50"]%string)).
Proof.
  refine (proj1 (single_loop_is_long_only (demo (-1) None) (demo_setup 0)
                   (demo_honest (-1) None) (demo_single (-1) None) _ _)).
  discriminate.
Defined.

(** ** The SMA crossover strategy *)

Lemma length_map2 {A B C : Type} (f : A -> B -> C) (l : list A) (l' : list B) :
  List.length (SmaCross.map2 f l l')
  = Nat.min (List.length l) (List.length l').
Proof.
  revert l'. induction l as [|a r IH]; intros [|b r']; cbn; auto.
Qed.

Lemma Forall_map2 {A B C : Type} (f : A -> B -> C) (P : C -> Prop)
    (l : list A) (l' : list B) :
  (forall a b, P (f a b)) -> Forall P (SmaCross.map2 f l l').
Proof.
  intro H. revert l'.
  induction l as [|a r IH]; intros [|b r']; cbn; constructor; auto.
Qed.

Lemma Forall_map2_l {A B C : Type} (f : A -> B -> C) (P : A -> Prop)
    (Q : C -> Prop) (l : list A) (l' : list B) :
  (forall a b, P a -> Q (f a b)) -> Forall P l ->
  Forall Q (SmaCross.map2 f l l').
Proof.
  intros H F. revert l'.
  induction F as [|a r Pa F IH]; intros [|b r']; cbn; constructor; auto.
Qed.

Lemma Forall_map2_r {A B C : Type} (f : A -> B -> C) (P : B -> Prop)
    (Q : C -> Prop) (l : list A) (l' : list B) :
  (forall a b, P b -> Q (f a b)) -> Forall P l' ->
  Forall Q (SmaCross.map2 f l l').
Proof.
  intros H F. revert l.
  induction F as [|b r' Pb F IH]; intros [|a r]; cbn; constructor; auto.
Qed.

Lemma length_rolling_mean (w : nat) (l : list Q) :
  List.length (SmaCross.rolling_mean w l) = List.length l.
Proof. unfold SmaCross.rolling_mean. rewrite length_map, length_seq. reflexivity. Qed.

Lemma length_shift1 (s : SmaCross.series) :
  List.length (SmaCross.shift1 s) = List.length s.
Proof.
  unfold SmaCross.shift1. rewrite length_firstn. cbn [List.length]. lia.
Qed.

Lemma firstn_seq (k : nat) :
  forall a n, firstn k (seq a n) = seq a (Nat.min k n).
Proof.
  induction k as [|k IH]; intros a [|n]; cbn; try reflexivity.
  rewrite IH. reflexivity.
Qed.

(** Before the window is full, the previous mean is missing on every row. *)
Lemma shift1_rolling_warm_up (w : nat) (l : list Q) :
  (List.length l <= w)%nat ->
  Forall (fun x => x = None) (SmaCross.shift1 (SmaCross.rolling_mean w l)).
Proof.
  intro H. unfold SmaCross.shift1. rewrite length_rolling_mean.
  destruct l as [|x l]; [constructor|].
  cbn [List.length firstn]. constructor; [reflexivity|].
  unfold SmaCross.rolling_mean. rewrite firstn_map, firstn_seq.
  apply Forall_map, Forall_forall. intros i I. apply in_seq in I.
  cbn [List.length] in *.
  destruct (Nat.leb_spec w (S i)); [lia|]. rewrite andb_false_r. reflexivity.
Qed.

(** X23. The SMA crossover strategy gives one signal a bar, each of them
    -1, 0 or 1, and stays at 0 on every bar as long as there are fewer
    bars than [required_bars()] says, max(fast, slow) + 1. *)
Theorem sma_cross_warm_up (fast slow : Z) (close : list Q) (sigs : list Z) :
  SmaCross.signals fast slow close = Some sigs ->
  List.length sigs = List.length close
  /\ Forall (fun s => s = (-1)%Z \/ s = 0%Z \/ s = 1%Z) sigs
  /\ ((Z.of_nat (List.length close) < SmaCross.required_bars fast slow)%Z ->
      Forall (fun s => s = 0%Z) sigs).
Proof.
  unfold SmaCross.signals.
  destruct (Z.ltb_spec fast 0) as [|F]; [discriminate|].
  destruct (Z.ltb_spec slow 0) as [|S]; [discriminate|].
  cbn [orb]. intro E. injection E as <-.
  split; [|split].
  - rewrite !length_map2, !length_shift1, !length_rolling_mean. lia.
  - apply Forall_map2. intros b s. destruct s, b; auto.
  - unfold SmaCross.required_bars. intro W.
    assert (Z0 : forall (b s : bool), b = false -> s = false ->
                   (if s then (-1)%Z else if b then 1%Z else 0%Z) = 0%Z)
      by (intros b s -> ->; reflexivity).
    assert (N : Forall (fun x => x = false)
                  (SmaCross.map2 SmaCross.le
                     (SmaCross.shift1 (SmaCross.rolling_mean (Z.to_nat fast) close))
                     (SmaCross.shift1 (SmaCross.rolling_mean (Z.to_nat slow) close)))
                /\ Forall (fun x => x = false)
                     (SmaCross.map2 SmaCross.ge
                        (SmaCross.shift1 (SmaCross.rolling_mean (Z.to_nat fast) close))
                        (SmaCross.shift1 (SmaCross.rolling_mean (Z.to_nat slow) close)))).
    { destruct (Z.le_ge_cases fast slow) as [L | L].
      - assert (K : (List.length close <= Z.to_nat slow)%nat) by lia.
        pose proof (shift1_rolling_warm_up _ _ K) as P. split.
        + eapply Forall_map2_r; [|exact P].
          intros a b ->. destruct a; reflexivity.
        + eapply Forall_map2_r; [|exact P].
          intros a b ->. reflexivity.
      - assert (K : (List.length close <= Z.to_nat fast)%nat) by lia.
        pose proof (shift1_rolling_warm_up _ _ K) as P. split.
        + eapply Forall_map2_l; [|exact P].
          intros a b ->. reflexivity.
        + eapply Forall_map2_l; [|exact P].
          intros a b ->. destruct b; reflexivity. }
    destruct N as [N1 N2].
    assert (B : forall (l : list bool) (l' : list bool),
               Forall (fun x => x = false) l' ->
               Forall (fun x => x = false) (SmaCross.map2 andb l l')).
    { intros l l' P. eapply Forall_map2_r; [|exact P].
      intros a b ->. apply andb_false_r. }
    pose proof (B (SmaCross.map2 SmaCross.gt
                     (SmaCross.rolling_mean (Z.to_nat fast) close)
                     (SmaCross.rolling_mean (Z.to_nat slow) close)) _ N1) as Buy.
    pose proof (B (SmaCross.map2 SmaCross.lt
                     (SmaCross.rolling_mean (Z.to_nat fast) close)
                     (SmaCross.rolling_mean (Z.to_nat slow) close)) _ N2) as Sell.
    revert Buy Sell.
    generalize (SmaCross.map2 andb
                  (SmaCross.map2 SmaCross.gt
                     (SmaCross.rolling_mean (Z.to_nat fast) close)
                     (SmaCross.rolling_mean (Z.to_nat slow) close))
                  (SmaCross.map2 SmaCross.le
                     (SmaCross.shift1 (SmaCross.rolling_mean (Z.to_nat fast) close))
                     (SmaCross.shift1 (SmaCross.rolling_mean (Z.to_nat slow) close)))).
    generalize (SmaCross.map2 andb
                  (SmaCross.map2 SmaCross.lt
                     (SmaCross.rolling_mean (Z.to_nat fast) close)
                     (SmaCross.rolling_mean (Z.to_nat slow) close))
                  (SmaCross.map2 SmaCross.ge
                     (SmaCross.shift1 (SmaCross.rolling_mean (Z.to_nat fast) close))
                     (SmaCross.shift1 (SmaCross.rolling_mean (Z.to_nat slow) close)))).
    intros sell buy Buy Sell. revert sell Sell.
    induction Buy as [|b r Pb Buy IH]; intros sell Sell;
      destruct Sell as [|s r' Ps Sell]; cbn; constructor; auto.
Qed.

Lemma sma_cross_warm_up_witness :
  SmaCross.signals 2 3 [10; 11; 12] = Some [0; 0; 0]%Z
  /\ Forall (fun s => s = 0%Z) [0; 0; 0]%Z.
Proof.
  split; [reflexivity|].
  exact (proj2 (proj2 (sma_cross_warm_up 2 3 [10; 11; 12] [0; 0; 0]%Z eq_refl))
           eq_refl).
Defined.

(** ** The average true range *)

Lemma true_range_nonneg (pc : option Q) (b : Bar) :
  0 <= Indicators.true_range pc b.
Proof.
  unfold Indicators.true_range. destruct pc as [c|].
  - apply Qle_trans with (Qmax (Qabs (High b - Low b)) (Qabs (High b - c))).
    + apply Qle_trans with (Qabs (High b - Low b));
        [apply Qabs_nonneg | apply Q.le_max_l].
    + apply Q.le_max_l.
  - apply Qabs_nonneg.
Qed.

Lemma true_ranges_nonneg (bars : list Bar) :
  forall pc, Forall (fun x => 0 <= x) (Indicators.true_ranges pc bars).
Proof.
  induction bars as [|b rest IH]; intro pc; cbn; constructor.
  - apply true_range_nonneg.
  - apply IH.
Qed.

Lemma length_true_ranges (bars : list Bar) :
  forall pc, List.length (Indicators.true_ranges pc bars) = List.length bars.
Proof. induction bars as [|b rest IH]; intro pc; cbn; auto. Qed.

Lemma ewm_from_nonneg (alpha : Q) (xs : list Q) :
  0 <= alpha -> alpha <= 1 ->
  forall y, 0 <= y -> Forall (fun x => 0 <= x) xs ->
            Forall (fun x => 0 <= x) (Indicators.ewm_from alpha y xs).
Proof.
  intros A0 A1.
  induction xs as [|x rest IH]; intros y Y F; cbn; constructor;
    inversion F as [|? ? X R]; subst.
  - assert (P1 : 0 <= (1 - alpha) * y) by (apply Qmult_le_0_compat; lra).
    assert (P2 : 0 <= alpha * x) by (apply Qmult_le_0_compat; lra).
    lra.
  - apply IH; [|exact R].
    assert (P1 : 0 <= (1 - alpha) * y) by (apply Qmult_le_0_compat; lra).
    assert (P2 : 0 <= alpha * x) by (apply Qmult_le_0_compat; lra).
    lra.
Qed.

Lemma ewm_nonneg (alpha : Q) (xs : list Q) :
  0 <= alpha -> alpha <= 1 ->
  Forall (fun x => 0 <= x) xs -> Forall (fun x => 0 <= x) (Indicators.ewm alpha xs).
Proof.
  intros A0 A1 F. destruct F as [|x rest X R]; cbn; constructor; auto.
  apply ewm_from_nonneg; assumption.
Qed.

Lemma length_ewm_from (alpha : Q) (xs : list Q) :
  forall y, List.length (Indicators.ewm_from alpha y xs) = List.length xs.
Proof. induction xs as [|x rest IH]; intro y; cbn; auto. Qed.

Lemma length_ewm (alpha : Q) (xs : list Q) :
  List.length (Indicators.ewm alpha xs) = List.length xs.
Proof. destruct xs; cbn; [reflexivity|]. rewrite length_ewm_from. reflexivity. Qed.

Lemma combine_snoc {A B : Type} (l : list A) (l' : list B) (a : A) (b : B) :
  List.length l = List.length l' ->
  combine (l ++ [a]) (l' ++ [b]) = combine l l' ++ [(a, b)].
Proof.
  revert l'. induction l as [|x r IH]; intros [|y r'] H; cbn in *;
    try discriminate; [reflexivity|].
  rewrite IH by lia. reflexivity.
Qed.

(** The last value of a masked column: there once [min_periods] values
    have been seen. *)
Lemma last_mask (m : nat) (ys : list Q) :
  List.last (Indicators.mask m ys) None
  = if ((m <=? List.length ys) && negb (List.length ys =? 0))%nat
    then Some (List.last ys 0) else None.
Proof.
  destruct ys as [|y0 ys0] using rev_ind; [rewrite andb_false_r; reflexivity|].
  unfold Indicators.mask. rewrite length_app. cbn [List.length].
  rewrite Nat.add_1_r, seq_S, combine_snoc by (rewrite length_seq; reflexivity).
  rewrite map_app. cbn [map fst snd Nat.add]. rewrite !last_last.
  cbn [Nat.eqb negb]. rewrite andb_true_r. reflexivity.
Qed.

(** X24. The ATR the trailing stop is built on: the call raises for a
    period below 1; otherwise the last value is missing exactly while
    fewer than [period] bars are there, and a value that is there is not
    negative. *)
Theorem atr_warms_up_and_is_nonnegative (bars : list Bar) (period : Z) :
  ((period < 1)%Z -> Indicators.atr bars period = None)
  /\ ((1 <= period)%Z ->
      (Indicators.atr_last bars period = None
       <-> (Z.of_nat (List.length bars) < period)%Z))
  /\ (forall a, Indicators.atr_last bars period = Some a -> 0 <= a).
Proof.
  unfold Indicators.atr_last, Indicators.atr.
  split; [|split].
  - intro P. apply Z.ltb_lt in P. rewrite P. reflexivity.
  - intro P. destruct (Z.ltb_spec period 1) as [|_]; [lia|].
    rewrite last_mask, length_ewm, length_true_ranges.
    destruct (Nat.leb_spec (Z.to_nat period) (List.length bars)) as [L | L];
      destruct (Nat.eqb_spec (List.length bars) 0) as [E | E]; cbn [andb negb];
      split; intro H; try reflexivity; try discriminate H; lia.
  - intro a. destruct (Z.ltb_spec period 1) as [|P]; [discriminate|].
    rewrite last_mask.
    destruct (_ && _) eqn:C; [|discriminate].
    intro E. injection E as <-.
    assert (A1 : 1 <= inject_Z period).
    { change 1 with (inject_Z 1). rewrite <- Zle_Qle. exact P. }
    assert (I0 : 0 < 1 / inject_Z period).
    { apply Qlt_shift_div_l; lra. }
    assert (I1 : 1 / inject_Z period <= 1).
    { apply Qle_shift_div_r; lra. }
    pose proof (ewm_nonneg (1 / inject_Z period)
                  (Indicators.true_ranges None bars)
                  (Qlt_le_weak _ _ I0) I1 (true_ranges_nonneg bars None)) as F.
    apply andb_prop in C as [_ C]. apply negb_true_iff in C.
    apply Nat.eqb_neq in C.
    destruct (Indicators.ewm (1 / inject_Z period)
                (Indicators.true_ranges None bars)) as [|y ys] eqn:Y;
      [cbn in C; lia|].
    rewrite Forall_forall in F. apply F.
    destruct (@exists_last _ (y :: ys)) as (l' & z & ->); [discriminate|].
    rewrite last_last. apply in_or_app. right. left. reflexivity.
Qed.

(** ** Fetching candles over REST *)




Section FetchRange.

Variable server : nat -> Z -> option datetime -> Data.reply.
Variable M : Z.


(** With a server that answers, each request ends the loop or brings at
    least one candle: the loop is over within [remaining] + 1 requests. *)
Lemma fetch_loop_ends (fuel : nat) :
  answering server ->
  forall k s,
    (Data.remaining s < Z.of_nat fuel)%Z ->
    fst (Data.fetch_loop server fuel k s) <> Data.Looping.
Proof.
  intro AN.
  induction fuel as [|fuel IH]; intros k s F; cbn [Data.fetch_loop].
  - destruct (Z.leb_spec (Data.remaining s) 0); [|lia].
    cbn [fst]. destruct (Data.candles_to_df _); discriminate.
  - destruct (Z.leb_spec (Data.remaining s) 0) as [L | L].
    { cbn [fst]. destruct (Data.candles_to_df _); discriminate. }
    destruct (AN k (Z.min 200 (Data.remaining s)) (Data.to s)) as [rows ->].
    destruct rows as [|b0 rows0].
    + cbn [fst]. destruct (Data.candles_to_df _); discriminate.
    + destruct (Data.before _) as [t|]; [|discriminate].
      apply IH. cbn [Data.remaining List.length]. lia.
Qed.

(** With a server that fails every request, the loop never ends. *)
Lemma fetch_loop_goes_on (fuel : nat) :
  failing server ->
  forall k s,
    (0 < Data.remaining s)%Z ->
    fst (Data.fetch_loop server fuel k s) = Data.Looping
    /\ List.length (Data.asked (snd (Data.fetch_loop server fuel k s)))
       = (List.length (Data.asked s) + fuel)%nat
    /\ List.length (Data.slept (snd (Data.fetch_loop server fuel k s)))
       = (List.length (Data.slept s) + fuel)%nat.
Proof.
  intro FL.
  induction fuel as [|fuel IH]; intros k s P; cbn [Data.fetch_loop];
    destruct (Z.leb_spec (Data.remaining s) 0) as [L | L]; try lia.
  - cbn [fst snd]. repeat split; lia.
  - destruct (FL k (Z.min 200 (Data.remaining s)) (Data.to s))
      as [-> | (status & ra & -> & RS)].
    + match goal with
      | |- context [Data.fetch_loop server fuel (S k) ?x] =>
          destruct (IH (S k) x P) as (A & B & C)
      end.
      rewrite A, B, C. cbn [Data.asked Data.slept]. rewrite !length_app.
      cbn [List.length]. repeat split; lia.
    + rewrite RS.
      match goal with
      | |- context [Data.fetch_loop server fuel (S k) ?x] =>
          destruct (IH (S k) x P) as (A & B & C)
      end.
      rewrite A, B, C. cbn [Data.asked Data.slept]. rewrite !length_app.
      cbn [List.length]. repeat split; lia.
Qed.

End FetchRange.


(** X26. Whether [fetch_range_minutes] returns depends on the server
    alone: with a server that answers every request with candles it ends
    within [max_candles] + 1 requests (it returns or raises); with a server
    that fails every request with a status that is retried, or on the
    transport, it goes on asking and sleeping without a limit. *)
Theorem fetch_range_retries_without_limit
    (server : nat -> Z -> option datetime -> Data.reply) (max_candles : Z) :
  (answering server ->
   forall fuel, (max_candles < Z.of_nat fuel)%Z ->
                fst (Data.fetch_range_minutes server fuel max_candles)
                <> Data.Looping)
  /\ (failing server -> (0 < max_candles)%Z ->
      forall fuel,
        fst (Data.fetch_range_minutes server fuel max_candles) = Data.Looping
        /\ List.length
             (Data.asked (snd (Data.fetch_range_minutes server fuel max_candles)))
           = fuel
        /\ List.length
             (Data.slept (snd (Data.fetch_range_minutes server fuel max_candles)))
           = fuel).
Proof.
  unfold Data.fetch_range_minutes. split.
  - intros AN fuel F. apply fetch_loop_ends; [exact AN | exact F].
  - intros FL P fuel.
    exact (fetch_loop_goes_on server fuel FL 0%nat
             (Data.mkFetch max_candles None [] (1 # 2) [] []) P).
Qed.


(** ** The properties above on concrete inputs *)

Lemma daily_loss_stop_can_be_off_witness :
  snd (run_portfolio_ws (demo 0 None) (demo_config 0 0)
         (demo_portfolio 0 None 50)
         [Connected; Recv "0:01 BTC 50"; Recv "0:02 BTC 50"]%string)
  = None.
Proof.
  apply (proj1 (daily_loss_stop_can_be_off (demo 0 None))).
  left. apply Qle_refl.
Defined.

Lemma reconnect_backoff_stays_in_range_witness :
  let pf' := fst (run_portfolio_ws (demo 0 None) (demo_config 0 0)
                    (demo_portfolio 0 None 50)
                    [ConnectFailed; ConnectFailed; Recv "not json"]%string) in
  1 # 2 <= backoff _ pf' /\ backoff _ pf' <= 8.
Proof.
  apply (proj1 (reconnect_backoff_stays_in_range (demo 0 None))).
  split; discriminate.
Defined.

Lemma frames_stay_bounded_witness :
  Forall (fun st => (List.length (df st) <= 2000)%nat)
         (states _ (fst (run_portfolio_ws (demo 0 None) (demo_config 0 0)
                           (demo_portfolio 0 None 50)
                           [Recv "0:01 BTC 50"; Recv "0:02 BTC 50"]%string))).
Proof.
  apply (proj1 (frames_stay_bounded (demo 0 None))).
  constructor; [cbn; lia | constructor].
Defined.

Lemma atr_warms_up_and_is_nonnegative_witness :
  Indicators.atr_last [mkBar 0%Z 10 12 9 11 1; mkBar 60000000%Z 11 13 10 12 1] 3
  = None.
Proof.
  apply (proj1 (proj2 (atr_warms_up_and_is_nonnegative
                         [mkBar 0%Z 10 12 9 11 1; mkBar 60000000%Z 11 13 10 12 1]
                         3))).
  - lia.
  - cbn. lia.
Defined.

Lemma fetch_range_retries_without_limit_witness :
  fst (Data.fetch_range_minutes (fun _ _ _ => Data.StatusError 503 None) 7 300)
  = Data.Looping.
Proof.
  refine (proj1 (proj2 (fetch_range_retries_without_limit
                          (fun _ _ _ => Data.StatusError 503 None) 300)
                   _ _ 7%nat)).
  - intros k cnt t. right. exists 503%Z, None. split; reflexivity.
  - lia.
Defined.
